(** * MRPT: occupancy-grid ray simulator and ICP edge-registration decider

    A shallow embedding of
      - [libs/maps/src/maps/COccupancyGridMap2D_simulate.cpp]
        ([laserScanSimulator], [sonarSimulator], [simulateScanRay]) and
      - [apps/graphslam-engine/CICPGoodnessERD_impl.h]
        (the decider [CICPGoodnessERD_t]),
    followed by the properties of both that the specification states.

    Conventions.
      - C++ [float] and [double] values are IEEE-754 numbers, modelled by
        [spec_float] of the Standard Library with the operations of
        binary32 (precision 24, emax 128) and binary64 (53, 1024).
      - [unsigned int] is a [Z] in [0, 2^32), [size_t] and [TNodeID] a [Z]
        in [0, 2^64); their arithmetic is written with its wrap-around.
      - What the two files call but do not define (grid coordinate
        transforms, the log-odds table, libm, the random generator, pose
        composition, the ICP solver, pose distances) is an interface, a
        type class whose fields the functions take as parameters. *)

From Stdlib Require Import ZArith List Bool Lia.
From Stdlib Require Import Floats.SpecFloat.
From stdpp Require Import base option list gmap strings.

Local Open Scope Z_scope.

(** ** Machine numbers *)

Module Num.

Definition float := spec_float.
Definition double := spec_float.

Definition two32 : Z := 2 ^ 32.
Definition two64 : Z := 2 ^ 64.

(** Conversions between the integer types. *)
Definition to_unsigned (z : Z) : Z := z mod two32.
Definition to_size_t (z : Z) : Z := z mod two64.
Definition to_int (z : Z) : Z :=
  let u := z mod two32 in if u <? 2 ^ 31 then u else u - two32.

(** binary32 and binary64 arithmetic, round to nearest even. *)
Definition fmul32 : float -> float -> float := SFmul 24 128.
Definition fdiv32 : float -> float -> float := SFdiv 24 128.
Definition fsub32 : float -> float -> float := SFsub 24 128.
Definition fadd64 : double -> double -> double := SFadd 53 1024.
Definition fsub64 : double -> double -> double := SFsub 53 1024.
Definition fmul64 : double -> double -> double := SFmul 53 1024.
Definition fdiv64 : double -> double -> double := SFdiv 53 1024.

(** Integer to floating point. *)
Definition float_of_Z (n : Z) : float := binary_normalize 24 128 n 0 false.
Definition double_of_Z (n : Z) : double := binary_normalize 53 1024 n 0 false.

(** [float] to [double] is exact; [double] to [float] rounds. *)
Definition double_of_float (x : float) : double := x.
Definition float_of_double (x : double) : float :=
  match x with
  | S754_finite s m e => binary_round 24 128 s m e
  | _ => x
  end.

(** Comparisons ([a > b] is [b < a]); every comparison with a NaN is false. *)
Definition fgt (a b : spec_float) : bool := SFltb b a.
Definition flt (a b : spec_float) : bool := SFltb a b.
Definition fle (a b : spec_float) : bool := SFleb a b.

Definition fzero : spec_float := S754_zero false.
Definition fone : spec_float := S754_finite false 1 0.
Definition fhalf : spec_float := S754_finite false 1 (-1).

End Num.

Import Num.

(** ** Outcome of a call

    A call returns, throws (the exception of a failed [ASSERT_]) or, in the
    model only, runs out of the fuel that bounds a [while] loop. *)

Inductive outcome (A : Type) : Type :=
  | Returns (a : A)
  | Throws (msg : string)
  | OutOfFuel.

Arguments Returns {A} a.
Arguments Throws {A} msg.
Arguments OutOfFuel {A}.

Definition bind {A B : Type} (m : outcome A) (k : A -> outcome B) : outcome B :=
  match m with
  | Returns a => k a
  | Throws msg => Throws msg
  | OutOfFuel => OutOfFuel
  end.

#[global] Instance outcome_bind : MBind outcome := fun A B k m => bind m k.
#[global] Instance outcome_ret : MRet outcome := fun A a => Returns a.

(** [ASSERT_(cond)]: throws when [cond] is false. *)
Definition ASSERT_ (cond : bool) (text : string) : outcome unit :=
  if cond then Returns tt else Throws ("Assert condition failed: " +:+ text).

(** ** Poses

    [CPose2D] is (x, y, phi); [CPose3D] and [TPose3D] are
    (x, y, z, yaw, pitch, roll). *)

Module CPose2D.
Record t : Type := mk { x : double; y : double; phi : double }.
End CPose2D.

Module CPose3D.
Record t : Type :=
  mk { x : double; y : double; z : double;
       yaw : double; pitch : double; roll : double }.
Definition origin : t := mk fzero fzero fzero fzero fzero fzero.
End CPose3D.

(** ** The occupancy grid and the observations the simulators fill *)

(** [COccupancyGridMap2D]: the members the simulators read. [map] is the
    row-major vector of log-odds cells ([cellType], a signed 8 or 16 bit
    integer). *)
Record COccupancyGridMap2D : Type := {
  size_x : Z;
  size_y : Z;
  x_min : float;
  y_min : float;
  resolution : float;
  map : list Z
}.

(** [CObservation2DRangeScan]: [validRange] is a vector of [char]. *)
Record CObservation2DRangeScan : Type := {
  scan : list float;
  validRange : list Z;
  aperture : float;
  rightToLeft : bool;
  maxRange : float;
  sensorPose : CPose3D.t
}.

(** One sonar transducer of a [CObservationRange]. *)
Record TMeasurement : Type := {
  sensorID : Z;
  sensorPose_ : CPose3D.t;
  sensedDistance : float
}.

(** [CObservationRange]; iterating over the observation iterates over
    [sensedData]. *)
Record CObservationRange : Type := {
  maxSensorDistance : float;
  sensorConeApperture : float;
  sensedData : list TMeasurement
}.

(** What [COccupancyGridMap2D_simulate.cpp] calls and does not define. *)
Class SimExternals : Type := {
  (** [x2idx], [y2idx] of the grid's header: world coordinate to cell index,
      an [int]. *)
  x2idx : COccupancyGridMap2D -> double -> Z;
  y2idx : COccupancyGridMap2D -> double -> Z;
  (** [p2l]: probability to log-odds cell value. *)
  p2l : float -> Z;
  (** libm, and [mrpt::utils::round] (to the nearest [int]) and [DEG2RAD]. *)
  cos : double -> double;
  sin : double -> double;
  round : spec_float -> Z;
  DEG2RAD : double -> double;
  (** [randomGenerator]: its state, and a draw from N(0,1). *)
  RNG : Type;
  drawGaussian1D_normalized : RNG -> double * RNG;
  (** [CPose2D(CPose3D(robotPose) + sensorPose)]. *)
  sensor_on_robot : CPose2D.t -> CPose3D.t -> CPose2D.t
}.

(** ** The ray simulator ([COccupancyGridMap2D_simulate.cpp]) *)

Section Simulator.
Context `{SimExternals}.

(** [map[x+y*size_x]]: the index is computed in [unsigned int]; reading
    past the end of the vector (undefined in C++) yields 0 here. *)
Definition cell (g : COccupancyGridMap2D) (x y : Z) : Z :=
  nth (Z.to_nat (to_unsigned (x + y * size_x g))) (map g) 0.

(** The locals of [simulateScanRay] that the [while] loop leaves behind. *)
Record ray_exit : Type := {
  exit_x : Z;
  exit_y : Z;
  exit_hitCellOcc_int : Z;
  exit_firstUnknownCellDist : Z;
  exit_ray_len : Z
}.

(** The [while] loop of [simulateScanRay]. Its condition is evaluated left
    to right, with the assignments to [x], [y] and [hitCellOcc_int] it
    makes on the way, and stops at the first conjunct that fails. *)
Fixpoint ray_march (fuel : nat) (g : COccupancyGridMap2D)
    (threshold_free_int max_ray_len : Z) (Arx Ary : double)
    (rx ry : double) (x y hitCellOcc_int firstUnknownCellDist ray_len : Z)
    : outcome ray_exit :=
  let leave x y hitCellOcc_int :=
    Returns {| exit_x := x; exit_y := y;
               exit_hitCellOcc_int := hitCellOcc_int;
               exit_firstUnknownCellDist := firstUnknownCellDist;
               exit_ray_len := ray_len |} in
  let x := x2idx g rx in
  if negb (0 <=? x) then leave x y hitCellOcc_int else
  let y := y2idx g ry in
  if negb (0 <=? y) then leave x y hitCellOcc_int else
  if negb (x <? to_int (size_x g)) then leave x y hitCellOcc_int else
  if negb (y <? to_int (size_y g)) then leave x y hitCellOcc_int else
  let hitCellOcc_int := cell g x y in
  if negb (threshold_free_int <? hitCellOcc_int) then leave x y hitCellOcc_int else
  if negb (ray_len <? max_ray_len) then leave x y hitCellOcc_int else
  match fuel with
  | O => OutOfFuel
  | S fuel' =>
      let firstUnknownCellDist :=
        if Z.abs hitCellOcc_int <=? 1
        then Z.min firstUnknownCellDist ray_len   (* keep_min *)
        else firstUnknownCellDist in
      ray_march fuel' g threshold_free_int max_ray_len Arx Ary
        (fadd64 rx Arx) (fadd64 ry Ary)
        x y hitCellOcc_int firstUnknownCellDist (to_unsigned (ray_len + 1))
  end.

(** [simulateScanRay]: returns [(out_range, out_valid)] and the state of
    the random generator. The loop runs at most [max_ray_len] times, which
    is the fuel it is given. *)
Definition simulateScanRay (g : COccupancyGridMap2D)
    (start_x start_y angle_direction : double)
    (max_ray_len : Z) (threshold_free : float)
    (noiseStd angleNoiseStd : double) (rng : RNG)
    : outcome (float * bool * RNG) :=
  let '(angle_noise, rng) :=
    if fgt angleNoiseStd fzero
    then let '(r, rng') := drawGaussian1D_normalized rng in
         (fmul64 r angleNoiseStd, rng')
    else (fzero, rng) in
  let A_ := fadd64 angle_direction angle_noise in
  let Arx := fmul64 (cos A_) (double_of_float (resolution g)) in
  let Ary := fmul64 (sin A_) (double_of_float (resolution g)) in
  let ray_len := 0 in
  let firstUnknownCellDist := to_unsigned (max_ray_len + 1) in
  let rx := start_x in
  let ry := start_y in
  let hitCellOcc_int := 0 in
  let threshold_free_int := p2l threshold_free in
  let y := y2idx g ry in
  (* [x] is not initialised; the condition assigns it before any use *)
  e ← ray_march (Z.to_nat max_ray_len) g threshold_free_int max_ray_len
            Arx Ary rx ry 0 y hitCellOcc_int firstUnknownCellDist ray_len;
  if (Z.abs (exit_hitCellOcc_int e) <=? 1)
     || (size_x g <=? to_unsigned (exit_x e))
     || (size_y g <=? to_unsigned (exit_y e))
  then
    let out_range :=
      if exit_firstUnknownCellDist e <? exit_ray_len e
      then fmul32 (float_of_Z (exit_firstUnknownCellDist e)) (resolution g)
      else fmul32 (float_of_Z (exit_ray_len e)) (resolution g) in
    Returns (out_range, false, rng)
  else
    let out_range := fmul32 (float_of_Z (exit_ray_len e)) (resolution g) in
    let out_valid := exit_ray_len e <? max_ray_len in
    if fgt noiseStd fzero && out_valid
    then let '(r, rng') := drawGaussian1D_normalized rng in
         Returns (float_of_double
                    (fadd64 (double_of_float out_range) (fmul64 noiseStd r)),
                  out_valid, rng')
    else Returns (out_range, out_valid, rng).

(** [v.resize(n)] of a vector: keeps the first [n] elements, pads with the
    value-initialised element. *)
Definition resize {A : Type} (n : Z) (d : A) (v : list A) : list A :=
  firstn (Z.to_nat n) v ++ repeat d (Z.to_nat n - length v)%nat.

(** The [for] loop of [laserScanSimulator]; [i] is a [size_t]. *)
Fixpoint laser_rays (fuel : nat) (g : COccupancyGridMap2D)
    (sensorPose : CPose2D.t) (N decimation max_ray_len : Z)
    (free_thres : float) (noiseStd angleNoiseStd : double) (AA : double)
    (i : Z) (A : double) (scan : list float) (validRange : list Z) (rng : RNG)
    : outcome (list float * list Z * RNG) :=
  if negb (i <? N) then Returns (scan, validRange, rng) else
  match fuel with
  | O => OutOfFuel
  | S fuel' =>
      '(range, valid, rng) ←
        simulateScanRay g (CPose2D.x sensorPose) (CPose2D.y sensorPose) A
          max_ray_len free_thres noiseStd angleNoiseStd rng;
      laser_rays fuel' g sensorPose N decimation max_ray_len free_thres
        noiseStd angleNoiseStd AA
        (to_size_t (i + decimation))
        (fadd64 A (fmul64 AA (double_of_Z decimation)))
        (<[Z.to_nat i := (range : float)]> scan)
        (<[Z.to_nat i := (if valid : bool then 1 else 0)]> validRange)
        rng
  end.

(** [laserScanSimulator]: returns the observation filled in. [threshold],
    [noiseStd] and [angleNoiseStd] are [float] parameters, [N] a [size_t],
    [decimation] an [unsigned int]. *)
Definition laserScanSimulator (g : COccupancyGridMap2D)
    (inout_Scan : CObservation2DRangeScan) (robotPose : CPose2D.t)
    (threshold : float) (N : Z) (noiseStd : float) (decimation : Z)
    (angleNoiseStd : float) (rng : RNG)
    : outcome (CObservation2DRangeScan * RNG) :=
  _ ← ASSERT_ (1 <=? decimation) "decimation>=1";
  _ ← ASSERT_ (2 <=? N) "N>=2";
  let inout_Scan_sensorPose := sensorPose inout_Scan in
  let sensorPose := sensor_on_robot robotPose inout_Scan_sensorPose in
  let scan0 := resize N fzero (scan inout_Scan) in
  let validRange0 := resize N 0 (validRange inout_Scan) in
  let A :=
    fadd64 (CPose2D.phi sensorPose)
      (fmul64 (if rightToLeft inout_Scan then SFopp fhalf else fhalf)
              (double_of_float (aperture inout_Scan))) in
  let AA :=
    fmul64 (if rightToLeft inout_Scan then fone else SFopp fone)
      (double_of_float
         (fdiv32 (aperture inout_Scan) (float_of_Z (to_size_t (N - 1))))) in
  let free_thres := fsub32 fone threshold in
  let max_ray_len :=
    to_unsigned (round (fdiv32 (maxRange inout_Scan) (resolution g))) in
  '(scan1, validRange1, rng) ←
    laser_rays (Z.to_nat N) g sensorPose N decimation max_ray_len free_thres
      (double_of_float noiseStd) (double_of_float angleNoiseStd) AA
      0 A scan0 validRange0 rng;
  Returns ({| scan := scan1; validRange := validRange1;
              aperture := aperture inout_Scan;
              rightToLeft := rightToLeft inout_Scan;
              maxRange := maxRange inout_Scan;
              sensorPose := inout_Scan_sensorPose |}, rng).

(** The update of [min_detected_obs] in the body of the inner loop of
    [sonarSimulator]:
    [if (valid && (sim_rang<min_detected_obs || !i)) min_detected_obs = sim_rang;] *)
Definition keep_shortest (i : Z) (valid : bool) (sim_rang : float)
    (min_detected_obs : float) : float :=
  if valid && (flt sim_rang min_detected_obs || (i =? 0))
  then sim_rang else min_detected_obs.

(** The inner [for] loop of [sonarSimulator], [n] rays still to go. *)
Fixpoint cone_rays (n : nat) (g : COccupancyGridMap2D)
    (sensorAbsolutePose : CPose2D.t) (max_ray_len : Z) (free_thres : float)
    (rangeNoiseStd angleNoiseStd : double) (Adir : double)
    (i : Z) (direction : double) (min_detected_obs : float) (rng : RNG)
    : outcome (float * RNG) :=
  match n with
  | O => Returns (min_detected_obs, rng)
  | S n' =>
      '(sim_rang, valid, rng) ←
        simulateScanRay g (CPose2D.x sensorAbsolutePose)
          (CPose2D.y sensorAbsolutePose) direction
          max_ray_len free_thres rangeNoiseStd angleNoiseStd rng;
      cone_rays n' g sensorAbsolutePose max_ray_len free_thres
        rangeNoiseStd angleNoiseStd Adir
        (i + 1) (fadd64 direction Adir)
        (keep_shortest i valid sim_rang min_detected_obs) rng
  end.

(** The locals of the outer loop's body: the number of rays of a cone (a
    [size_t]), the direction of its first ray and the angle between two
    rays. *)
Definition cone_nRays (sensorConeApperture : float) : Z :=
  to_size_t (round (fadd64 fone
                      (fdiv64 (double_of_float sensorConeApperture)
                              (DEG2RAD fone)))).

Definition cone_direction (sensorAbsolutePose : CPose2D.t)
    (sensorConeApperture : float) : double :=
  fsub64 (CPose2D.phi sensorAbsolutePose)
         (fmul64 fhalf (double_of_float sensorConeApperture)).

Definition cone_Adir (sensorConeApperture : float) : double :=
  double_of_float
    (fdiv32 sensorConeApperture (float_of_Z (cone_nRays sensorConeApperture))).

(** The body of the outer loop of [sonarSimulator], for one transducer. *)
Definition sonar_cone (g : COccupancyGridMap2D) (robotPose : CPose2D.t)
    (sensorConeApperture : float) (max_ray_len : Z) (free_thres : float)
    (rangeNoiseStd angleNoiseStd : double) (m : TMeasurement) (rng : RNG)
    : outcome (TMeasurement * RNG) :=
  let sensorAbsolutePose := sensor_on_robot robotPose (sensorPose_ m) in
  _ ← ASSERT_ (fgt sensorConeApperture fzero)
            "inout_observation.sensorConeApperture>0";
  let nRays := cone_nRays sensorConeApperture in
  let direction := cone_direction sensorAbsolutePose sensorConeApperture in
  let Adir := cone_Adir sensorConeApperture in
  '(min_detected_obs, rng) ←
    cone_rays (Z.to_nat nRays) g sensorAbsolutePose max_ray_len free_thres
      rangeNoiseStd angleNoiseStd Adir 0 direction fzero rng;
  Returns ({| sensorID := sensorID m; sensorPose_ := sensorPose_ m;
              sensedDistance := min_detected_obs |}, rng).

(** The outer loop of [sonarSimulator], over the transducers. *)
Fixpoint sonar_cones (g : COccupancyGridMap2D) (robotPose : CPose2D.t)
    (sensorConeApperture : float) (max_ray_len : Z) (free_thres : float)
    (rangeNoiseStd angleNoiseStd : double) (ms : list TMeasurement) (rng : RNG)
    : outcome (list TMeasurement * RNG) :=
  match ms with
  | [] => Returns ([], rng)
  | m :: ms' =>
      '(m', rng) ←
        sonar_cone g robotPose sensorConeApperture max_ray_len free_thres
          rangeNoiseStd angleNoiseStd m rng;
      '(ms'', rng) ←
        sonar_cones g robotPose sensorConeApperture max_ray_len free_thres
          rangeNoiseStd angleNoiseStd ms' rng;
      Returns (m' :: ms'', rng)
  end.

(** [sonarSimulator]. *)
Definition sonarSimulator (g : COccupancyGridMap2D)
    (inout_observation : CObservationRange) (robotPose : CPose2D.t)
    (threshold rangeNoiseStd angleNoiseStd : float) (rng : RNG)
    : outcome (CObservationRange * RNG) :=
  let free_thres := fsub32 fone threshold in
  let max_ray_len :=
    to_unsigned
      (round (fdiv32 (maxSensorDistance inout_observation) (resolution g))) in
  '(ms, rng) ←
    sonar_cones g robotPose (sensorConeApperture inout_observation)
      max_ray_len free_thres
      (double_of_float rangeNoiseStd) (double_of_float angleNoiseStd)
      (sensedData inout_observation) rng;
  Returns ({| maxSensorDistance := maxSensorDistance inout_observation;
              sensorConeApperture := sensorConeApperture inout_observation;
              sensedData := ms |}, rng).

(** ** Vocabulary of the simulator's properties *)

(** The point the ray has reached after [k] steps of the march in direction
    [A_]. *)
Definition ray_step (g : COccupancyGridMap2D) (A_ : double)
    (p : double * double) : double * double :=
  (fadd64 (fst p) (fmul64 (cos A_) (double_of_float (resolution g))),
   fadd64 (snd p) (fmul64 (sin A_) (double_of_float (resolution g)))).

Definition ray_point (g : COccupancyGridMap2D) (start_x start_y A_ : double)
    (k : nat) : double * double :=
  Nat.iter k (ray_step g A_) (start_x, start_y).

(** The point lies in the grid. *)
Definition inside (g : COccupancyGridMap2D) (p : double * double) : Prop :=
  0 <= x2idx g (fst p) < size_x g /\ 0 <= y2idx g (snd p) < size_y g.

(** The point lies in a cell of the grid that is freer than the threshold
    and is not unknown. *)
Definition free_known (g : COccupancyGridMap2D) (threshold_free : float)
    (p : double * double) : Prop :=
  inside g p /\
  p2l threshold_free < cell g (x2idx g (fst p)) (y2idx g (snd p)) /\
  1 < Z.abs (cell g (x2idx g (fst p)) (y2idx g (snd p))).

(** The outcomes [(sim_rang, valid)] of the rays that the inner loop of
    [sonarSimulator] simulates for a cone, in the order of the loop. *)
Fixpoint cone_ray_results (n : nat) (g : COccupancyGridMap2D)
    (sensorAbsolutePose : CPose2D.t) (max_ray_len : Z) (free_thres : float)
    (rangeNoiseStd angleNoiseStd : double) (Adir : double)
    (direction : double) (rng : RNG) : outcome (list (float * bool)) :=
  match n with
  | O => Returns []
  | S n' =>
      '(sim_rang, valid, rng) ←
        simulateScanRay g (CPose2D.x sensorAbsolutePose)
          (CPose2D.y sensorAbsolutePose) direction
          max_ray_len free_thres rangeNoiseStd angleNoiseStd rng;
      rest ←
        cone_ray_results n' g sensorAbsolutePose max_ray_len free_thres
          rangeNoiseStd angleNoiseStd Adir (fadd64 direction Adir) rng;
      Returns ((sim_rang : float, valid : bool) :: rest)
  end.

(** What the inner loop makes of these outcomes: [keep_shortest] applied
    ray after ray, from ray number [i] on. *)
Fixpoint shortest_from (i : Z) (rays : list (float * bool))
    (min_detected_obs : float) : float :=
  match rays with
  | [] => min_detected_obs
  | (sim_rang, valid) :: rest =>
      shortest_from (i + 1) rest (keep_shortest i valid sim_rang min_detected_obs)
  end.

(** The march goes on over the point [p]: it lies in a cell of the grid
    that is freer than the threshold, known or not. *)
Definition passes (g : COccupancyGridMap2D) (threshold_free : float)
    (p : double * double) : Prop :=
  inside g p /\
  p2l threshold_free < cell g (x2idx g (fst p)) (y2idx g (snd p)).

(** The point lies in a cell of the grid that is known and not freer than
    the threshold: an obstacle. *)
Definition obstacle (g : COccupancyGridMap2D) (threshold_free : float)
    (p : double * double) : Prop :=
  inside g p /\
  cell g (x2idx g (fst p)) (y2idx g (snd p)) <= p2l threshold_free /\
  1 < Z.abs (cell g (x2idx g (fst p)) (y2idx g (snd p))).

(** [x2idx] and [y2idx] return [int]s. *)
Definition int_valued (g : COccupancyGridMap2D) : Prop :=
  forall r, - 2 ^ 31 <= x2idx g r < 2 ^ 31 /\ - 2 ^ 31 <= y2idx g r < 2 ^ 31.

(** [firstUnknownCellDist] after [n] iterations of the loop from the point
    [p], where [ray_len] is [len]: the body keeps the smaller of it and
    [ray_len] on every unknown cell. *)
Fixpoint unknown_dist (g : COccupancyGridMap2D) (A_ : double) (n : nat)
    (p : double * double) (len fu : Z) : Z :=
  match n with
  | O => fu
  | S n' =>
      unknown_dist g A_ n' (ray_step g A_ p) (len + 1)
        (if Z.abs (cell g (x2idx g (fst p)) (y2idx g (snd p))) <=? 1
         then Z.min fu len else fu)
  end.

(** The angle of the ray that the loop of [laserScanSimulator] simulates in
    its iteration number [m]. *)
Definition laser_angle (A AA : double) (decimation : Z) (m : nat) : double :=
  Nat.iter m (fun a => fadd64 a (fmul64 AA (double_of_Z decimation))) A.


(** What [simulateScanRay] reports once the loop is left with the locals
    [e]: the statements after its [while]. *)
Definition ray_report (g : COccupancyGridMap2D) (max_ray_len : Z)
    (noiseStd : double) (rng : RNG) (e : ray_exit)
    : outcome (float * bool * RNG) :=
  if (Z.abs (exit_hitCellOcc_int e) <=? 1)
     || (size_x g <=? to_unsigned (exit_x e))
     || (size_y g <=? to_unsigned (exit_y e))
  then
    let out_range :=
      if exit_firstUnknownCellDist e <? exit_ray_len e
      then fmul32 (float_of_Z (exit_firstUnknownCellDist e)) (resolution g)
      else fmul32 (float_of_Z (exit_ray_len e)) (resolution g) in
    Returns (out_range, false, rng)
  else
    let out_range := fmul32 (float_of_Z (exit_ray_len e)) (resolution g) in
    let out_valid := exit_ray_len e <? max_ray_len in
    if fgt noiseStd fzero && out_valid
    then let '(r, rng') := drawGaussian1D_normalized rng in
         Returns (float_of_double
                    (fadd64 (double_of_float out_range) (fmul64 noiseStd r)),
                  out_valid, rng')
    else Returns (out_range, out_valid, rng).

End Simulator.

(** A grid as MRPT builds it: the sizes are unsigned and the resolution is
    positive and finite. *)
Definition positive_finite (x : spec_float) : bool :=
  match x with
  | S754_finite false _ _ => true
  | _ => false
  end.

Definition grid_ok (g : COccupancyGridMap2D) : Prop :=
  0 <= size_x g /\ 0 <= size_y g /\ positive_finite (resolution g) = true.

(** The sizes of the grid fit an [int], to which the loop of
    [simulateScanRay] casts them. *)
Definition sizes_fit_int (g : COccupancyGridMap2D) : Prop :=
  0 < size_x g < 2 ^ 31 /\ 0 < size_y g < 2 ^ 31.

(** ** The edge-registration decider ([CICPGoodnessERD_impl.h]) *)

Definition TNodeID := Z.

(** An observation as [updateDeciderState] classifies it with [IS_CLASS];
    the decider is generic in the 3D scan, which it only stores and hands to
    the ICP solver. *)
Inductive CObservation (Scan3D : Type) : Type :=
  | Obs2DRangeScan (s : CObservation2DRangeScan)
  | Obs3DRangeScan (s : Scan3D)
  | ObsOther.

Arguments Obs2DRangeScan {Scan3D} s.
Arguments Obs3DRangeScan {Scan3D} s.
Arguments ObsOther {Scan3D}.

(** The template parameter [GRAPH_t] and the collaborators of the decider:
    the operations of the pose graph it calls, the ICP solver of its base
    class (which reports the relative pose and [icp_info.goodness]), the
    distance between poses and the handling of 3D scans. *)
Class ERDExternals : Type := {
  GRAPH_t : Type;
  pose_t : Type;
  constraint_t : Type;
  CObservation3DRangeScan : Type;
  nodeCount : GRAPH_t -> Z;
  nodes : GRAPH_t -> TNodeID -> pose_t;
  getAllNodes : GRAPH_t -> list TNodeID;
  insertEdge : GRAPH_t -> TNodeID -> TNodeID -> constraint_t -> GRAPH_t;
  distanceTo : pose_t -> pose_t -> double;
  load : CObservation3DRangeScan -> CObservation3DRangeScan;
  convert3DTo2DRangeScan : CObservation3DRangeScan -> CObservation2DRangeScan;
  getICPEdge2D :
    CObservation2DRangeScan -> CObservation2DRangeScan -> constraint_t * double;
  getICPEdge3D :
    CObservation3DRangeScan -> CObservation3DRangeScan -> constraint_t * double
}.

(** [TParams]: the options the registration reads. [LC_min_nodeid_diff] is
    an [int]. *)
Record TParams : Type := {
  ICP_max_distance : double;
  ICP_goodness_thresh : double;
  LC_min_nodeid_diff : Z
}.

(** A [std::set<TNodeID>] is a strictly ascending list, iterated in that
    order. *)
Fixpoint set_insert (k : TNodeID) (s : list TNodeID) : list TNodeID :=
  match s with
  | [] => [k]
  | h :: t =>
      if k <? h then k :: s
      else if k =? h then s
      else h :: set_insert k t
  end.

(** [m[key]++] on a [std::map<std::string, int>]: a missing key starts at
    0. The counters are [int]s; they count in [Z] here (overflowing one is
    undefined behaviour in C++). *)
Definition counter (m : gmap string Z) (key : string) : Z :=
  default 0 (m !! key).

Definition increment (key : string) (m : gmap string Z) : gmap string Z :=
  <[key := counter m key + 1]> m.

Arguments counter : simpl never.
Arguments increment : simpl never.

(** [abs(m_graph->nodeCount()-1 - *node_it)]: the difference is taken in
    [size_t]; [abs] reads it as a signed integer. *)
Definition to_long (z : Z) : Z :=
  let u := z mod two64 in if u <? 2 ^ 63 then u else u - two64.

Definition id_gap (count : Z) (node : TNodeID) : Z :=
  Z.abs (to_long (to_size_t (to_size_t (count - 1) - node))).

Section Decider.
Context `{ERDExternals}.

(** The members of [CICPGoodnessERD_t] that [updateDeciderState] reads or
    writes. A null scan pointer is [None]. *)
Record CICPGoodnessERD_t : Type := {
  m_just_inserted_loop_closure : bool;
  m_is_using_3DScan : bool;
  m_last_total_num_of_nodes : Z;
  m_edge_types_to_nums : gmap string Z;
  m_checked_for_usuable_dataset : bool;
  m_consecutive_invalid_format_instances : Z;
  m_last_laser_scan2D : option CObservation2DRangeScan;
  m_last_laser_scan3D : option CObservation3DRangeScan;
  m_fake_laser_scan2D : option CObservation2DRangeScan;
  m_nodes_to_laser_scans2D : gmap Z CObservation2DRangeScan;
  m_nodes_to_laser_scans3D : gmap Z CObservation3DRangeScan
}.

Definition m_consecutive_invalid_format_instances_thres : Z := 20.

(** The constructor, [initCICPGoodnessERD_t]. *)
Definition initCICPGoodnessERD_t : CICPGoodnessERD_t := {|
  m_just_inserted_loop_closure := false;
  m_is_using_3DScan := false;
  m_last_total_num_of_nodes := 2;
  m_edge_types_to_nums :=
    <["LC" := 0]> (<["ICP3D" := 0]> (<["ICP2D" := 0]> ∅));
  m_checked_for_usuable_dataset := false;
  m_consecutive_invalid_format_instances := 0;
  m_last_laser_scan2D := None;
  m_last_laser_scan3D := None;
  m_fake_laser_scan2D := None;
  m_nodes_to_laser_scans2D := ∅;
  m_nodes_to_laser_scans3D := ∅
|}.

(** Field updates. *)
Definition set_loop_closure (b : bool) (d : CICPGoodnessERD_t) :=
  {| m_just_inserted_loop_closure := b;
     m_is_using_3DScan := m_is_using_3DScan d;
     m_last_total_num_of_nodes := m_last_total_num_of_nodes d;
     m_edge_types_to_nums := m_edge_types_to_nums d;
     m_checked_for_usuable_dataset := m_checked_for_usuable_dataset d;
     m_consecutive_invalid_format_instances :=
       m_consecutive_invalid_format_instances d;
     m_last_laser_scan2D := m_last_laser_scan2D d;
     m_last_laser_scan3D := m_last_laser_scan3D d;
     m_fake_laser_scan2D := m_fake_laser_scan2D d;
     m_nodes_to_laser_scans2D := m_nodes_to_laser_scans2D d;
     m_nodes_to_laser_scans3D := m_nodes_to_laser_scans3D d |}.

Definition set_is_using_3DScan (b : bool) (d : CICPGoodnessERD_t) :=
  {| m_just_inserted_loop_closure := m_just_inserted_loop_closure d;
     m_is_using_3DScan := b;
     m_last_total_num_of_nodes := m_last_total_num_of_nodes d;
     m_edge_types_to_nums := m_edge_types_to_nums d;
     m_checked_for_usuable_dataset := m_checked_for_usuable_dataset d;
     m_consecutive_invalid_format_instances :=
       m_consecutive_invalid_format_instances d;
     m_last_laser_scan2D := m_last_laser_scan2D d;
     m_last_laser_scan3D := m_last_laser_scan3D d;
     m_fake_laser_scan2D := m_fake_laser_scan2D d;
     m_nodes_to_laser_scans2D := m_nodes_to_laser_scans2D d;
     m_nodes_to_laser_scans3D := m_nodes_to_laser_scans3D d |}.

Definition set_last_total_num_of_nodes (n : Z) (d : CICPGoodnessERD_t) :=
  {| m_just_inserted_loop_closure := m_just_inserted_loop_closure d;
     m_is_using_3DScan := m_is_using_3DScan d;
     m_last_total_num_of_nodes := n;
     m_edge_types_to_nums := m_edge_types_to_nums d;
     m_checked_for_usuable_dataset := m_checked_for_usuable_dataset d;
     m_consecutive_invalid_format_instances :=
       m_consecutive_invalid_format_instances d;
     m_last_laser_scan2D := m_last_laser_scan2D d;
     m_last_laser_scan3D := m_last_laser_scan3D d;
     m_fake_laser_scan2D := m_fake_laser_scan2D d;
     m_nodes_to_laser_scans2D := m_nodes_to_laser_scans2D d;
     m_nodes_to_laser_scans3D := m_nodes_to_laser_scans3D d |}.

Definition set_edge_types_to_nums (m : gmap string Z) (d : CICPGoodnessERD_t) :=
  {| m_just_inserted_loop_closure := m_just_inserted_loop_closure d;
     m_is_using_3DScan := m_is_using_3DScan d;
     m_last_total_num_of_nodes := m_last_total_num_of_nodes d;
     m_edge_types_to_nums := m;
     m_checked_for_usuable_dataset := m_checked_for_usuable_dataset d;
     m_consecutive_invalid_format_instances :=
       m_consecutive_invalid_format_instances d;
     m_last_laser_scan2D := m_last_laser_scan2D d;
     m_last_laser_scan3D := m_last_laser_scan3D d;
     m_fake_laser_scan2D := m_fake_laser_scan2D d;
     m_nodes_to_laser_scans2D := m_nodes_to_laser_scans2D d;
     m_nodes_to_laser_scans3D := m_nodes_to_laser_scans3D d |}.

Definition set_dataset_check (checked : bool) (invalid : Z)
    (d : CICPGoodnessERD_t) :=
  {| m_just_inserted_loop_closure := m_just_inserted_loop_closure d;
     m_is_using_3DScan := m_is_using_3DScan d;
     m_last_total_num_of_nodes := m_last_total_num_of_nodes d;
     m_edge_types_to_nums := m_edge_types_to_nums d;
     m_checked_for_usuable_dataset := checked;
     m_consecutive_invalid_format_instances := invalid;
     m_last_laser_scan2D := m_last_laser_scan2D d;
     m_last_laser_scan3D := m_last_laser_scan3D d;
     m_fake_laser_scan2D := m_fake_laser_scan2D d;
     m_nodes_to_laser_scans2D := m_nodes_to_laser_scans2D d;
     m_nodes_to_laser_scans3D := m_nodes_to_laser_scans3D d |}.

Definition set_last_laser_scan2D (s : option CObservation2DRangeScan)
    (d : CICPGoodnessERD_t) :=
  {| m_just_inserted_loop_closure := m_just_inserted_loop_closure d;
     m_is_using_3DScan := m_is_using_3DScan d;
     m_last_total_num_of_nodes := m_last_total_num_of_nodes d;
     m_edge_types_to_nums := m_edge_types_to_nums d;
     m_checked_for_usuable_dataset := m_checked_for_usuable_dataset d;
     m_consecutive_invalid_format_instances :=
       m_consecutive_invalid_format_instances d;
     m_last_laser_scan2D := s;
     m_last_laser_scan3D := m_last_laser_scan3D d;
     m_fake_laser_scan2D := m_fake_laser_scan2D d;
     m_nodes_to_laser_scans2D := m_nodes_to_laser_scans2D d;
     m_nodes_to_laser_scans3D := m_nodes_to_laser_scans3D d |}.

Definition set_last_laser_scan3D (s : CObservation3DRangeScan)
    (d : CICPGoodnessERD_t) :=
  {| m_just_inserted_loop_closure := m_just_inserted_loop_closure d;
     m_is_using_3DScan := m_is_using_3DScan d;
     m_last_total_num_of_nodes := m_last_total_num_of_nodes d;
     m_edge_types_to_nums := m_edge_types_to_nums d;
     m_checked_for_usuable_dataset := m_checked_for_usuable_dataset d;
     m_consecutive_invalid_format_instances :=
       m_consecutive_invalid_format_instances d;
     m_last_laser_scan2D := m_last_laser_scan2D d;
     m_last_laser_scan3D := Some s;
     m_fake_laser_scan2D := Some (convert3DTo2DRangeScan s);
     m_nodes_to_laser_scans2D := m_nodes_to_laser_scans2D d;
     m_nodes_to_laser_scans3D := m_nodes_to_laser_scans3D d |}.

Definition set_nodes_to_laser_scans2D (m : gmap Z CObservation2DRangeScan)
    (d : CICPGoodnessERD_t) :=
  {| m_just_inserted_loop_closure := m_just_inserted_loop_closure d;
     m_is_using_3DScan := m_is_using_3DScan d;
     m_last_total_num_of_nodes := m_last_total_num_of_nodes d;
     m_edge_types_to_nums := m_edge_types_to_nums d;
     m_checked_for_usuable_dataset := m_checked_for_usuable_dataset d;
     m_consecutive_invalid_format_instances :=
       m_consecutive_invalid_format_instances d;
     m_last_laser_scan2D := m_last_laser_scan2D d;
     m_last_laser_scan3D := m_last_laser_scan3D d;
     m_fake_laser_scan2D := m_fake_laser_scan2D d;
     m_nodes_to_laser_scans2D := m;
     m_nodes_to_laser_scans3D := m_nodes_to_laser_scans3D d |}.

Definition set_nodes_to_laser_scans3D (m : gmap Z CObservation3DRangeScan)
    (d : CICPGoodnessERD_t) :=
  {| m_just_inserted_loop_closure := m_just_inserted_loop_closure d;
     m_is_using_3DScan := m_is_using_3DScan d;
     m_last_total_num_of_nodes := m_last_total_num_of_nodes d;
     m_edge_types_to_nums := m_edge_types_to_nums d;
     m_checked_for_usuable_dataset := m_checked_for_usuable_dataset d;
     m_consecutive_invalid_format_instances :=
       m_consecutive_invalid_format_instances d;
     m_last_laser_scan2D := m_last_laser_scan2D d;
     m_last_laser_scan3D := m_last_laser_scan3D d;
     m_fake_laser_scan2D := m_fake_laser_scan2D d;
     m_nodes_to_laser_scans2D := m_nodes_to_laser_scans2D d;
     m_nodes_to_laser_scans3D := m |}.

(** [registerNewEdge]. *)
Definition registerNewEdge (g : GRAPH_t) (from to : TNodeID)
    (rel_edge : constraint_t) : GRAPH_t :=
  insertEdge g from to rel_edge.

(** The [for] loop of [getNearbyNodesOf], [n] node ids still to visit. *)
Fixpoint nearby_nodes (n : nat) (g : GRAPH_t) (cur_nodeID : TNodeID)
    (distance : double) (nodeID : TNodeID) (nodes_set : list TNodeID)
    : list TNodeID :=
  match n with
  | O => nodes_set
  | S n' =>
      let curr_distance := distanceTo (nodes g nodeID) (nodes g cur_nodeID) in
      nearby_nodes n' g cur_nodeID distance (nodeID + 1)
        (if fle curr_distance distance
         then set_insert nodeID nodes_set else nodes_set)
  end.

(** [getNearbyNodesOf]: the loop visits the ids below [nodeCount()-1], a
    [size_t]; the other branch hands the set to [getAllNodes]. *)
Definition getNearbyNodesOf (g : GRAPH_t) (nodes_set : list TNodeID)
    (cur_nodeID : TNodeID) (distance : double) : list TNodeID :=
  if fgt distance fzero
  then nearby_nodes (Z.to_nat (to_size_t (nodeCount g - 1))) g cur_nodeID
         distance 0 nodes_set
  else getAllNodes g.

(** The statements under [if (icp_info.goodness > params.ICP_goodness_thresh)],
    the same in both registration loops but for the counter [label]: the
    edge from [node] to the newest node is inserted and counted, and
    counted as a loop closure when the ids are far enough apart. *)
Definition register_edge (params : TParams) (label : string)
    (st : CICPGoodnessERD_t * GRAPH_t) (e : TNodeID * constraint_t)
    : CICPGoodnessERD_t * GRAPH_t :=
  let '(d, g) := st in
  let g' := registerNewEdge g (fst e) (to_size_t (nodeCount g - 1)) (snd e) in
  let d := set_edge_types_to_nums (increment label (m_edge_types_to_nums d)) d in
  if LC_min_nodeid_diff params <? id_gap (nodeCount g') (fst e) then
    (set_loop_closure true
       (set_edge_types_to_nums (increment "LC" (m_edge_types_to_nums d)) d),
     g')
  else (d, g').

(** What the body of a registration loop does once ICP has reported
    [rel_edge] and [goodness] for the candidate [node]. *)
Definition register_if_good (params : TParams) (label : string)
    (node : TNodeID) (rel_edge : constraint_t) (goodness : double)
    (st : CICPGoodnessERD_t * GRAPH_t) : CICPGoodnessERD_t * GRAPH_t :=
  if fgt goodness (ICP_goodness_thresh params)
  then register_edge params label st (node, rel_edge)
  else st.

(** The body of the loop of [checkRegistrationCondition2D]. *)
Definition check2D_body (params : TParams)
    (curr_laser_scan : CObservation2DRangeScan)
    (st : CICPGoodnessERD_t * GRAPH_t) (node : TNodeID)
    : CICPGoodnessERD_t * GRAPH_t :=
  match m_nodes_to_laser_scans2D (fst st) !! node with
  | Some prev_laser_scan =>
      let '(rel_edge, goodness) := getICPEdge2D prev_laser_scan curr_laser_scan in
      register_if_good params "ICP2D" node rel_edge goodness st
  | None => st
  end.

(** [checkRegistrationCondition2D]. *)
Definition checkRegistrationCondition2D (params : TParams)
    (d : CICPGoodnessERD_t) (g : GRAPH_t) (nodes_set : list TNodeID)
    : CICPGoodnessERD_t * GRAPH_t :=
  match m_nodes_to_laser_scans2D d !! to_size_t (nodeCount g - 1) with
  | Some curr_laser_scan =>
      foldl (check2D_body params curr_laser_scan) (d, g) nodes_set
  | None => (d, g)
  end.

(** The body of the loop of [checkRegistrationCondition3D]. *)
Definition check3D_body (params : TParams)
    (curr_laser_scan : CObservation3DRangeScan)
    (st : CICPGoodnessERD_t * GRAPH_t) (node : TNodeID)
    : CICPGoodnessERD_t * GRAPH_t :=
  match m_nodes_to_laser_scans3D (fst st) !! node with
  | Some prev_laser_scan =>
      let '(rel_edge, goodness) := getICPEdge3D prev_laser_scan curr_laser_scan in
      register_if_good params "ICP3D" node rel_edge goodness st
  | None => st
  end.

(** [checkRegistrationCondition3D]. *)
Definition checkRegistrationCondition3D (params : TParams)
    (d : CICPGoodnessERD_t) (g : GRAPH_t) (nodes_set : list TNodeID)
    : CICPGoodnessERD_t * GRAPH_t :=
  match m_nodes_to_laser_scans3D d !! to_size_t (nodeCount g - 1) with
  | Some curr_laser_scan =>
      foldl (check3D_body params curr_laser_scan) (d, g) nodes_set
  | None => (d, g)
  end.

(** The shape the two loop bodies share: [reg] is the registry read, [icp]
    the solver called and [label] the counter incremented. *)
Definition check_body {Scan : Type} (reg : CICPGoodnessERD_t -> gmap Z Scan)
    (icp : Scan -> Scan -> constraint_t * double) (label : string)
    (params : TParams) (curr_laser_scan : Scan)
    (st : CICPGoodnessERD_t * GRAPH_t) (node : TNodeID)
    : CICPGoodnessERD_t * GRAPH_t :=
  match reg (fst st) !! node with
  | Some prev_laser_scan =>
      let '(rel_edge, goodness) := icp prev_laser_scan curr_laser_scan in
      register_if_good params label node rel_edge goodness st
  | None => st
  end.

(** [checkIfInvalidDataset]. *)
Definition checkIfInvalidDataset
    (observation : option (CObservation CObservation3DRangeScan))
    (d : CICPGoodnessERD_t) : CICPGoodnessERD_t :=
  match observation with
  | Some (Obs2DRangeScan _) | Some (Obs3DRangeScan _) =>
      set_dataset_check true (m_consecutive_invalid_format_instances d) d
  | Some ObsOther =>
      let invalid := m_consecutive_invalid_format_instances d + 1 in
      if m_consecutive_invalid_format_instances_thres <? invalid
      then set_dataset_check true invalid d
      else set_dataset_check false invalid d
  | None => set_dataset_check true (m_consecutive_invalid_format_instances d) d
  end.

(** [observations->getObservationByClass<CObservation2DRangeScan>()]: the
    first 2D range scan of the sensory frame, or null. *)
Fixpoint getObservationByClass_2D
    (observations : list (CObservation CObservation3DRangeScan))
    : option CObservation2DRangeScan :=
  match observations with
  | [] => None
  | Obs2DRangeScan s :: _ => Some s
  | _ :: rest => getObservationByClass_2D rest
  end.

(** The first statement of [updateDeciderState]: was a node added to the
    graph since the last call? *)
Definition detect_new_node (d : CICPGoodnessERD_t) (g : GRAPH_t)
    : bool * CICPGoodnessERD_t :=
  if m_last_total_num_of_nodes d <? nodeCount g
  then (true, set_last_total_num_of_nodes (nodeCount g) d)
  else (false, d).

(** The second statement: the scans of this step are stored, and bound to
    the new node when there is one. *)
Definition ingest_scans (registered_new_node : bool) (g : GRAPH_t)
    (observations : list (CObservation CObservation3DRangeScan))
    (observation : option (CObservation CObservation3DRangeScan))
    (d : CICPGoodnessERD_t) : CICPGoodnessERD_t :=
  match observation with
  | Some o =>
      let d :=
        match o with
        | Obs2DRangeScan s =>
            set_is_using_3DScan false (set_last_laser_scan2D (Some s) d)
        | Obs3DRangeScan s =>
            set_is_using_3DScan true (set_last_laser_scan3D (load s) d)
        | ObsOther => d
        end in
      if registered_new_node then
        let d :=
          match m_last_laser_scan2D d with
          | Some s =>
              set_nodes_to_laser_scans2D
                (<[to_size_t (nodeCount g - 1) := s]> (m_nodes_to_laser_scans2D d)) d
          | None => d
          end in
        match m_last_laser_scan3D d with
        | Some s =>
            set_nodes_to_laser_scans3D
              (<[to_size_t (nodeCount g - 1) := s]> (m_nodes_to_laser_scans3D d)) d
        | None => d
        end
      else d
  | None =>
      let d := set_last_laser_scan2D (getObservationByClass_2D observations) d in
      match registered_new_node, m_last_laser_scan2D d with
      | true, Some s =>
          set_nodes_to_laser_scans2D
            (<[to_size_t (nodeCount g - 1) := s]> (m_nodes_to_laser_scans2D d)) d
      | _, _ => d
      end
  end.

(** The third statement: the edge registration, run when a node was added. *)
Definition register_edges (params : TParams) (registered_new_node : bool)
    (d : CICPGoodnessERD_t) (g : GRAPH_t) : CICPGoodnessERD_t * GRAPH_t :=
  if registered_new_node then
    let nodes_to_check_ICP :=
      getNearbyNodesOf g [] (to_size_t (nodeCount g - 1))
        (ICP_max_distance params) in
    let d := set_loop_closure false d in
    if m_is_using_3DScan d
    then checkRegistrationCondition3D params d g nodes_to_check_ICP
    else checkRegistrationCondition2D params d g nodes_to_check_ICP
  else (d, g).

(** [updateDeciderState]. The action is unused. [observations] is the
    sensory frame and [observation] the single observation, [None] when the
    pointer is not [present()]. *)
Definition updateDeciderState (params : TParams) (d : CICPGoodnessERD_t)
    (g : GRAPH_t)
    (observations : list (CObservation CObservation3DRangeScan))
    (observation : option (CObservation CObservation3DRangeScan))
    : CICPGoodnessERD_t * GRAPH_t :=
  let '(registered_new_node, d) := detect_new_node d g in
  let d := ingest_scans registered_new_node g observations observation d in
  let '(d, g) := register_edges params registered_new_node d g in
  let d :=
    if m_checked_for_usuable_dataset d then d
    else checkIfInvalidDataset observation d in
  (d, g).

(** [justInsertedLoopClosure] and [getEdgesStats]. *)
Definition justInsertedLoopClosure (d : CICPGoodnessERD_t) : bool :=
  m_just_inserted_loop_closure d.

Definition getEdgesStats (d : CICPGoodnessERD_t) : gmap string Z :=
  m_edge_types_to_nums d.

(** One call of [updateDeciderState] by the driver: the graph as the driver
    has it at that moment, and the step's observations. *)
Record Step : Type := {
  step_graph : GRAPH_t;
  step_observations : list (CObservation CObservation3DRangeScan);
  step_observation : option (CObservation CObservation3DRangeScan)
}.

Definition update (params : TParams) (d : CICPGoodnessERD_t) (s : Step)
    : CICPGoodnessERD_t :=
  fst (updateDeciderState params d (step_graph s)
         (step_observations s) (step_observation s)).

(** The decider after a sequence of calls. *)
Definition run (params : TParams) (d : CICPGoodnessERD_t) (steps : list Step)
    : CICPGoodnessERD_t :=
  foldl (update params) d steps.

(** ** Vocabulary of the decider's properties *)

(** Whether a new node is detected by a call on the decider [d] and the
    graph [g]. *)
Definition new_node_detected (d : CICPGoodnessERD_t) (g : GRAPH_t) : bool :=
  m_last_total_num_of_nodes d <? nodeCount g.

(** The decider as the edge registration of a call finds it: after the
    detection of the new node and the ingestion of the scans. *)
Definition before_registration (d : CICPGoodnessERD_t) (g : GRAPH_t)
    (observations : list (CObservation CObservation3DRangeScan))
    (observation : option (CObservation CObservation3DRangeScan))
    : CICPGoodnessERD_t :=
  ingest_scans (new_node_detected d g) g observations observation
    (snd (detect_new_node d g)).

(** The candidates of [nodes_set] that pass the registration criterion
    against the scan [curr] of the new node, in the order of the loop, each
    with the relative pose ICP reports: those whose scan is in the registry
    [reg] and whose goodness is greater than [ICP_goodness_thresh]. *)
Definition passing {Scan : Type} (params : TParams) (reg : gmap Z Scan)
    (icp : Scan -> Scan -> constraint_t * double) (curr : Scan)
    (nodes_set : list TNodeID) : list (TNodeID * constraint_t) :=
  omap (fun node =>
          match reg !! node with
          | Some prev =>
              if fgt (snd (icp prev curr)) (ICP_goodness_thresh params)
              then Some (node, fst (icp prev curr)) else None
          | None => None
          end) nodes_set.

(** The edges a call registers: none when no new node is detected or the
    new node has no scan in the registry of the mode in use. Each is given
    by its candidate node; all end at the new node. *)
Definition registered_edges (params : TParams) (d : CICPGoodnessERD_t)
    (g : GRAPH_t)
    (observations : list (CObservation CObservation3DRangeScan))
    (observation : option (CObservation CObservation3DRangeScan))
    : list (TNodeID * constraint_t) :=
  if new_node_detected d g then
    let d1 := before_registration d g observations observation in
    let nodes_to_check_ICP :=
      getNearbyNodesOf g [] (to_size_t (nodeCount g - 1))
        (ICP_max_distance params) in
    if m_is_using_3DScan d1 then
      match m_nodes_to_laser_scans3D d1 !! to_size_t (nodeCount g - 1) with
      | Some curr =>
          passing params (m_nodes_to_laser_scans3D d1) getICPEdge3D curr
            nodes_to_check_ICP
      | None => []
      end
    else
      match m_nodes_to_laser_scans2D d1 !! to_size_t (nodeCount g - 1) with
      | Some curr =>
          passing params (m_nodes_to_laser_scans2D d1) getICPEdge2D curr
            nodes_to_check_ICP
      | None => []
      end
  else [].

(** The counter of the mode in use. *)
Definition mode_label (d : CICPGoodnessERD_t) : string :=
  if m_is_using_3DScan d then "ICP3D" else "ICP2D".

(** The graph after the edges [es] are inserted, each towards [to]. *)
Definition insert_edges (g : GRAPH_t) (to : TNodeID)
    (es : list (TNodeID * constraint_t)) : GRAPH_t :=
  foldl (fun g e => insertEdge g (fst e) to (snd e)) g es.

(** The kind of the last range scan observed as a single observation over
    a sequence of calls: [true] for a 3D scan; [mode] when there was none. *)
Definition scan_mode (mode : bool) (steps : list Step) : bool :=
  foldl (fun mode s =>
           match step_observation s with
           | Some (Obs3DRangeScan _) => true
           | Some (Obs2DRangeScan _) => false
           | _ => mode
           end) mode steps.

(** The node count of the graph does not decrease from call to call. *)
Definition nondecreasing (steps : list Step) : Prop :=
  forall i j s t, (i <= j)%nat ->
    steps !! i = Some s -> steps !! j = Some t ->
    nodeCount (step_graph s) <= nodeCount (step_graph t).

(** The three counters of the decider. *)
Definition count_ICP2D (d : CICPGoodnessERD_t) : Z :=
  counter (m_edge_types_to_nums d) "ICP2D".
Definition count_ICP3D (d : CICPGoodnessERD_t) : Z :=
  counter (m_edge_types_to_nums d) "ICP3D".
Definition count_LC (d : CICPGoodnessERD_t) : Z :=
  counter (m_edge_types_to_nums d) "LC".

(** The node [id] lies within [distance] of the node [cur_nodeID]. *)
Definition within_distance (g : GRAPH_t) (cur_nodeID : TNodeID)
    (distance : double) (id : TNodeID) : bool :=
  fle (distanceTo (nodes g id) (nodes g cur_nodeID)) distance.

(** The edge from the candidate [fst e] to the newest node of [g] spans more
    than [LC_min_nodeid_diff] ids: it is counted as a loop closure. *)
Definition is_loop_closure (params : TParams) (g : GRAPH_t)
    (e : TNodeID * constraint_t) : bool :=
  LC_min_nodeid_diff params <? id_gap (nodeCount g) (fst e).

(** The single observation of the call is present and is no range scan. *)
Definition unrecognised (s : Step) : bool :=
  match step_observation s with
  | Some ObsOther => true
  | _ => false
  end.

(** The single observation of the call is a 3D range scan. *)
Definition brings_3D_scan (s : Step) : bool :=
  match step_observation s with
  | Some (Obs3DRangeScan _) => true
  | _ => false
  end.

(** The number of calls at the head of [steps] whose observation is
    unrecognised. *)
Fixpoint leading_unrecognised (steps : list Step) : nat :=
  match steps with
  | s :: rest => if unrecognised s then S (leading_unrecognised rest) else O
  | [] => O
  end.

(** The scans in the two registries are bound to node ids from 2 up to the
    node count the decider remembers, which is at least 2. *)
Definition registries_in_range (d : CICPGoodnessERD_t) : Prop :=
  2 <= m_last_total_num_of_nodes d
  /\ forall k,
       is_Some (m_nodes_to_laser_scans2D d !! k)
       \/ is_Some (m_nodes_to_laser_scans3D d !! k) ->
       2 <= k < m_last_total_num_of_nodes d.

(** The node counts of the graphs of the calls are [size_t]s. *)
Definition counts_fit (steps : list Step) : Prop :=
  forall s, In s steps -> nodeCount (step_graph s) < two64.

End Decider.

(** What the decider assumes of the pose graph: inserting an edge adds no
    node. *)
Class GraphLaws `{ERDExternals} : Prop := {
  nodeCount_insertEdge :
    forall g from to c, nodeCount (insertEdge g from to c) = nodeCount g
}.

(** ** The pose graph of the specification *)

Module SpecGraph.

(** Modelled from the spec: the pose graph, the class behind [GRAPH_t],
    whose definition is not among the sources. The specification gives it
    node ids assigned from 0 upwards, [nodeCount()] the number of nodes,
    [nodes\[i\]] the pose of node [i], [insertEdge] appending an edge with no
    deduplication, [getAllNodes] a snapshot enumeration of the nodes, and
    [distanceTo] the Euclidean translational distance. *)
Record t (constraint : Type) : Type := mk {
  poses : list CPose3D.t;
  edges : list (TNodeID * TNodeID * constraint)
}.

Arguments mk {constraint} poses edges.
Arguments poses {constraint} _.
Arguments edges {constraint} _.

Definition nodeCount {C : Type} (g : t C) : Z := Z.of_nat (length (poses g)).

(** Modelled from the spec: [nodes\[i\]]; an id with no node yields the
    default pose. *)
Definition nodes {C : Type} (g : t C) (i : TNodeID) : CPose3D.t :=
  nth (Z.to_nat i) (poses g) CPose3D.origin.

(** Modelled from the spec: [getAllNodes], the ids of all nodes, ascending. *)
Definition getAllNodes {C : Type} (g : t C) : list TNodeID :=
  List.map Z.of_nat (seq 0 (length (poses g))).

(** Modelled from the spec: [insertEdge] appends. *)
Definition insertEdge {C : Type} (g : t C) (from to : TNodeID) (c : C) : t C :=
  mk (poses g) (edges g ++ [(from, to, c)]).

(** Modelled from the spec: [distanceTo], in binary64. *)
Definition distanceTo (p q : CPose3D.t) : double :=
  let dx := fsub64 (CPose3D.x p) (CPose3D.x q) in
  let dy := fsub64 (CPose3D.y p) (CPose3D.y q) in
  let dz := fsub64 (CPose3D.z p) (CPose3D.z q) in
  SFsqrt 53 1024
    (fadd64 (fadd64 (fmul64 dx dx) (fmul64 dy dy)) (fmul64 dz dz)).

End SpecGraph.

(** The decider over this graph. The ICP solver stays a parameter: a
    function from two scans to a relative pose and a goodness. 3D scans are
    identified by a number. *)
Definition spec_externals (C : Type)
    (icp2D : CObservation2DRangeScan -> CObservation2DRangeScan -> C * double)
    (icp3D : Z -> Z -> C * double)
    (to2D : Z -> CObservation2DRangeScan) : ERDExternals := {|
  GRAPH_t := SpecGraph.t C;
  pose_t := CPose3D.t;
  constraint_t := C;
  CObservation3DRangeScan := Z;
  nodeCount := SpecGraph.nodeCount;
  nodes := SpecGraph.nodes;
  getAllNodes := SpecGraph.getAllNodes;
  insertEdge := SpecGraph.insertEdge;
  distanceTo := SpecGraph.distanceTo;
  load := fun s => s;
  convert3DTo2DRangeScan := to2D;
  getICPEdge2D := icp2D;
  getICPEdge3D := icp3D
|}.

(** ** A concrete instance of the simulator's interface

    Used to run the simulator on concrete grids. The coordinate transforms
    truncate [(x - x_min) / resolution] to an [int]; the trigonometric
    functions are short Taylor polynomials, accurate for the small angles of
    the examples; the random generator replays a given list of draws. *)

Module Sample.

Definition dec64 (n d : Z) : double := fdiv64 (double_of_Z n) (double_of_Z d).
Definition dec32 (n d : Z) : float := fdiv32 (float_of_Z n) (float_of_Z d).

(** Truncation towards zero, as [static_cast<int>] does. *)
Definition trunc (x : spec_float) : Z :=
  match x with
  | S754_finite s m e =>
      let v := match e with
               | Z0 => Zpos m
               | Zpos _ => Zpos m * 2 ^ e
               | Zneg _ => Zpos m / 2 ^ (- e)
               end in
      to_int (if s then - v else v)
  | _ => 0
  end.

Definition round_half_away (x : spec_float) : Z :=
  match x with
  | S754_finite true _ _ => trunc (fsub64 x fhalf)
  | _ => trunc (fadd64 x fhalf)
  end.

Definition M_PI : double := S754_finite false 7074237752028440 (-51).

Definition cos_poly (a : double) : double :=
  let a2 := fmul64 a a in
  fadd64 (fsub64 fone (fdiv64 a2 (double_of_Z 2)))
         (fdiv64 (fmul64 a2 a2) (double_of_Z 24)).

Definition sin_poly (a : double) : double :=
  let a2 := fmul64 a a in
  fsub64 a (fdiv64 (fmul64 a2 a) (double_of_Z 6)).

Definition to_index (origin resolution : float) (x : double) : Z :=
  trunc (fdiv64 (fsub64 x (double_of_float origin)) (double_of_float resolution)).

(** A linear stand-in for the log-odds table: 0.5 is cell value 0. *)
Definition p2l_linear (p : float) : Z :=
  trunc (fmul32 (fsub32 p fhalf) (float_of_Z 254)).

Definition draw (rng : list double) : double * list double :=
  match rng with
  | [] => (fzero, [])
  | r :: rest => (r, rest)
  end.

(** Planar composition of the robot pose with the sensor's mounting pose. *)
Definition compose (robot : CPose2D.t) (sensor : CPose3D.t) : CPose2D.t :=
  let c := cos_poly (CPose2D.phi robot) in
  let s := sin_poly (CPose2D.phi robot) in
  CPose2D.mk
    (fadd64 (CPose2D.x robot)
       (fsub64 (fmul64 (CPose3D.x sensor) c) (fmul64 (CPose3D.y sensor) s)))
    (fadd64 (CPose2D.y robot)
       (fadd64 (fmul64 (CPose3D.x sensor) s) (fmul64 (CPose3D.y sensor) c)))
    (fadd64 (CPose2D.phi robot) (CPose3D.yaw sensor)).

Definition externals : SimExternals := {|
  x2idx := fun g x => to_index (x_min g) (resolution g) x;
  y2idx := fun g y => to_index (y_min g) (resolution g) y;
  p2l := p2l_linear;
  cos := cos_poly;
  sin := sin_poly;
  round := round_half_away;
  DEG2RAD := fun x => fdiv64 (fmul64 x M_PI) (double_of_Z 180);
  RNG := list double;
  drawGaussian1D_normalized := draw;
  sensor_on_robot := compose
|}.

(** A strip of [n] cells, one row high, 0.1 m per cell, from the origin;
    free cells hold 100, the occupied ones (at the columns of [walls]) -100. *)
Definition strip (n : nat) (walls : list nat) : COccupancyGridMap2D := {|
  size_x := Z.of_nat n;
  size_y := 1;
  x_min := fzero;
  y_min := fzero;
  resolution := dec32 1 10;
  map := List.map (fun i => if existsb (Nat.eqb i) walls then -100 else 100)
           (seq 0 n)
|}.

(** A strip one row high with the given cell values, and a room of [nx]
    by [ny] free cells whose column [wall] is occupied; 0.1 m per cell,
    from the origin. *)
Definition row (cells : list Z) : COccupancyGridMap2D := {|
  size_x := Z.of_nat (length cells);
  size_y := 1;
  x_min := fzero;
  y_min := fzero;
  resolution := dec32 1 10;
  map := cells
|}.

Definition room (nx ny wall : nat) : COccupancyGridMap2D := {|
  size_x := Z.of_nat nx;
  size_y := Z.of_nat ny;
  x_min := fzero;
  y_min := fzero;
  resolution := dec32 1 10;
  map := List.map (fun i => if Nat.eqb (i mod nx) wall then -100 else 100)
           (seq 0 (nx * ny))
|}.

(** A sonar observation with the given cone aperture and transducers,
    mounted at the robot's origin; the range limit is 5 m. *)
Definition transducer (sensed : float) : TMeasurement :=
  {| sensorID := 0; sensorPose_ := CPose3D.origin; sensedDistance := sensed |}.

Definition sonar (cone : float) (ms : list TMeasurement) : CObservationRange :=
  {| maxSensorDistance := dec32 5 1; sensorConeApperture := cone;
     sensedData := ms |}.

Definition robot_at_origin : CPose2D.t := CPose2D.mk fzero fzero fzero.

(** A 2D scan observation with nothing in it yet: aperture 1 rad, range
    limit 5 m. *)
Definition empty_scan : CObservation2DRangeScan :=
  {| scan := []; validRange := []; aperture := fone; rightToLeft := true;
     maxRange := dec32 5 1; sensorPose := CPose3D.origin |}.

End Sample.

(** ** Concrete sessions of the decider

    The decider over the graph of the specification, with an ICP solver
    that reports the same goodness for every pair of scans, all nodes at
    the origin, and a threshold of 0.75. *)

Module Session.

Definition externals (goodness : double) : ERDExternals :=
  spec_externals unit (fun _ _ => (tt, goodness)) (fun _ _ => (tt, goodness))
    (fun _ => Sample.empty_scan).

Definition graph_of (n : nat) : SpecGraph.t unit :=
  SpecGraph.mk (repeat CPose3D.origin n) [].

Definition params (max_distance : double) (min_diff : Z) : TParams :=
  {| ICP_max_distance := max_distance;
     ICP_goodness_thresh := Sample.dec64 75 100;
     LC_min_nodeid_diff := min_diff |}.

(** A call with a single observation, on a graph of [n] nodes. *)
Definition step2D (goodness : double) (n : nat) : Step (H := externals goodness) :=
  @Build_Step (externals goodness) (graph_of n) []
    (Some (Obs2DRangeScan Sample.empty_scan)).

Definition step3D (goodness : double) (n : nat) (scan_id : Z)
    : Step (H := externals goodness) :=
  @Build_Step (externals goodness) (graph_of n) []
    (Some (Obs3DRangeScan (scan_id : Z))).

Definition good : double := Sample.dec64 9 10.
Definition poor : double := Sample.dec64 7 10.

(** A call with an observation that is no range scan, and a call with a
    sensory frame. *)
Definition stepOther (goodness : double) (n : nat)
    : Step (H := externals goodness) :=
  @Build_Step (externals goodness) (graph_of n) [] (Some ObsOther).

Definition stepFrame (goodness : double) (n : nat)
    (frame : list (CObservation Z)) : Step (H := externals goodness) :=
  @Build_Step (externals goodness) (graph_of n) frame None.

End Session.

(** * Properties of the ray simulator *)

Section SimulatorFacts.
Context `{SimExternals}.

Lemma to_int_small z : 0 <= z < 2 ^ 31 -> to_int z = z.
Proof.
  intros Hz. unfold to_int, two32.
  rewrite Z.mod_small by lia.
  destruct (Z.ltb_spec z (2 ^ 31)); lia.
Qed.

Lemma to_int_le z : 0 <= z -> to_int z <= z.
Proof.
  intros Hz. unfold to_int, two32.
  pose proof (Z.mod_le z (2 ^ 32) Hz ltac:(lia)).
  destruct (Z.ltb_spec (z mod 2 ^ 32) (2 ^ 31)); lia.
Qed.

Lemma to_unsigned_small z : 0 <= z < two32 -> to_unsigned z = z.
Proof. intros Hz. unfold to_unsigned. apply Z.mod_small. exact Hz. Qed.

Lemma to_unsigned_range z : 0 <= to_unsigned z < two32.
Proof. unfold to_unsigned, two32. apply Z.mod_pos_bound. lia. Qed.

(** The march stops at once when the point it starts from is outside the
    grid: no step is made, and the cell value is left as it was. *)
Lemma ray_march_outside fuel g thr max_ray_len Arx Ary rx ry x y hit fu len :
  0 <= size_x g -> 0 <= size_y g ->
  ~ inside g (rx, ry) ->
  exists x' y',
    ray_march fuel g thr max_ray_len Arx Ary rx ry x y hit fu len =
    Returns {| exit_x := x'; exit_y := y'; exit_hitCellOcc_int := hit;
               exit_firstUnknownCellDist := fu; exit_ray_len := len |}
    /\ (x' = x2idx g rx)
    /\ (y' = y \/ y' = y2idx g ry).
Proof.
  intros Hsx Hsy Hout. unfold inside in Hout. simpl in Hout.
  pose proof (to_int_le _ Hsx). pose proof (to_int_le _ Hsy).
  destruct fuel; simpl.
  all: destruct (Z.leb_spec 0 (x2idx g rx)); simpl; [|eauto 6].
  all: destruct (Z.leb_spec 0 (y2idx g ry)); simpl; [|eauto 6].
  all: destruct (Z.ltb_spec (x2idx g rx) (to_int (size_x g))); simpl; [|eauto 6].
  all: destruct (Z.ltb_spec (y2idx g ry) (to_int (size_y g))); simpl; [|eauto 6].
  all: exfalso; apply Hout; lia.
Qed.

(** The march over free, known cells: it makes every step up to
    [max_ray_len], never updates [firstUnknownCellDist], and stops on the
    cell of the last point. *)
Lemma ray_march_free g thr max_ray_len A_ :
  sizes_fit_int g -> max_ray_len < two32 ->
  forall fuel rx ry x y hit fu len,
    0 <= len <= max_ray_len ->
    (Z.to_nat (max_ray_len - len) <= fuel)%nat ->
    (forall k, (k <= Z.to_nat (max_ray_len - len))%nat ->
       free_known g thr (Nat.iter k (ray_step g A_) (rx, ry))) ->
    let p := Nat.iter (Z.to_nat (max_ray_len - len)) (ray_step g A_) (rx, ry) in
    ray_march fuel g (p2l thr) max_ray_len
      (fmul64 (cos A_) (double_of_float (resolution g)))
      (fmul64 (sin A_) (double_of_float (resolution g)))
      rx ry x y hit fu len =
    Returns {| exit_x := x2idx g (fst p); exit_y := y2idx g (snd p);
               exit_hitCellOcc_int := cell g (x2idx g (fst p)) (y2idx g (snd p));
               exit_firstUnknownCellDist := fu; exit_ray_len := max_ray_len |}.
Proof.
  intros (Hsx & Hsy) Hmax.
  assert (Hcond : forall rx ry, free_known g thr (rx, ry) ->
            (0 <=? x2idx g rx) = true /\ (0 <=? y2idx g ry) = true /\
            (x2idx g rx <? to_int (size_x g)) = true /\
            (y2idx g ry <? to_int (size_y g)) = true /\
            (p2l thr <? cell g (x2idx g rx) (y2idx g ry)) = true /\
            (Z.abs (cell g (x2idx g rx) (y2idx g ry)) <=? 1) = false).
  { intros rx ry ((Hx & Hy) & Hfree & Hknown). simpl in *.
    rewrite !to_int_small by lia.
    repeat split; try (apply Z.leb_le; lia); try (apply Z.ltb_lt; lia).
    apply Z.leb_gt. lia. }
  induction fuel as [|fuel IH]; intros rx ry x y hit fu len Hlen Hfuel Hfree p.
  - assert (len = max_ray_len) by lia. subst len.
    subst p. rewrite Z.sub_diag in *. simpl.
    destruct (Hcond rx ry (Hfree 0%nat ltac:(lia)))
      as (-> & -> & -> & -> & -> & _).
    simpl. rewrite Z.ltb_irrefl. reflexivity.
  - destruct (Hcond rx ry (Hfree 0%nat ltac:(lia)))
      as (Hc1 & Hc2 & Hc3 & Hc4 & Hc5 & Hc6).
    simpl. rewrite Hc1, Hc2, Hc3, Hc4, Hc5. simpl.
    destruct (Z.ltb_spec len max_ray_len) as [Hlt|Hge]; simpl.
    + rewrite Hc6.
      rewrite (to_unsigned_small (len + 1)) by lia.
      assert (Hn : Z.to_nat (max_ray_len - len)
                   = S (Z.to_nat (max_ray_len - (len + 1)))) by lia.
      specialize (IH (fadd64 rx (fmul64 (cos A_) (double_of_float (resolution g))))
                     (fadd64 ry (fmul64 (sin A_) (double_of_float (resolution g))))
                     (x2idx g rx) (y2idx g ry)
                     (cell g (x2idx g rx) (y2idx g ry)) fu (len + 1)).
      rewrite IH.
      * subst p. rewrite Hn. rewrite Nat.iter_succ_r. reflexivity.
      * lia.
      * lia.
      * intros k Hk. specialize (Hfree (S k) ltac:(lia)).
        rewrite Nat.iter_succ_r in Hfree. exact Hfree.
    + assert (len = max_ray_len) by lia. subst len.
      subst p. rewrite Z.sub_diag. reflexivity.
Qed.

(** The march always ends within its fuel: it makes at most
    [max_ray_len - ray_len] steps. *)
Lemma ray_march_returns g thr max_ray_len Arx Ary :
  max_ray_len < two32 ->
  forall fuel rx ry x y hit fu len,
    0 <= len ->
    (Z.to_nat (max_ray_len - len) <= fuel)%nat ->
    exists e,
      ray_march fuel g thr max_ray_len Arx Ary rx ry x y hit fu len = Returns e.
Proof.
  intros Hmax.
  induction fuel as [|fuel IH]; intros rx ry x y hit fu len Hlen Hfuel; simpl.
  all: destruct (0 <=? x2idx g rx); simpl; [|eauto].
  all: destruct (0 <=? y2idx g ry); simpl; [|eauto].
  all: destruct (x2idx g rx <? to_int (size_x g)); simpl; [|eauto].
  all: destruct (y2idx g ry <? to_int (size_y g)); simpl; [|eauto].
  all: destruct (thr <? cell g (x2idx g rx) (y2idx g ry)); simpl; [|eauto].
  all: destruct (Z.ltb_spec len max_ray_len); simpl; [|eauto].
  - lia.
  - apply IH.
    + pose proof (to_unsigned_range (len + 1)). lia.
    + rewrite to_unsigned_small by lia. lia.
Qed.

(** [simulateScanRay] returns, for every [unsigned int] [max_ray_len]. *)
Lemma simulateScanRay_returns g start_x start_y angle max_ray_len thr
    noiseStd angleNoiseStd rng :
  0 <= max_ray_len < two32 ->
  exists out_range out_valid rng',
    simulateScanRay g start_x start_y angle max_ray_len thr
      noiseStd angleNoiseStd rng = Returns (out_range, out_valid, rng').
Proof.
  intros Hmax. unfold simulateScanRay.
  destruct (if fgt angleNoiseStd fzero then _ else _) as [angle_noise rng1].
  edestruct (ray_march_returns g (p2l thr) max_ray_len) as [e ->];
    [lia | | | ]; [| | simpl].
  - apply Z.le_refl.
  - rewrite Z.sub_0_r. apply Nat.le_refl.
  - destruct (_ || _ || _); [eauto|].
    destruct (_ && _); [|eauto].
    destruct (drawGaussian1D_normalized rng1). eauto.
Qed.

End SimulatorFacts.

Section SimulatorClaims.
Context `{SimExternals}.

(** C10. When the start point of a ray maps to a cell index outside the
    grid, the ray march of [simulateScanRay] makes no step ([ray_len] is
    still 0 when the loop is left), and the call returns
    [out_valid = false] and [out_range = 0], whatever the direction, the
    range limit, the threshold and the noise parameters. *)
Theorem simulateScanRay_start_outside_grid
    g start_x start_y angle_direction max_ray_len threshold_free
    noiseStd angleNoiseStd rng :
  grid_ok g ->
  ~ inside g (start_x, start_y) ->
  (forall fuel Arx Ary, exists e,
     ray_march fuel g (p2l threshold_free) max_ray_len Arx Ary
       start_x start_y 0 (y2idx g start_y) 0 (to_unsigned (max_ray_len + 1)) 0
     = Returns e /\ exit_ray_len e = 0)
  /\ exists rng',
       simulateScanRay g start_x start_y angle_direction max_ray_len
         threshold_free noiseStd angleNoiseStd rng
       = Returns (fzero, false, rng').
Proof.
  intros (Hsx & Hsy & Hres) Hout.
  assert (Hmarch : forall fuel Arx Ary, exists x' y',
            ray_march fuel g (p2l threshold_free) max_ray_len Arx Ary
              start_x start_y 0 (y2idx g start_y) 0
              (to_unsigned (max_ray_len + 1)) 0
            = Returns {| exit_x := x'; exit_y := y';
                         exit_hitCellOcc_int := 0;
                         exit_firstUnknownCellDist := to_unsigned (max_ray_len + 1);
                         exit_ray_len := 0 |}).
  { intros fuel Arx Ary.
    destruct (ray_march_outside fuel g (p2l threshold_free) max_ray_len Arx Ary
                start_x start_y 0 (y2idx g start_y) 0
                (to_unsigned (max_ray_len + 1)) 0)
      as (x' & y' & Heq & _); [lia | lia | exact Hout |].
    eauto. }
  split.
  - intros fuel Arx Ary. destruct (Hmarch fuel Arx Ary) as (x' & y' & ->).
    eexists. split; reflexivity.
  - unfold simulateScanRay.
    destruct (if fgt angleNoiseStd fzero then _ else _) as [angle_noise rng1].
    match goal with
    | |- context [ray_march ?f g ?t ?m ?ax ?ay _ _ _ _ _ _ _] =>
        destruct (Hmarch f ax ay) as (x' & y' & ->)
    end.
    simpl.
    pose proof (to_unsigned_range (max_ray_len + 1)) as Hfu.
    destruct (Z.ltb_spec (to_unsigned (max_ray_len + 1)) 0); [lia|].
    exists rng1. f_equal. f_equal. f_equal.
    destruct (resolution g) as [| | |[] m e]; try discriminate.
    reflexivity.
Qed.

(** C8. A ray simulated without noise ([noiseStd = angleNoiseStd = 0])
    that stays inside the grid for [max_ray_len] steps, over cells that are
    all strictly freer than the free threshold and not unknown, is reported
    with range [max_ray_len * resolution] and the validity flag false. (It
    is enough that [angleNoiseStd] is not positive; [noiseStd] plays no
    part, as range noise is only added to valid rays.) *)
Theorem simulateScanRay_free_path
    g start_x start_y angle_direction max_ray_len threshold_free
    noiseStd angleNoiseStd rng :
  sizes_fit_int g ->
  0 <= max_ray_len < two32 ->
  fgt angleNoiseStd fzero = false ->
  (forall k, (k <= Z.to_nat max_ray_len)%nat ->
     free_known g threshold_free
       (ray_point g start_x start_y (fadd64 angle_direction fzero) k)) ->
  simulateScanRay g start_x start_y angle_direction max_ray_len
    threshold_free noiseStd angleNoiseStd rng
  = Returns (fmul32 (float_of_Z max_ray_len) (resolution g), false, rng).
Proof.
  intros Hg Hmax Hangle Hfree. unfold simulateScanRay.
  rewrite Hangle.
  rewrite (ray_march_free g threshold_free max_ray_len
             (fadd64 angle_direction fzero) Hg ltac:(lia)).
  2: lia.
  2: rewrite Z.sub_0_r; apply Nat.le_refl.
  2: { rewrite Z.sub_0_r. exact Hfree. }
  rewrite Z.sub_0_r.
  destruct (Hfree (Z.to_nat max_ray_len) (Nat.le_refl _))
    as ((Hx & Hy) & _ & Hknown).
  fold (ray_point g start_x start_y (fadd64 angle_direction fzero)
          (Z.to_nat max_ray_len)).
  set (p := ray_point g start_x start_y (fadd64 angle_direction fzero)
              (Z.to_nat max_ray_len)) in *.
  destruct Hg as (Hsx & Hsy).
  cbn [bind mbind outcome_bind exit_x exit_y exit_hitCellOcc_int
       exit_firstUnknownCellDist exit_ray_len].
  rewrite !to_unsigned_small by (unfold two32; lia).
  destruct (Z.leb_spec (Z.abs (cell g (x2idx g (fst p)) (y2idx g (snd p)))) 1);
    [lia|].
  destruct (Z.leb_spec (size_x g) (x2idx g (fst p))); [lia|].
  destruct (Z.leb_spec (size_y g) (y2idx g (snd p))); [lia|].
  cbn [orb]. rewrite Z.ltb_irrefl. rewrite andb_false_r. reflexivity.
Qed.

(** A march that starts at the range limit makes no step. *)
Lemma ray_march_at_limit fuel g thr max_ray_len Arx Ary rx ry x y hit fu :
  exists e,
    ray_march fuel g thr max_ray_len Arx Ary rx ry x y hit fu max_ray_len
    = Returns e
    /\ exit_ray_len e = max_ray_len
    /\ exit_firstUnknownCellDist e = fu.
Proof.
  destruct fuel; simpl; rewrite Z.ltb_irrefl; simpl.
  all: repeat match goal with
         | |- context [if negb ?c then _ else _] => destruct c; simpl
         end.
  all: eexists; split; [reflexivity | split; reflexivity].
Qed.

(** The same outcome when the last point reached is not constrained, as
    long as [max_ray_len + 1] does not wrap around in [unsigned int]: the
    march is then left because the range limit is reached or because the
    last point is outside the grid, occupied or unknown. *)
Lemma simulateScanRay_free_path_open_end
    g start_x start_y angle_direction max_ray_len threshold_free
    noiseStd angleNoiseStd rng :
  sizes_fit_int g ->
  0 <= max_ray_len < two32 - 1 ->
  fgt angleNoiseStd fzero = false ->
  (forall k, (k < Z.to_nat max_ray_len)%nat ->
     free_known g threshold_free
       (ray_point g start_x start_y (fadd64 angle_direction fzero) k)) ->
  simulateScanRay g start_x start_y angle_direction max_ray_len
    threshold_free noiseStd angleNoiseStd rng
  = Returns (fmul32 (float_of_Z max_ray_len) (resolution g), false, rng).
Proof.
  intros Hg Hmax Hangle Hfree. unfold simulateScanRay.
  rewrite Hangle.
  set (A_ := fadd64 angle_direction fzero) in *.
  set (Arx := fmul64 (cos A_) (double_of_float (resolution g))).
  set (Ary := fmul64 (sin A_) (double_of_float (resolution g))).
  assert (Hgen : forall fuel rx ry x y hit len,
            0 <= len <= max_ray_len ->
            (Z.to_nat (max_ray_len - len) <= fuel)%nat ->
            (forall k, (k < Z.to_nat (max_ray_len - len))%nat ->
               free_known g threshold_free (Nat.iter k (ray_step g A_) (rx, ry))) ->
            exists e,
              ray_march fuel g (p2l threshold_free) max_ray_len Arx Ary
                rx ry x y hit (to_unsigned (max_ray_len + 1)) len = Returns e
              /\ exit_ray_len e = max_ray_len
              /\ exit_firstUnknownCellDist e = to_unsigned (max_ray_len + 1)).
  { destruct Hg as (Hsx & Hsy).
    induction fuel as [|fuel IH]; intros rx ry x y hit len Hlen Hfuel Hk.
    - assert (len = max_ray_len) by lia. subst len. apply ray_march_at_limit.
    - destruct (Z.eq_dec len max_ray_len) as [->|Hne].
      + apply ray_march_at_limit.
      + destruct (Hk 0%nat ltac:(lia)) as ((Hx & Hy) & Hf & Hkn). simpl in *.
        rewrite !to_int_small by lia.
        destruct (Z.leb_spec 0 (x2idx g rx)); [|lia].
        destruct (Z.leb_spec 0 (y2idx g ry)); [|lia].
        destruct (Z.ltb_spec (x2idx g rx) (size_x g)); [|lia].
        destruct (Z.ltb_spec (y2idx g ry) (size_y g)); [|lia].
        destruct (Z.ltb_spec (p2l threshold_free)
                    (cell g (x2idx g rx) (y2idx g ry))); [|lia].
        destruct (Z.ltb_spec len max_ray_len); [|lia].
        destruct (Z.leb_spec (Z.abs (cell g (x2idx g rx) (y2idx g ry))) 1); [lia|].
        simpl. rewrite (to_unsigned_small (len + 1)) by (unfold two32 in *; lia).
        apply IH; [lia | lia |].
        intros k Hlt. specialize (Hk (S k) ltac:(lia)).
        rewrite Nat.iter_succ_r in Hk. exact Hk. }
  destruct (Hgen (Z.to_nat max_ray_len) start_x start_y 0 (y2idx g start_y) 0 0)
    as (e & -> & Hlen & Hfu).
  - lia.
  - rewrite Z.sub_0_r. apply Nat.le_refl.
  - rewrite Z.sub_0_r. exact Hfree.
  - cbn [bind mbind outcome_bind]. rewrite Hlen, Hfu.
    rewrite (to_unsigned_small (max_ray_len + 1)) by (unfold two32 in *; lia).
    destruct (Z.ltb_spec (max_ray_len + 1) max_ray_len); [lia|].
    rewrite Z.ltb_irrefl, andb_false_r.
    destruct (_ || _ || _); reflexivity.
Qed.

(** The ray march never throws. *)
Lemma ray_march_not_thrown fuel g thr max_ray_len Arx Ary :
  forall rx ry x y hit fu len msg,
    ray_march fuel g thr max_ray_len Arx Ary rx ry x y hit fu len <> Throws msg.
Proof.
  induction fuel as [|fuel IH]; intros rx ry x y hit fu len msg; simpl.
  all: repeat match goal with
         | |- context [if negb ?c then _ else _] => destruct c; simpl
         end; try discriminate.
  apply IH.
Qed.

(** [simulateScanRay] and the loop of [laserScanSimulator] never throw. *)
Lemma simulateScanRay_not_thrown g start_x start_y angle max_ray_len thr
    noiseStd angleNoiseStd rng msg :
  simulateScanRay g start_x start_y angle max_ray_len thr noiseStd
    angleNoiseStd rng <> Throws msg.
Proof.
  unfold simulateScanRay.
  destruct (if fgt _ fzero then _ else _) as [angle_noise rng1].
  match goal with
  | |- context [ray_march ?f ?g ?t ?m ?ax ?ay ?rx ?ry ?x ?y ?h ?fu ?l] =>
      pose proof (ray_march_not_thrown f g t m ax ay rx ry x y h fu l) as Hm;
      destruct (ray_march f g t m ax ay rx ry x y h fu l) as [e| |];
      [ | exfalso; eapply Hm; reflexivity | discriminate ]
  end.
  cbn [mbind outcome_bind bind].
  destruct (_ || _ || _); [discriminate|].
  destruct (_ && _); [|discriminate].
  destruct (drawGaussian1D_normalized rng1). discriminate.
Qed.

Lemma laser_rays_not_thrown g pose N decimation max_ray_len thr noise anoise AA :
  forall fuel i A scan valid rng msg,
    laser_rays fuel g pose N decimation max_ray_len thr noise anoise AA
      i A scan valid rng <> Throws msg.
Proof.
  induction fuel as [|fuel IH]; intros i A sc vr rng msg; simpl.
  - destruct (i <? N); simpl; discriminate.
  - destruct (i <? N); simpl; [|discriminate].
    pose proof (simulateScanRay_not_thrown g (CPose2D.x pose) (CPose2D.y pose)
                  A max_ray_len thr noise anoise rng) as Hs.
    destruct (simulateScanRay _ _ _ _ _ _ _ _ _) as [[[r v] rng1]| |];
      cbn [mbind outcome_bind bind].
    + apply IH.
    + exfalso. eapply Hs. reflexivity.
    + discriminate.
Qed.

(** The loop of [laserScanSimulator] returns when its counter cannot wrap
    around: it makes at most [N] calls of [simulateScanRay]. *)
Lemma laser_rays_returns g pose N decimation max_ray_len thr noise anoise AA :
  1 <= decimation -> N + decimation <= two64 ->
  0 <= max_ray_len < two32 ->
  forall fuel i A scan valid rng,
    0 <= i ->
    (Z.to_nat (N - i) <= fuel)%nat ->
    exists scan' valid' rng',
      laser_rays fuel g pose N decimation max_ray_len thr noise anoise AA
        i A scan valid rng = Returns (scan', valid', rng').
Proof.
  intros Hd Hwrap Hmax.
  induction fuel as [|fuel IH]; intros i A scan valid rng Hi Hfuel; simpl.
  - destruct (Z.ltb_spec i N); simpl; [lia | eauto].
  - destruct (Z.ltb_spec i N); simpl; [|eauto].
    destruct (simulateScanRay_returns g (CPose2D.x pose) (CPose2D.y pose) A
                max_ray_len thr noise anoise rng Hmax)
      as (r & v & rng1 & ->).
    cbn [mbind outcome_bind bind].
    assert (Hsz : to_size_t (i + decimation) = i + decimation).
    { unfold to_size_t. apply Z.mod_small. lia. }
    rewrite Hsz. apply IH; lia.
Qed.

(** The inner loop of [sonarSimulator] returns. *)
Lemma cone_rays_returns g pose max_ray_len thr noise anoise Adir :
  0 <= max_ray_len < two32 ->
  forall n i direction min_detected_obs rng,
    exists min' rng',
      cone_rays n g pose max_ray_len thr noise anoise Adir
        i direction min_detected_obs rng = Returns (min', rng').
Proof.
  intros Hmax.
  induction n as [|n IH]; intros i direction m rng; simpl; [eauto|].
  destruct (simulateScanRay_returns g (CPose2D.x pose) (CPose2D.y pose)
              direction max_ray_len thr noise anoise rng Hmax)
    as (r & v & rng1 & ->).
  cbn [mbind outcome_bind bind]. apply IH.
Qed.

(** The inner loop of [sonarSimulator] folds [keep_shortest] over the
    outcomes of its rays. *)
Lemma cone_rays_shortest g pose max_ray_len thr noise anoise Adir :
  forall n i direction min_detected_obs rng rays,
    cone_ray_results n g pose max_ray_len thr noise anoise Adir direction rng
    = Returns rays ->
    exists rng',
      cone_rays n g pose max_ray_len thr noise anoise Adir
        i direction min_detected_obs rng
      = Returns (shortest_from i rays min_detected_obs, rng').
Proof.
  induction n as [|n IH]; intros i direction m rng rays; simpl.
  - intros [= <-]. eauto.
  - destruct (simulateScanRay _ _ _ _ _ _ _ _ _) as [[[r v] rng1]| |];
      cbn [mbind outcome_bind bind]; try discriminate.
    destruct (cone_ray_results n _ _ _ _ _ _ _ _ _) as [rest| |] eqn:Hrest;
      cbn [mbind outcome_bind bind]; try discriminate.
    intros [= <-]. simpl. apply IH. exact Hrest.
Qed.

(** Once the first ray of a cone is invalid, 0 is kept whatever rays
    follow, as long as they report no negative range. *)
Lemma shortest_from_after_first rays :
  forall i, 0 < i ->
    (forall r v, In (r, v) rays -> flt r fzero = false) ->
    shortest_from i rays fzero = fzero.
Proof.
  induction rays as [|[r v] rest IH]; intros i Hi Hpos; simpl; [reflexivity|].
  unfold keep_shortest.
  rewrite (Hpos r v) by (left; reflexivity).
  destruct (Z.eqb_spec i 0); [lia|].
  rewrite andb_false_r. apply IH; [lia|].
  intros r' v' Hin. apply (Hpos r' v'). right. exact Hin.
Qed.

Lemma shortest_from_first_invalid r rest :
  (forall r' v', In (r', v') rest -> flt r' fzero = false) ->
  shortest_from 0 ((r, false) :: rest) fzero = fzero.
Proof.
  intros Hpos. simpl. unfold keep_shortest at 1. simpl.
  apply shortest_from_after_first; [lia | exact Hpos].
Qed.

(** So a cone whose first ray is invalid is recorded with a distance of 0,
    whatever the rays after it return. *)
Lemma cone_rays_first_invalid g pose max_ray_len thr noise anoise Adir
    n direction rng r rest :
  cone_ray_results n g pose max_ray_len thr noise anoise Adir direction rng
  = Returns ((r, false) :: rest) ->
  (forall r' v', In (r', v') rest -> flt r' fzero = false) ->
  exists rng',
    cone_rays n g pose max_ray_len thr noise anoise Adir 0 direction fzero rng
    = Returns (fzero, rng').
Proof.
  intros Hrays Hpos.
  destruct (cone_rays_shortest g pose max_ray_len thr noise anoise Adir
              n 0 direction fzero rng _ Hrays) as (rng' & ->).
  rewrite shortest_from_first_invalid by exact Hpos. eauto.
Qed.

(** C9, as the code has it. [laserScanSimulator] throws for every call with
    [N < 2] or [decimation < 1], before anything is written, and its checks
    pass for every other [N] and [decimation]: it does not throw, and it
    returns when its loop counter cannot wrap around. [sonarSimulator]
    checks the cone aperture once per transducer, inside its loop: it
    throws when the aperture is not strictly positive and the observation
    has a transducer, returns the observation as it is when there is none,
    and returns when the aperture is strictly positive. *)
Theorem simulators_check_their_arguments
    (g : COccupancyGridMap2D) (robotPose : CPose2D.t)
    (threshold noiseStd angleNoiseStd : float) (rng : RNG) :
  (forall inout_Scan N decimation,
     N < 2 \/ decimation < 1 ->
     exists msg,
       laserScanSimulator g inout_Scan robotPose threshold N noiseStd
         decimation angleNoiseStd rng = Throws msg)
  /\ (forall inout_Scan N decimation,
        2 <= N -> 1 <= decimation ->
        (forall msg,
           laserScanSimulator g inout_Scan robotPose threshold N noiseStd
             decimation angleNoiseStd rng <> Throws msg)
        /\ (N + decimation <= two64 ->
            exists out rng',
              laserScanSimulator g inout_Scan robotPose threshold N noiseStd
                decimation angleNoiseStd rng = Returns (out, rng')))
  /\ (forall inout_observation,
        fgt (sensorConeApperture inout_observation) fzero = false ->
        sensedData inout_observation <> [] ->
        exists msg,
          sonarSimulator g inout_observation robotPose threshold noiseStd
            angleNoiseStd rng = Throws msg)
  /\ (forall inout_observation,
        sensedData inout_observation = [] ->
        sonarSimulator g inout_observation robotPose threshold noiseStd
          angleNoiseStd rng = Returns (inout_observation, rng))
  /\ (forall inout_observation,
        fgt (sensorConeApperture inout_observation) fzero = true ->
        exists out rng',
          sonarSimulator g inout_observation robotPose threshold noiseStd
            angleNoiseStd rng = Returns (out, rng')).
Proof.
  repeat split.
  - intros inout_Scan N decimation Hbad. unfold laserScanSimulator.
    destruct (Z.leb_spec 1 decimation); simpl.
    + destruct (Z.leb_spec 2 N); simpl; [lia | eauto].
    + eauto.
  - intros msg. unfold laserScanSimulator.
    destruct (Z.leb_spec 1 decimation); [|lia].
    destruct (Z.leb_spec 2 N); [|lia].
    cbn [ASSERT_ mbind outcome_bind bind].
    match goal with
    | |- context [laser_rays ?f ?g ?p ?n ?d ?m ?t ?ns ?an ?aa ?i ?a ?sc ?vr ?r] =>
        destruct (laser_rays f g p n d m t ns an aa i a sc vr r)
          as [[[sc' vr'] rng']| |] eqn:Hl
    end; cbn [mbind outcome_bind bind]; try discriminate.
    exfalso. eapply laser_rays_not_thrown. exact Hl.
  - intros Hwrap. unfold laserScanSimulator.
    destruct (Z.leb_spec 1 decimation); [|lia].
    destruct (Z.leb_spec 2 N); [|lia].
    cbn [ASSERT_ mbind outcome_bind bind].
    match goal with
    | |- context [laser_rays ?f ?g ?p ?n ?d ?m ?t ?ns ?an ?aa ?i ?a ?sc ?vr ?r] =>
        edestruct (fun Hd Hw Hm =>
                     laser_rays_returns g p n d m t ns an aa Hd Hw Hm f i a sc vr r)
          as (sc' & vr' & rng' & ->)
    end; [lia | lia | apply to_unsigned_range | lia | | ].
    + rewrite Z.sub_0_r. apply Nat.le_refl.
    + cbn [mbind outcome_bind bind]. eauto.
  - intros obs Hcone Hne. unfold sonarSimulator.
    destruct (sensedData obs) as [|m ms]; [congruence|].
    simpl. unfold sonar_cone. rewrite Hcone. simpl. eauto.
  - intros obs Hnil. unfold sonarSimulator. rewrite Hnil. simpl.
    destruct obs; simpl in *; subst; reflexivity.
  - intros obs Hcone. unfold sonarSimulator.
    set (max_ray_len := to_unsigned _).
    assert (Hmax : 0 <= max_ray_len < two32) by apply to_unsigned_range.
    generalize (fsub32 fone threshold). intros free_thres.
    assert (Hall : forall ms rng0, exists ms' rng',
              sonar_cones g robotPose (sensorConeApperture obs) max_ray_len
                free_thres (double_of_float noiseStd)
                (double_of_float angleNoiseStd) ms rng0 = Returns (ms', rng')).
    { induction ms as [|m ms IH]; intros rng0; simpl; [eauto|].
      unfold sonar_cone. rewrite Hcone. cbn [ASSERT_ mbind outcome_bind bind].
      match goal with
      | |- context [cone_rays ?n ?g ?p ?m ?t ?ns ?an ?ad ?i ?d ?mn ?r] =>
          destruct (cone_rays_returns g p m t ns an ad Hmax n i d mn r)
            as (min' & rng1 & ->)
      end.
      cbn [mbind outcome_bind bind].
      destruct (IH rng1) as (ms' & rng2 & ->).
      cbn [mbind outcome_bind bind]. eauto. }
    destruct (Hall (sensedData obs) rng) as (ms' & rng' & ->).
    cbn [mbind outcome_bind bind]. eauto.
Qed.

End SimulatorClaims.

(** ** The simulator on concrete grids *)

(** The free strip of the specification's scenario S5, and the walled strip
    of S6: a ray along the strip reports 5.0 and invalid on the first, 3.0
    and valid on the second. *)
Example ray_through_free_strip :
  simulateScanRay (H := Sample.externals) (Sample.strip 100 [])
    fzero fzero fzero 50 fhalf fzero fzero []
  = Returns (Sample.dec32 5 1, false, []).
Proof. vm_compute. reflexivity. Qed.

Example ray_hits_wall :
  simulateScanRay (H := Sample.externals) (Sample.strip 100 [30%nat])
    fzero fzero fzero 50 fhalf fzero fzero []
  = Returns (Sample.dec32 3 1, true, []).
Proof. vm_compute. reflexivity. Qed.

(** A ray started one metre behind a strip of ten cells. *)
Lemma simulateScanRay_start_outside_grid_witness :
  exists rng',
    simulateScanRay (H := Sample.externals) (Sample.strip 10 [])
      (Sample.dec64 (-1) 1) fzero fzero 5 fhalf fzero fzero []
    = Returns (fzero, false, rng').
Proof.
  apply (proj2 (simulateScanRay_start_outside_grid (H := Sample.externals)
                  (Sample.strip 10 []) (Sample.dec64 (-1) 1) fzero fzero 5
                  fhalf fzero fzero []
    ltac:(unfold grid_ok; simpl; repeat split; try lia; reflexivity)
    ltac:(unfold inside;
          change (x2idx (SimExternals := Sample.externals) (Sample.strip 10 [])
                    (fst (Sample.dec64 (-1) 1, fzero))) with (-9); lia))).
Defined.

(** A ray of five steps along a free strip of ten cells. *)
Lemma simulateScanRay_free_path_witness :
  simulateScanRay (H := Sample.externals) (Sample.strip 10 [])
    fzero fzero fzero 5 fhalf fzero fzero []
  = Returns (fmul32 (float_of_Z 5) (resolution (Sample.strip 10 [])), false, []).
Proof.
  apply (simulateScanRay_free_path (H := Sample.externals)
           (Sample.strip 10 []) fzero fzero fzero 5 fhalf fzero fzero []).
  - unfold sizes_fit_int; simpl; lia.
  - unfold two32. lia.
  - reflexivity.
  - intros k Hk.
    assert (Hcases : (k = 0 \/ k = 1 \/ k = 2 \/ k = 3 \/ k = 4 \/ k = 5)%nat)
      by lia.
    destruct Hcases as [->|[->|[->|[->|[->| ->]]]]];
      vm_compute; repeat split; try reflexivity; intro; discriminate.
Defined.

(** C9 as stated fails: a sonar observation with no transducer and a cone
    aperture of 0 is accepted. [sonarSimulator] returns it unchanged, for
    its [ASSERT_] stands inside the loop over the transducers. *)
Lemma sonarSimulator_accepts_zero_aperture :
  fgt (sensorConeApperture (Sample.sonar fzero [])) fzero = false
  /\ sonarSimulator (H := Sample.externals) (Sample.strip 10 [])
       (Sample.sonar fzero []) Sample.robot_at_origin fhalf fzero fzero []
     = Returns (Sample.sonar fzero [], []).
Proof. split; vm_compute; reflexivity. Qed.

(** The checks at work: one ray, a decimation of 0 and a sonar with a
    transducer and no aperture are refused; three rays with a decimation of
    1, and a cone of 0.2 rad, are accepted. *)
Lemma simulators_check_their_arguments_witness :
  (exists msg,
     laserScanSimulator (H := Sample.externals) (Sample.strip 10 [])
       Sample.empty_scan Sample.robot_at_origin fhalf 1 fzero 1 fzero []
     = Throws msg)
  /\ (exists msg,
        laserScanSimulator (H := Sample.externals) (Sample.strip 10 [])
          Sample.empty_scan Sample.robot_at_origin fhalf 3 fzero 0 fzero []
        = Throws msg)
  /\ (exists out rng',
        laserScanSimulator (H := Sample.externals) (Sample.strip 10 [])
          Sample.empty_scan Sample.robot_at_origin fhalf 3 fzero 1 fzero []
        = Returns (out, rng'))
  /\ (exists msg,
        sonarSimulator (H := Sample.externals) (Sample.strip 10 [])
          (Sample.sonar fzero [Sample.transducer fone]) Sample.robot_at_origin
          fhalf fzero fzero []
        = Throws msg)
  /\ (exists out rng',
        sonarSimulator (H := Sample.externals) (Sample.strip 10 [])
          (Sample.sonar (Sample.dec32 2 10) [Sample.transducer fone])
          Sample.robot_at_origin fhalf fzero fzero []
        = Returns (out, rng')).
Proof.
  destruct (simulators_check_their_arguments (H := Sample.externals)
              (Sample.strip 10 []) Sample.robot_at_origin fhalf fzero fzero [])
    as (Hthrow & Hpass & Hsonar & _ & Hcone).
  split; [|split; [|split; [|split]]].
  - apply Hthrow. left. lia.
  - apply Hthrow. right. lia.
  - apply (Hpass Sample.empty_scan 3 1); unfold two64; lia.
  - apply Hsonar; [reflexivity | discriminate].
  - apply Hcone. reflexivity.
Defined.

(** C3 on a concrete grid. The strip has a wall at column 20; a sonar at
    the origin looks along the strip with a cone of 0.2 rad, which the loop
    fans into 12 rays. The first four rays leave the strip sideways and are
    invalid; rays 4 to 8 reach the wall and are valid, with ranges 2.1 and
    2.0 (8808039 * 2^-22 and 8388608 * 2^-22). The recorded
    [sensedDistance] is 0, not the shortest valid range 2.0: the first ray
    is invalid, so [min_detected_obs] stays at its initial 0, which no later
    range is below. *)
Theorem sonarSimulator_misses_valid_rays :
  let g := Sample.strip 100 [20%nat] in
  let cone := Sample.dec32 2 10 in
  let pose :=
    sensor_on_robot (SimExternals := Sample.externals)
      Sample.robot_at_origin CPose3D.origin in
  cone_nRays (H := Sample.externals) cone = 12
  /\ cone_ray_results (H := Sample.externals) 12 g pose 50
       (fsub32 fone fhalf) fzero fzero
       (cone_Adir (H := Sample.externals) cone)
       (cone_direction pose cone) []
     = Returns
         [ (S754_finite false 9227469 (-23), false);
           (S754_finite false 10905191 (-23), false);
           (S754_finite false 13421773 (-23), false);
           (S754_finite false 8808039 (-22), false);
           (S754_finite false 8808039 (-22), true);
           (S754_finite false 8808039 (-22), true);
           (S754_finite false 8388608 (-22), true);
           (S754_finite false 8808039 (-22), true);
           (S754_finite false 8808039 (-22), true);
           (S754_finite false 8808039 (-22), false);
           (S754_finite false 13421773 (-23), false);
           (S754_finite false 10905191 (-23), false) ]
  /\ sonarSimulator (H := Sample.externals) g
       (Sample.sonar cone [Sample.transducer fone]) Sample.robot_at_origin
       fhalf fzero fzero []
     = Returns (Sample.sonar cone [Sample.transducer fzero], []).
Proof. vm_compute. repeat split; reflexivity. Qed.

(** * Properties of the edge-registration decider *)

Section DeciderFacts.
Context `{ERDExternals}.

(** ** Counters *)

Lemma counter_increment_eq key m :
  counter (increment key m) key = counter m key + 1.
Proof. unfold counter, increment. rewrite lookup_insert_eq. reflexivity. Qed.

Lemma counter_increment_ne key key' m :
  key <> key' -> counter (increment key m) key' = counter m key'.
Proof.
  intros Hne. unfold counter, increment.
  rewrite lookup_insert_ne by exact Hne. reflexivity.
Qed.

(** ** One call, statement by statement *)

Lemma updateDeciderState_unfold params d g observations observation :
  updateDeciderState params d g observations observation =
  let d1 := before_registration d g observations observation in
  let st := register_edges params (new_node_detected d g) d1 g in
  ((if m_checked_for_usuable_dataset (fst st) then fst st
    else checkIfInvalidDataset observation (fst st)), snd st).
Proof.
  unfold updateDeciderState, before_registration, new_node_detected,
    detect_new_node.
  destruct (m_last_total_num_of_nodes d <? nodeCount g); cbn [snd fst];
    destruct (register_edges _ _ _ _); reflexivity.
Qed.

(** The ingestion of the scans touches neither the counters, nor the
    loop-closure flag, nor the node count the decider remembers; it sets the
    mode to the kind of the single observation when that is a range scan. *)
Lemma ingest_scans_fields new g observations observation d :
  let d' := ingest_scans new g observations observation d in
  m_edge_types_to_nums d' = m_edge_types_to_nums d
  /\ m_just_inserted_loop_closure d' = m_just_inserted_loop_closure d
  /\ m_last_total_num_of_nodes d' = m_last_total_num_of_nodes d
  /\ m_is_using_3DScan d' =
       match observation with
       | Some (Obs3DRangeScan _) => true
       | Some (Obs2DRangeScan _) => false
       | _ => m_is_using_3DScan d
       end.
Proof.
  unfold ingest_scans.
  destruct observation as [[s|s|]|]; destruct new; cbn;
    repeat case_match; cbn; repeat split; reflexivity.
Qed.

Lemma detect_new_node_fields d g :
  let d' := snd (detect_new_node d g) in
  m_edge_types_to_nums d' = m_edge_types_to_nums d
  /\ m_just_inserted_loop_closure d' = m_just_inserted_loop_closure d
  /\ m_is_using_3DScan d' = m_is_using_3DScan d
  /\ m_last_total_num_of_nodes d' =
       Z.max (m_last_total_num_of_nodes d) (nodeCount g).
Proof.
  unfold detect_new_node.
  destruct (Z.ltb_spec (m_last_total_num_of_nodes d) (nodeCount g)); cbn;
    repeat split; try reflexivity; lia.
Qed.

Lemma before_registration_fields d g observations observation :
  let d' := before_registration d g observations observation in
  m_edge_types_to_nums d' = m_edge_types_to_nums d
  /\ m_just_inserted_loop_closure d' = m_just_inserted_loop_closure d
  /\ m_last_total_num_of_nodes d' =
       Z.max (m_last_total_num_of_nodes d) (nodeCount g)
  /\ m_is_using_3DScan d' =
       match observation with
       | Some (Obs3DRangeScan _) => true
       | Some (Obs2DRangeScan _) => false
       | _ => m_is_using_3DScan d
       end.
Proof.
  unfold before_registration.
  destruct (ingest_scans_fields (new_node_detected d g) g observations
              observation (snd (detect_new_node d g))) as (H1 & H2 & H3 & H4).
  destruct (detect_new_node_fields d g) as (G1 & G2 & G3 & G4).
  cbv zeta in *. rewrite H1, H2, H3, H4, G1, G2, G3, G4.
  repeat split; reflexivity.
Qed.

Lemma checkIfInvalidDataset_fields observation d :
  let d' := if m_checked_for_usuable_dataset d then d
            else checkIfInvalidDataset observation d in
  m_edge_types_to_nums d' = m_edge_types_to_nums d
  /\ m_just_inserted_loop_closure d' = m_just_inserted_loop_closure d
  /\ m_last_total_num_of_nodes d' = m_last_total_num_of_nodes d
  /\ m_is_using_3DScan d' = m_is_using_3DScan d.
Proof.
  unfold checkIfInvalidDataset.
  destruct (m_checked_for_usuable_dataset d); cbn;
    repeat case_match; cbn; repeat split; reflexivity.
Qed.

(** ** Registering edges *)

(** What registering one edge leaves alone. *)
Lemma register_edge_fields params label d g e :
  let d' := fst (register_edge params label (d, g) e) in
  m_nodes_to_laser_scans2D d' = m_nodes_to_laser_scans2D d
  /\ m_nodes_to_laser_scans3D d' = m_nodes_to_laser_scans3D d
  /\ m_last_total_num_of_nodes d' = m_last_total_num_of_nodes d
  /\ m_is_using_3DScan d' = m_is_using_3DScan d.
Proof.
  unfold register_edge. cbn. case_match; cbn; repeat split; reflexivity.
Qed.

Lemma register_edge_graph params label d g e :
  snd (register_edge params label (d, g) e)
  = insertEdge g (fst e) (to_size_t (nodeCount g - 1)) (snd e).
Proof. unfold register_edge. cbn. case_match; reflexivity. Qed.

(** The counters after one edge: the counter of the mode grows by one, and
    the loop-closure counter by one or not at all. *)
Lemma register_edge_counts params label d g e :
  label <> "LC" ->
  let d' := fst (register_edge params label (d, g) e) in
  let lc := if LC_min_nodeid_diff params
               <? id_gap (nodeCount (snd (register_edge params label (d, g) e)))
                    (fst e)
            then 1 else 0 in
  counter (m_edge_types_to_nums d') label
    = counter (m_edge_types_to_nums d) label + 1
  /\ counter (m_edge_types_to_nums d') "LC"
     = counter (m_edge_types_to_nums d) "LC" + lc
  /\ (forall key, key <> label -> key <> "LC" ->
        counter (m_edge_types_to_nums d') key
        = counter (m_edge_types_to_nums d) key)
  /\ m_just_inserted_loop_closure d'
     = (m_just_inserted_loop_closure d || (0 <? lc)).
Proof.
  intros Hlabel. rewrite register_edge_graph.
  unfold register_edge, registerNewEdge. cbn.
  destruct (LC_min_nodeid_diff params <? _); cbn.
  - rewrite counter_increment_ne by congruence.
    rewrite !counter_increment_eq.
    rewrite counter_increment_ne by exact Hlabel.
    repeat split; try reflexivity.
    + intros key Hk1 Hk2. rewrite !counter_increment_ne by congruence.
      reflexivity.
    + rewrite orb_true_r. reflexivity.
  - rewrite counter_increment_eq.
    rewrite counter_increment_ne by exact Hlabel.
    repeat split; try lia.
    + intros key Hk1 Hk2. rewrite !counter_increment_ne by congruence.
      reflexivity.
    + rewrite orb_false_r. reflexivity.
Qed.

(** Registering a list of edges leaves the registries, the remembered node
    count and the mode alone. *)
Lemma register_edge_list_fields params label es :
  forall d g,
    let d' := fst (foldl (register_edge params label) (d, g) es) in
    m_nodes_to_laser_scans2D d' = m_nodes_to_laser_scans2D d
    /\ m_nodes_to_laser_scans3D d' = m_nodes_to_laser_scans3D d
    /\ m_last_total_num_of_nodes d' = m_last_total_num_of_nodes d
    /\ m_is_using_3DScan d' = m_is_using_3DScan d.
Proof.
  induction es as [|e es IH]; intros d g; cbn [foldl].
  - repeat split; reflexivity.
  - pose proof (register_edge_fields params label d g e) as F.
    destruct (register_edge params label (d, g) e) as [d1 g1].
    cbn [fst] in F. destruct F as (F1 & F2 & F3 & F4).
    destruct (IH d1 g1) as (I1 & I2 & I3 & I4).
    cbv zeta. rewrite I1, I2, I3, I4. auto.
Qed.

(** The counters after a list of edges: the counter of the mode grows by
    the number of edges, the loop-closure counter by no more, and the other
    counter not at all. *)
Lemma register_edge_list_counts params label es :
  label <> "LC" ->
  forall d g,
    let d' := fst (foldl (register_edge params label) (d, g) es) in
    exists lc,
      0 <= lc <= Z.of_nat (length es)
      /\ counter (m_edge_types_to_nums d') label
         = counter (m_edge_types_to_nums d) label + Z.of_nat (length es)
      /\ counter (m_edge_types_to_nums d') "LC"
         = counter (m_edge_types_to_nums d) "LC" + lc
      /\ (forall key, key <> label -> key <> "LC" ->
            counter (m_edge_types_to_nums d') key
            = counter (m_edge_types_to_nums d) key).
Proof.
  intros Hlabel.
  induction es as [|e es IH]; intros d g; cbn [foldl].
  - exists 0. cbn. repeat split; try lia. 
  - pose proof (register_edge_counts params label d g e Hlabel) as F.
    destruct (register_edge params label (d, g) e) as [d1 g1].
    cbn [fst snd] in F. destruct F as (F1 & F2 & F3 & _).
    destruct (IH d1 g1) as (lc & Hlc & I1 & I2 & I3).
    cbv zeta.
    exists ((if LC_min_nodeid_diff params <? id_gap (nodeCount g1) (fst e)
             then 1 else 0) + lc).
    rewrite I1, I2, F1, F2. cbn [length].
    repeat split; try (destruct (LC_min_nodeid_diff params <? _); lia).
    intros key Hk1 Hk2. rewrite I3, F3 by assumption. reflexivity.
Qed.

(** A registration loop registers exactly the candidates that pass, in the
    order of the loop. *)
Lemma check_body_passing {Scan : Type}
    (reg : CICPGoodnessERD_t -> gmap Z Scan)
    (icp : Scan -> Scan -> constraint_t * double) label params curr :
  (forall d g e, reg (fst (register_edge params label (d, g) e)) = reg d) ->
  forall nodes_set d g,
    foldl (check_body reg icp label params curr) (d, g) nodes_set
    = foldl (register_edge params label) (d, g)
        (passing params (reg d) icp curr nodes_set).
Proof.
  intros Hreg.
  induction nodes_set as [|node nodes_set IH]; intros d g; [reflexivity|].
  cbn [foldl]. unfold passing. cbn [omap list_omap]. fold (passing params (reg d) icp curr nodes_set).
  unfold check_body at 2. cbn [fst].
  destruct (reg d !! node) as [prev|]; [|apply IH].
  destruct (icp prev curr) as [rel_edge goodness]. cbn [fst snd].
  unfold register_if_good.
  destruct (fgt goodness (ICP_goodness_thresh params)); [|apply IH].
  cbn [foldl].
  specialize (Hreg d g (node, rel_edge)).
  destruct (register_edge params label (d, g) (node, rel_edge)) as [d1 g1].
  cbn [fst] in Hreg. rewrite IH, Hreg. reflexivity.
Qed.

Lemma checkRegistrationCondition2D_passing params d g nodes_set :
  checkRegistrationCondition2D params d g nodes_set
  = match m_nodes_to_laser_scans2D d !! to_size_t (nodeCount g - 1) with
    | Some curr =>
        foldl (register_edge params "ICP2D") (d, g)
          (passing params (m_nodes_to_laser_scans2D d) getICPEdge2D curr
             nodes_set)
    | None => (d, g)
    end.
Proof.
  unfold checkRegistrationCondition2D.
  destruct (m_nodes_to_laser_scans2D d !! _) as [curr|]; [|reflexivity].
  apply (check_body_passing m_nodes_to_laser_scans2D getICPEdge2D "ICP2D").
  intros d0 g0 e. apply register_edge_fields.
Qed.

Lemma checkRegistrationCondition3D_passing params d g nodes_set :
  checkRegistrationCondition3D params d g nodes_set
  = match m_nodes_to_laser_scans3D d !! to_size_t (nodeCount g - 1) with
    | Some curr =>
        foldl (register_edge params "ICP3D") (d, g)
          (passing params (m_nodes_to_laser_scans3D d) getICPEdge3D curr
             nodes_set)
    | None => (d, g)
    end.
Proof.
  unfold checkRegistrationCondition3D.
  destruct (m_nodes_to_laser_scans3D d !! _) as [curr|]; [|reflexivity].
  apply (check_body_passing m_nodes_to_laser_scans3D getICPEdge3D "ICP3D").
  intros d0 g0 e. apply register_edge_fields.
Qed.

(** The edge registration of a call, as the edges it registers. *)
Lemma register_edges_passing params d g observations observation :
  let d1 := before_registration d g observations observation in
  register_edges params (new_node_detected d g) d1 g
  = if new_node_detected d g
    then foldl (register_edge params (mode_label d1))
           (set_loop_closure false d1, g)
           (registered_edges params d g observations observation)
    else (d1, g).
Proof.
  cbv zeta. unfold register_edges, registered_edges, mode_label.
  destruct (new_node_detected d g); [|reflexivity].
  set (d1 := before_registration d g observations observation).
  change (m_is_using_3DScan (set_loop_closure false d1))
    with (m_is_using_3DScan d1).
  destruct (m_is_using_3DScan d1).
  - rewrite checkRegistrationCondition3D_passing.
    change (m_nodes_to_laser_scans3D (set_loop_closure false d1))
      with (m_nodes_to_laser_scans3D d1).
    destruct (m_nodes_to_laser_scans3D d1 !! _); reflexivity.
  - rewrite checkRegistrationCondition2D_passing.
    change (m_nodes_to_laser_scans2D (set_loop_closure false d1))
      with (m_nodes_to_laser_scans2D d1).
    destruct (m_nodes_to_laser_scans2D d1 !! _); reflexivity.
Qed.

(** ** The effect of one call *)

Lemma update_fields params d g observations observation :
  let d' := fst (updateDeciderState params d g observations observation) in
  m_last_total_num_of_nodes d'
    = Z.max (m_last_total_num_of_nodes d) (nodeCount g)
  /\ m_is_using_3DScan d' =
       match observation with
       | Some (Obs3DRangeScan _) => true
       | Some (Obs2DRangeScan _) => false
       | _ => m_is_using_3DScan d
       end.
Proof.
  rewrite updateDeciderState_unfold. cbv zeta. cbn [fst].
  destruct (checkIfInvalidDataset_fields observation
              (fst (register_edges params (new_node_detected d g)
                      (before_registration d g observations observation) g)))
    as (_ & _ & -> & ->).
  rewrite register_edges_passing. cbv zeta.
  destruct (before_registration_fields d g observations observation)
    as (_ & _ & B3 & B4). cbv zeta in B3, B4.
  destruct (new_node_detected d g); cbn [fst]; [|auto].
  destruct (register_edge_list_fields params
              (mode_label (before_registration d g observations observation))
              (registered_edges params d g observations observation)
              (set_loop_closure false
                 (before_registration d g observations observation)) g)
    as (_ & _ & -> & ->).
  cbn [set_loop_closure m_last_total_num_of_nodes m_is_using_3DScan]. auto.
Qed.

Lemma mode_label_not_LC d : mode_label d <> "LC".
Proof. unfold mode_label. destruct (m_is_using_3DScan d); discriminate. Qed.

(** The counters after one call. *)
Lemma update_counts params d g observations observation :
  let d' := fst (updateDeciderState params d g observations observation) in
  exists k2 k3 lc,
    0 <= k2 /\ 0 <= k3 /\ 0 <= lc <= k2 + k3
    /\ count_ICP2D d' = count_ICP2D d + k2
    /\ count_ICP3D d' = count_ICP3D d + k3
    /\ count_LC d' = count_LC d + lc.
Proof.
  rewrite updateDeciderState_unfold. cbv zeta. cbn [fst].
  unfold count_ICP2D, count_ICP3D, count_LC.
  destruct (checkIfInvalidDataset_fields observation
              (fst (register_edges params (new_node_detected d g)
                      (before_registration d g observations observation) g)))
    as (-> & _).
  rewrite register_edges_passing. cbv zeta.
  destruct (before_registration_fields d g observations observation)
    as (B1 & _). cbv zeta in B1.
  destruct (new_node_detected d g); cbn [fst].
  - set (d1 := before_registration d g observations observation) in *.
    destruct (register_edge_list_counts params (mode_label d1)
                (registered_edges params d g observations observation)
                (mode_label_not_LC d1) (set_loop_closure false d1) g)
      as (lc & Hlc & C1 & C2 & C3).
    cbv zeta in C1, C2, C3.
    cbn [set_loop_closure m_edge_types_to_nums] in C1, C2, C3.
    rewrite B1 in C1, C2, C3. rewrite C2.
    set (n := Z.of_nat (length (registered_edges params d g observations
                                  observation))) in *.
    unfold mode_label in *. destruct (m_is_using_3DScan d1).
    + exists 0, n, lc. rewrite C1, (C3 "ICP2D") by discriminate.
      repeat split; lia.
    + exists n, 0, lc. rewrite C1, (C3 "ICP3D") by discriminate.
      repeat split; lia.
  - rewrite B1. exists 0, 0, 0. repeat split; lia.
Qed.

(** ** Sequences of calls *)

Lemma run_mode params steps :
  forall d,
    m_is_using_3DScan (run params d steps)
    = scan_mode (m_is_using_3DScan d) steps.
Proof.
  induction steps as [|s steps IH]; intros d; [reflexivity|].
  unfold run, scan_mode. cbn [foldl].
  fold (run params (update params d s) steps).
  rewrite IH. unfold scan_mode. f_equal.
  unfold update.
  destruct (update_fields params d (step_graph s) (step_observations s)
              (step_observation s)) as (_ & ->).
  reflexivity.
Qed.

Lemma run_last_total params steps :
  forall d,
    m_last_total_num_of_nodes (run params d steps)
    = foldl (fun m s => Z.max m (nodeCount (step_graph s)))
        (m_last_total_num_of_nodes d) steps.
Proof.
  induction steps as [|s steps IH]; intros d; [reflexivity|].
  unfold run. cbn [foldl]. fold (run params (update params d s) steps).
  rewrite IH. f_equal. unfold update.
  destruct (update_fields params d (step_graph s) (step_observations s)
              (step_observation s)) as (-> & _).
  reflexivity.
Qed.

Lemma foldl_max_bounds (steps : list Step) c :
  (forall t, In t steps -> nodeCount (step_graph t) <= c) ->
  forall m,
    m <= foldl (fun m s => Z.max m (nodeCount (step_graph s))) m steps
      <= Z.max m c.
Proof.
  induction steps as [|s steps IH]; intros Hle m; cbn [foldl]; [lia|].
  pose proof (Hle s (or_introl eq_refl)).
  specialize (IH (fun t Ht => Hle t (or_intror Ht))
                 (Z.max m (nodeCount (step_graph s)))).
  lia.
Qed.

Lemma nondecreasing_last steps s :
  nondecreasing (steps ++ [s]) ->
  forall t, In t steps -> nodeCount (step_graph t) <= nodeCount (step_graph s).
Proof.
  intros Hmono t Hin.
  apply list_elem_of_In, list_elem_of_lookup in Hin. destruct Hin as [i Hi].
  apply (Hmono i (length steps) t s).
  - apply lookup_lt_Some in Hi. lia.
  - rewrite lookup_app_l; [exact Hi|]. apply lookup_lt_Some in Hi. exact Hi.
  - rewrite lookup_app_r by lia. rewrite Nat.sub_diag. reflexivity.
Qed.

(** ** With a graph that gains no node when an edge is inserted *)

Lemma register_edge_flag params label d g e :
  m_just_inserted_loop_closure (fst (register_edge params label (d, g) e))
  = (m_just_inserted_loop_closure d
     || (LC_min_nodeid_diff params
         <? id_gap (nodeCount (insertEdge g (fst e)
                                 (to_size_t (nodeCount g - 1)) (snd e)))
              (fst e))).
Proof.
  unfold register_edge, registerNewEdge. cbn.
  destruct (LC_min_nodeid_diff params <? _); cbn.
  - rewrite orb_true_r. reflexivity.
  - rewrite orb_false_r. reflexivity.
Qed.

(** After a list of edges: the graph holds them, in order, all towards the
    newest node; the flag is raised when one of them spans more than
    [LC_min_nodeid_diff] ids. *)
Lemma register_edge_list_graph {L : GraphLaws} params label es :
  forall d g,
    let st := foldl (register_edge params label) (d, g) es in
    snd st = insert_edges g (to_size_t (nodeCount g - 1)) es
    /\ nodeCount (snd st) = nodeCount g
    /\ m_just_inserted_loop_closure (fst st)
       = (m_just_inserted_loop_closure d
          || existsb (fun e => LC_min_nodeid_diff params
                               <? id_gap (nodeCount g) (fst e)) es).
Proof.
  induction es as [|e es IH]; intros d g; cbn [foldl].
  - cbn. rewrite orb_false_r. auto.
  - pose proof (register_edge_graph params label d g e) as G.
    pose proof (register_edge_flag params label d g e) as F.
    destruct (register_edge params label (d, g) e) as [d1 g1].
    cbn [fst snd] in G, F.
    assert (Hn : nodeCount g1 = nodeCount g).
    { rewrite G. apply nodeCount_insertEdge. }
    rewrite <- G, Hn in F.
    destruct (IH d1 g1) as (I1 & I2 & I3). cbv zeta in *.
    rewrite Hn in I1, I2, I3.
    split; [|split].
    + rewrite I1, G. reflexivity.
    + exact I2.
    + rewrite I3, F. cbn [existsb]. rewrite orb_assoc. reflexivity.
Qed.

(** The graph and the flag after one call. *)
Lemma update_graph {L : GraphLaws} params d g observations observation :
  let st := updateDeciderState params d g observations observation in
  let es := registered_edges params d g observations observation in
  snd st = insert_edges g (to_size_t (nodeCount g - 1)) es
  /\ nodeCount (snd st) = nodeCount g
  /\ m_just_inserted_loop_closure (fst st)
     = if new_node_detected d g
       then existsb (fun e => LC_min_nodeid_diff params
                              <? id_gap (nodeCount g) (fst e)) es
       else m_just_inserted_loop_closure d.
Proof.
  rewrite updateDeciderState_unfold. cbv zeta. cbn [fst snd].
  destruct (checkIfInvalidDataset_fields observation
              (fst (register_edges params (new_node_detected d g)
                      (before_registration d g observations observation) g)))
    as (_ & -> & _).
  rewrite register_edges_passing. cbv zeta.
  destruct (before_registration_fields d g observations observation)
    as (_ & B2 & _). cbv zeta in B2.
  unfold registered_edges at 1 2.
  destruct (new_node_detected d g) eqn:Hnew; cbn [fst snd].
  - fold (registered_edges params d g observations observation).
    assert (Hes : registered_edges params d g observations observation
                  = registered_edges params d g observations observation)
      by reflexivity.
    unfold registered_edges at 2 in Hes. rewrite Hnew in Hes.
    cbv zeta in Hes. rewrite <- Hes. clear Hes.
    destruct (register_edge_list_graph params
                (mode_label (before_registration d g observations observation))
                (registered_edges params d g observations observation)
                (set_loop_closure false
                   (before_registration d g observations observation)) g)
      as (G1 & G2 & G3).
    cbv zeta in G1, G2, G3. rewrite G1 in *. rewrite G3.
    split; [reflexivity|]. split; [exact G2|]. reflexivity.
  - cbn. rewrite B2. auto.
Qed.

(** ** Candidates *)

(** With a positive distance the loop of [getNearbyNodesOf] only visits
    the ids below [nodeCount()-1]: the new node is no candidate. *)
Lemma nearby_nodes_range n g cur distance :
  forall nodeID nodes_set id,
    In id (nearby_nodes n g cur distance nodeID nodes_set) ->
    In id nodes_set \/ nodeID <= id < nodeID + Z.of_nat n.
Proof.
  assert (Hins : forall k s id, In id (set_insert k s) -> id = k \/ In id s).
  { intros k s. induction s as [|h t IH]; intros id; cbn.
    - intros [<-|[]]. auto.
    - destruct (k <? h); [cbn; intuition auto|].
      destruct (Z.eqb_spec k h); [cbn; intuition auto|].
      cbn. intros [<-|Hin]; [auto|]. destruct (IH id Hin); auto. }
  induction n as [|n IH]; intros nodeID nodes_set id; cbn [nearby_nodes].
  - auto.
  - intros Hin. apply IH in Hin. destruct Hin as [Hin|Hr]; [|right; lia].
    destruct (fle _ distance); [|auto].
    apply Hins in Hin. destruct Hin as [->|Hin]; [right; lia|auto].
Qed.

Lemma getNearbyNodesOf_positive_excludes_new g cur distance id :
  fgt distance fzero = true ->
  1 <= nodeCount g < two64 ->
  In id (getNearbyNodesOf g [] cur distance) ->
  0 <= id < nodeCount g - 1.
Proof.
  intros Hpos Hn. unfold getNearbyNodesOf. rewrite Hpos. intros Hin.
  apply nearby_nodes_range in Hin. destruct Hin as [[]|Hr].
  unfold to_size_t in Hr. rewrite Z.mod_small in Hr by lia. lia.
Qed.

Lemma getNearbyNodesOf_nonpositive g nodes_set cur distance :
  fgt distance fzero = false ->
  getNearbyNodesOf g nodes_set cur distance = getAllNodes g.
Proof. intros Hz. unfold getNearbyNodesOf. rewrite Hz. reflexivity. Qed.

(** ** Id gaps *)

Lemma id_gap_small count node :
  1 <= count <= two64 ->
  - 2 ^ 63 <= count - 1 - node < 2 ^ 63 ->
  id_gap count node = Z.abs (count - 1 - node).
Proof.
  intros Hc Hd. unfold id_gap, to_long, to_size_t, two64 in *.
  rewrite (Z.mod_small (count - 1)) by lia.
  rewrite Z.mod_mod by lia.
  destruct (Z.le_gt_cases 0 (count - 1 - node)).
  - rewrite Z.mod_small by lia.
    destruct (Z.ltb_spec (count - 1 - node) (2 ^ 63)); lia.
  - replace ((count - 1 - node) mod 2 ^ 64) with (count - 1 - node + 2 ^ 64).
    + destruct (Z.ltb_spec (count - 1 - node + 2 ^ 64) (2 ^ 63)); lia.
    + apply Z.mod_unique_pos with (q := -1); lia.
Qed.

(** ** The candidates that pass *)

Lemma passing_spec {Scan : Type} params (reg : gmap Z Scan)
    (icp : Scan -> Scan -> constraint_t * double) curr nodes_set node prev :
  reg !! node = Some prev ->
  (exists rel, In (node, rel) (passing params reg icp curr nodes_set))
  <-> In node nodes_set
      /\ fgt (snd (icp prev curr)) (ICP_goodness_thresh params) = true.
Proof.
  intros Hprev. unfold passing. split.
  - intros (rel & Hin).
    apply list_elem_of_In, list_elem_of_omap in Hin.
    destruct Hin as (x & Hx & Hf).
    destruct (reg !! x) as [p|] eqn:Hp; [|discriminate].
    destruct (fgt (snd (icp p curr)) (ICP_goodness_thresh params)) eqn:Hgood;
      [|discriminate].
    injection Hf as -> _. rewrite Hprev in Hp. injection Hp as <-.
    split; [apply list_elem_of_In; exact Hx | exact Hgood].
  - intros (Hin & Hgood). exists (fst (icp prev curr)).
    apply list_elem_of_In, list_elem_of_omap. exists node.
    split; [apply list_elem_of_In; exact Hin|].
    rewrite Hprev, Hgood. reflexivity.
Qed.

(** The counters after one call, exactly: the counter of the mode in use
    grows by the number of edges registered, the other mode's counter does
    not change, and the loop-closure counter grows by no more than the
    number of edges. *)
Lemma update_counts_exact params d g observations observation :
  let d' := fst (updateDeciderState params d g observations observation) in
  let d1 := before_registration d g observations observation in
  let es := registered_edges params d g observations observation in
  counter (m_edge_types_to_nums d') (mode_label d1)
    = counter (m_edge_types_to_nums d) (mode_label d1) + Z.of_nat (length es)
  /\ (forall key, key <> mode_label d1 -> key <> "LC" ->
        counter (m_edge_types_to_nums d') key
        = counter (m_edge_types_to_nums d) key).
Proof.
  rewrite updateDeciderState_unfold. cbv zeta. cbn [fst].
  destruct (checkIfInvalidDataset_fields observation
              (fst (register_edges params (new_node_detected d g)
                      (before_registration d g observations observation) g)))
    as (-> & _).
  rewrite register_edges_passing. cbv zeta.
  destruct (before_registration_fields d g observations observation)
    as (B1 & _). cbv zeta in B1.
  set (d1 := before_registration d g observations observation) in *.
  destruct (new_node_detected d g) eqn:Hnew; cbn [fst].
  - destruct (register_edge_list_counts params (mode_label d1)
                (registered_edges params d g observations observation)
                (mode_label_not_LC d1) (set_loop_closure false d1) g)
      as (lc & Hlc & C1 & C2 & C3).
    cbv zeta in C1, C2, C3.
    cbn [set_loop_closure m_edge_types_to_nums] in C1, C2, C3.
    rewrite B1 in C1, C2, C3. auto.
  - unfold registered_edges. rewrite Hnew, B1. cbn [length].
    split; [lia | reflexivity].
Qed.

(** The loop-closure counter after a list of edges, on a graph that gains
    no node when an edge is inserted. *)
Lemma register_edge_list_LC {L : GraphLaws} params label es :
  label <> "LC" ->
  forall d g,
    let d' := fst (foldl (register_edge params label) (d, g) es) in
    counter (m_edge_types_to_nums d') "LC"
    = counter (m_edge_types_to_nums d) "LC"
      + Z.of_nat (length (List.filter (is_loop_closure params g) es)).
Proof.
  intros Hlabel.
  induction es as [|e es IH]; intros d g; cbn [foldl List.filter].
  - cbn. lia.
  - pose proof (register_edge_counts params label d g e Hlabel) as F.
    pose proof (register_edge_graph params label d g e) as G.
    destruct (register_edge params label (d, g) e) as [d1 g1].
    cbn [fst snd] in F, G. destruct F as (_ & F2 & _).
    assert (Hn : nodeCount g1 = nodeCount g).
    { rewrite G. apply nodeCount_insertEdge. }
    rewrite Hn in F2. cbv zeta. rewrite IH, F2.
    assert (Hf : List.filter (is_loop_closure params g1) es
                 = List.filter (is_loop_closure params g) es).
    { apply filter_ext. intros a. unfold is_loop_closure. rewrite Hn.
      reflexivity. }
    rewrite Hf. unfold is_loop_closure at 2.
    destruct (LC_min_nodeid_diff params <? id_gap (nodeCount g) (fst e));
      cbn [length]; lia.
Qed.

(** The loop-closure counter after one call: it grows by the number of the
    registered edges that span more than [LC_min_nodeid_diff] ids. *)
Lemma update_LC_exact {L : GraphLaws} params d g observations observation :
  let d' := fst (updateDeciderState params d g observations observation) in
  let es := registered_edges params d g observations observation in
  count_LC d'
  = count_LC d
    + Z.of_nat (length (List.filter (is_loop_closure params g) es)).
Proof.
  rewrite updateDeciderState_unfold. cbv zeta. cbn [fst].
  unfold count_LC.
  destruct (checkIfInvalidDataset_fields observation
              (fst (register_edges params (new_node_detected d g)
                      (before_registration d g observations observation) g)))
    as (-> & _).
  rewrite register_edges_passing. cbv zeta.
  destruct (before_registration_fields d g observations observation)
    as (B1 & _). cbv zeta in B1.
  set (d1 := before_registration d g observations observation) in *.
  destruct (new_node_detected d g) eqn:Hnew; cbn [fst].
  - rewrite (register_edge_list_LC params (mode_label d1)
               (registered_edges params d g observations observation)
               (mode_label_not_LC d1) (set_loop_closure false d1) g).
    cbn [set_loop_closure m_edge_types_to_nums]. rewrite B1. reflexivity.
  - unfold registered_edges. rewrite Hnew, B1. cbn. lia.
Qed.

(** A call that registers no edge leaves the whole map of counters as it
    was. *)
Lemma update_stats_no_edges params d g observations observation :
  registered_edges params d g observations observation = [] ->
  getEdgesStats (fst (updateDeciderState params d g observations observation))
  = getEdgesStats d.
Proof.
  intros Hes. rewrite updateDeciderState_unfold. cbv zeta. cbn [fst].
  unfold getEdgesStats.
  destruct (checkIfInvalidDataset_fields observation
              (fst (register_edges params (new_node_detected d g)
                      (before_registration d g observations observation) g)))
    as (-> & _).
  rewrite register_edges_passing. cbv zeta. rewrite Hes.
  destruct (before_registration_fields d g observations observation)
    as (B1 & _). cbv zeta in B1.
  destruct (new_node_detected d g); cbn [foldl fst]; [|exact B1].
  cbn [set_loop_closure m_edge_types_to_nums]. exact B1.
Qed.

(** ** The claims *)

(** C7. After every sequence of calls on a freshly constructed decider,
    the loop-closure counter is at most the sum of the ICP2D and ICP3D
    counters; registering one edge increments the counter of its mode by
    one and the loop-closure counter by one or not at all; and one call
    changes the counters by some k2, k3 >= 0 and 0 <= lc <= k2 + k3. *)
Theorem LC_counted_with_ICP_edges :
  (forall params steps,
     let d := run params initCICPGoodnessERD_t steps in
     count_LC d <= count_ICP2D d + count_ICP3D d)
  /\ (forall params label d g e,
        label = "ICP2D" \/ label = "ICP3D" ->
        let d' := fst (register_edge params label (d, g) e) in
        counter (m_edge_types_to_nums d') label
          = counter (m_edge_types_to_nums d) label + 1
        /\ (count_LC d' = count_LC d \/ count_LC d' = count_LC d + 1))
  /\ (forall params d g observations observation,
        let d' := fst (updateDeciderState params d g observations observation) in
        exists k2 k3 lc,
          0 <= k2 /\ 0 <= k3 /\ 0 <= lc <= k2 + k3
          /\ count_ICP2D d' = count_ICP2D d + k2
          /\ count_ICP3D d' = count_ICP3D d + k3
          /\ count_LC d' = count_LC d + lc).
Proof.
  split; [|split].
  - intros params steps.
    assert (Hinv : forall d,
              count_LC d <= count_ICP2D d + count_ICP3D d ->
              count_LC (run params d steps)
              <= count_ICP2D (run params d steps)
                 + count_ICP3D (run params d steps)).
    { induction steps as [|s steps IH]; intros d Hd; [exact Hd|].
      unfold run. cbn [foldl]. fold (run params (update params d s) steps).
      apply IH. unfold update.
      destruct (update_counts params d (step_graph s) (step_observations s)
                  (step_observation s))
        as (k2 & k3 & lc & H2 & H3 & Hlc & -> & -> & ->).
      lia. }
    apply Hinv. vm_compute. discriminate.
  - intros params label d g e Hlabel d'.
    assert (Hne : label <> "LC") by (destruct Hlabel; subst; discriminate).
    destruct (register_edge_counts params label d g e Hne) as (C1 & C2 & _).
    cbv zeta in C1, C2. subst d'. unfold count_LC. rewrite C1, C2.
    split; [reflexivity|].
    destruct (LC_min_nodeid_diff params <? _); [right|left]; lia.
  - intros params d g observations observation.
    apply update_counts.
Qed.

(** C5, as the code has it. [last_total_nodes] is 2 after construction
    and, while the node count of the graph does not decrease, it is the
    larger of 2 and [nodeCount()] after every call; so it never exceeds
    [nodeCount()] once the graph has two nodes. *)
Theorem last_total_nodes_bound {L : GraphLaws} params steps s :
  nondecreasing (steps ++ [s]) ->
  let st :=
    updateDeciderState params (run params initCICPGoodnessERD_t steps)
      (step_graph s) (step_observations s) (step_observation s) in
  m_last_total_num_of_nodes initCICPGoodnessERD_t = 2
  /\ m_last_total_num_of_nodes (fst st) = Z.max 2 (nodeCount (snd st))
  /\ (2 <= nodeCount (snd st) ->
      m_last_total_num_of_nodes (fst st) <= nodeCount (snd st)).
Proof.
  intros Hmono st.
  assert (Hmax : m_last_total_num_of_nodes (fst st)
                 = Z.max 2 (nodeCount (snd st))).
  { subst st.
    destruct (update_graph params (run params initCICPGoodnessERD_t steps)
                (step_graph s) (step_observations s) (step_observation s))
      as (_ & -> & _).
    destruct (update_fields params (run params initCICPGoodnessERD_t steps)
                (step_graph s) (step_observations s) (step_observation s))
      as (-> & _).
    rewrite run_last_total.
    pose proof (foldl_max_bounds steps (nodeCount (step_graph s))
                  (nondecreasing_last steps s Hmono)
                  (m_last_total_num_of_nodes initCICPGoodnessERD_t)) as Hb.
    change (m_last_total_num_of_nodes initCICPGoodnessERD_t) with 2 in *.
    lia. }
  split; [reflexivity|]. split; [exact Hmax|]. lia.
Qed.

(** C2, as the code has it. The edges a call registers are
    [registered_edges]. After a call that detected a new node,
    [justInsertedLoopClosure()] is true if and only if one of them spans an
    id gap greater than [LC_min_nodeid_diff]. A call that detects no new
    node registers no edge and leaves [justInsertedLoopClosure()] as it
    was: the flag is reset only when a new node is detected. *)
Theorem justInsertedLoopClosure_after_update {L : GraphLaws}
    params d g observations observation :
  let st := updateDeciderState params d g observations observation in
  let es := registered_edges params d g observations observation in
  snd st = insert_edges g (to_size_t (nodeCount g - 1)) es
  /\ (new_node_detected d g = true ->
      (justInsertedLoopClosure (fst st) = true <->
       exists e, In e es
                 /\ LC_min_nodeid_diff params < id_gap (nodeCount g) (fst e)))
  /\ (new_node_detected d g = false ->
      es = [] /\ snd st = g
      /\ justInsertedLoopClosure (fst st) = justInsertedLoopClosure d).
Proof.
  intros st es.
  destruct (update_graph params d g observations observation)
    as (G1 & _ & G3).
  fold st es in G1, G3. unfold justInsertedLoopClosure.
  split; [exact G1|]. split.
  - intros Hnew. rewrite G3, Hnew. rewrite existsb_exists.
    split; intros (e & Hin & Hgap); exists e; (split; [exact Hin|]).
    + apply Z.ltb_lt. exact Hgap.
    + apply Z.ltb_lt. exact Hgap.
  - intros Hnew. rewrite G1, G3, Hnew.
    assert (Hes : es = []).
    { subst es. unfold registered_edges. rewrite Hnew. reflexivity. }
    rewrite Hes. auto.
Qed.

(** C6. In a call that detected a new node whose scan is in the registry
    of the mode in use, the edges inserted into the graph are exactly those
    from the candidates whose scan is in that registry and for which ICP
    reports a goodness strictly greater than [ICP_goodness_thresh], each
    towards the new node; the counter of the mode grows by their number,
    the loop-closure counter grows by the number of those edges that span
    more than [LC_min_nodeid_diff] ids, and no other counter changes. A
    candidate whose goodness is not greater than the threshold contributes
    no edge and no count to any counter; when no candidate passes, the map
    of counters is left as it was. (When the new node has no scan in that
    registry, ICP is not run: no edge is inserted and no counter
    changes.) *)
Theorem edge_registered_iff_goodness_above_threshold {L : GraphLaws}
    params d g observations observation :
  new_node_detected d g = true ->
  let d1 := before_registration d g observations observation in
  let new_node := to_size_t (nodeCount g - 1) in
  let candidates :=
    getNearbyNodesOf g [] new_node (ICP_max_distance params) in
  let st := updateDeciderState params d g observations observation in
  (m_is_using_3DScan d1 = false ->
   forall curr, m_nodes_to_laser_scans2D d1 !! new_node = Some curr ->
     let es := passing params (m_nodes_to_laser_scans2D d1) getICPEdge2D curr
                 candidates in
     snd st = insert_edges g new_node es
     /\ count_ICP2D (fst st) = count_ICP2D d + Z.of_nat (length es)
     /\ count_ICP3D (fst st) = count_ICP3D d
     /\ (forall node prev,
           In node candidates ->
           m_nodes_to_laser_scans2D d1 !! node = Some prev ->
           ((exists rel, In (node, rel) es) <->
            fgt (snd (getICPEdge2D prev curr)) (ICP_goodness_thresh params)
            = true))
     /\ count_LC (fst st)
        = count_LC d
          + Z.of_nat (length (List.filter (is_loop_closure params g) es))
     /\ (forall key, key <> "ICP2D" -> key <> "LC" ->
           counter (getEdgesStats (fst st)) key
           = counter (getEdgesStats d) key)
     /\ (es = [] -> getEdgesStats (fst st) = getEdgesStats d))
  /\ (m_is_using_3DScan d1 = true ->
      forall curr, m_nodes_to_laser_scans3D d1 !! new_node = Some curr ->
        let es := passing params (m_nodes_to_laser_scans3D d1) getICPEdge3D
                    curr candidates in
        snd st = insert_edges g new_node es
        /\ count_ICP3D (fst st) = count_ICP3D d + Z.of_nat (length es)
        /\ count_ICP2D (fst st) = count_ICP2D d
        /\ (forall node prev,
              In node candidates ->
              m_nodes_to_laser_scans3D d1 !! node = Some prev ->
              ((exists rel, In (node, rel) es) <->
               fgt (snd (getICPEdge3D prev curr)) (ICP_goodness_thresh params)
               = true))
        /\ count_LC (fst st)
           = count_LC d
             + Z.of_nat (length (List.filter (is_loop_closure params g) es))
        /\ (forall key, key <> "ICP3D" -> key <> "LC" ->
              counter (getEdgesStats (fst st)) key
              = counter (getEdgesStats d) key)
        /\ (es = [] -> getEdgesStats (fst st) = getEdgesStats d))
  /\ ((if m_is_using_3DScan d1
       then m_nodes_to_laser_scans3D d1 !! new_node = None
       else m_nodes_to_laser_scans2D d1 !! new_node = None) ->
      snd st = g
      /\ count_ICP2D (fst st) = count_ICP2D d
      /\ count_ICP3D (fst st) = count_ICP3D d
      /\ count_LC (fst st) = count_LC d
      /\ getEdgesStats (fst st) = getEdgesStats d).
Proof.
  intros Hnew d1 new_node candidates st.
  destruct (update_graph params d g observations observation) as (G1 & _).
  destruct (update_counts_exact params d g observations observation)
    as (C1 & C2).
  pose proof (update_LC_exact params d g observations observation) as CL.
  pose proof (update_stats_no_edges params d g observations observation) as CS.
  cbv zeta in CL. fold st d1 in G1, C1, C2, CL, CS. fold new_node in G1.
  split; [|split]; [intros Hmode curr Hcurr es | intros Hmode curr Hcurr es |].
  3: { intros Hnone.
       assert (Hes : registered_edges params d g observations observation = []).
       { unfold registered_edges. rewrite Hnew. fold d1 new_node candidates.
         destruct (m_is_using_3DScan d1); rewrite Hnone; reflexivity. }
       specialize (CS Hes).
       rewrite Hes in G1, C1, CL. cbn [length] in C1.
       rewrite Z.add_0_r in C1. cbn in CL. rewrite Z.add_0_r in CL.
       split; [exact G1|]. unfold count_ICP2D, count_ICP3D.
       unfold mode_label in C1, C2.
       destruct (m_is_using_3DScan d1).
       - split; [apply C2; discriminate|]. split; [exact C1|].
         split; [exact CL | exact CS].
       - split; [exact C1|]. split; [apply C2; discriminate|].
         split; [exact CL | exact CS]. }
  - assert (Hes : registered_edges params d g observations observation = es).
    { unfold registered_edges. rewrite Hnew. fold d1 new_node candidates.
      rewrite Hmode, Hcurr. reflexivity. }
    rewrite Hes in G1, C1, CL, CS.
    unfold mode_label in C1, C2. rewrite Hmode in C1, C2.
    split; [exact G1|]. split; [exact C1|].
    split; [apply C2; discriminate|].
    split; [|split; [exact CL | split; [exact C2 | exact CS]]].
    intros node prev Hin Hprev. subst es.
    rewrite (passing_spec params _ getICPEdge2D curr candidates node prev Hprev).
    tauto.
  - assert (Hes : registered_edges params d g observations observation = es).
    { unfold registered_edges. rewrite Hnew. fold d1 new_node candidates.
      rewrite Hmode, Hcurr. reflexivity. }
    rewrite Hes in G1, C1, CL, CS.
    unfold mode_label in C1, C2. rewrite Hmode in C1, C2.
    split; [exact G1|]. split; [exact C1|].
    split; [apply C2; discriminate|].
    split; [|split; [exact CL | split; [exact C2 | exact CS]]].
    intros node prev Hin Hprev. subst es.
    rewrite (passing_spec params _ getICPEdge3D curr candidates node prev Hprev).
    tauto.
Qed.

(** C4, as the code has it. The mode is not latched: after every sequence
    of calls it is the kind of the last range scan that came as a single
    observation (2D when there was none), and the edge registration of a
    call uses the 3D registry exactly when that kind, this call's
    observation included, is 3D. *)
Theorem mode_follows_last_range_scan params steps :
  m_is_using_3DScan (run params initCICPGoodnessERD_t steps)
  = scan_mode false steps
  /\ forall s,
       let d := run params initCICPGoodnessERD_t steps in
       let g := step_graph s in
       let d1 :=
         before_registration d g (step_observations s) (step_observation s) in
       let candidates :=
         getNearbyNodesOf g [] (to_size_t (nodeCount g - 1))
           (ICP_max_distance params) in
       m_is_using_3DScan d1 = scan_mode false (steps ++ [s])
       /\ register_edges params true d1 g
          = if scan_mode false (steps ++ [s])
            then checkRegistrationCondition3D params
                   (set_loop_closure false d1) g candidates
            else checkRegistrationCondition2D params
                   (set_loop_closure false d1) g candidates.
Proof.
  split; [apply run_mode|].
  intros s d g d1 candidates.
  assert (Hmode : m_is_using_3DScan d1 = scan_mode false (steps ++ [s])).
  { subst d1.
    destruct (before_registration_fields d g (step_observations s)
                (step_observation s)) as (_ & _ & _ & ->).
    unfold scan_mode. rewrite foldl_snoc.
    fold (scan_mode false steps). subst d. rewrite run_mode. reflexivity. }
  split; [exact Hmode|].
  unfold register_edges. fold candidates.
  change (m_is_using_3DScan (set_loop_closure false d1))
    with (m_is_using_3DScan d1).
  rewrite Hmode. reflexivity.
Qed.

End DeciderFacts.

(** ** The decider over the graph of the specification *)

Lemma spec_graph_laws C icp2D icp3D to2D :
  GraphLaws (H := spec_externals C icp2D icp3D to2D).
Proof. constructor. intros g from to c. reflexivity. Qed.

(** With a distance that is not positive, the candidates are all the nodes
    of the graph. *)
Lemma getNearbyNodesOf_spec_graph_all_nodes C icp2D icp3D to2D
    (g : SpecGraph.t C) nodes_set cur distance :
  fgt distance fzero = false ->
  getNearbyNodesOf (H := spec_externals C icp2D icp3D to2D)
    g nodes_set cur distance
  = List.map Z.of_nat (seq 0 (length (SpecGraph.poses g))).
Proof. intros Hz. unfold getNearbyNodesOf. rewrite Hz. reflexivity. Qed.

(** C1 on a graph of three nodes whose newest node is 2, with
    [ICP_max_distance = 0]. The candidates are 0, 1 and 2: the new node is
    among them, where the branch for a positive distance leaves it out
    ([getNearbyNodesOf_positive_excludes_new]). The call that detects
    node 2 then aligns its scan with itself and registers the edge from 2
    to 2. *)
Theorem getNearbyNodesOf_all_nodes_includes_new_node :
  let E := Session.externals Session.good in
  let g := Session.graph_of 3 in
  nodeCount (ERDExternals := E) g = 3
  /\ getNearbyNodesOf (H := E) g [] 2 fzero = [0; 1; 2]
  /\ getNearbyNodesOf (H := E) g [] 2 fone = [0; 1]
  /\ SpecGraph.edges
       (snd (updateDeciderState (H := E) (Session.params fzero 10)
               initCICPGoodnessERD_t g []
               (Some (Obs2DRangeScan Sample.empty_scan))))
     = [(2, 2, tt)].
Proof. vm_compute. repeat split; reflexivity. Qed.

(** C2 as stated fails: a call that detects no new node registers no edge,
    and [justInsertedLoopClosure()] is still true after it when the call
    before registered a loop closure. Here the graph grows to 3 and then 4
    nodes, [LC_min_nodeid_diff] is 0, and the third call sees the same 4
    nodes. *)
Lemma justInsertedLoopClosure_outlives_its_update :
  let E := Session.externals Session.good in
  let params := Session.params fone 0 in
  let s3 := Session.step2D Session.good 3 in
  let s4 := Session.step2D Session.good 4 in
  let d := run (H := E) params initCICPGoodnessERD_t [s3; s4] in
  justInsertedLoopClosure d = true
  /\ new_node_detected d (Session.graph_of 4) = false
  /\ registered_edges params d (Session.graph_of 4) []
       (Some (Obs2DRangeScan Sample.empty_scan)) = []
  /\ justInsertedLoopClosure
       (run (H := E) params initCICPGoodnessERD_t [s3; s4; s4]) = true.
Proof. vm_compute. repeat split; reflexivity. Qed.

(** The call that grows the graph from 3 to 4 nodes. *)
Lemma justInsertedLoopClosure_after_update_witness :
  let E := Session.externals Session.good in
  let params := Session.params fone 0 in
  let d := run (H := E) params initCICPGoodnessERD_t
             [Session.step2D Session.good 3] in
  let obs := Some (Obs2DRangeScan Sample.empty_scan) in
  justInsertedLoopClosure
    (fst (updateDeciderState params d (Session.graph_of 4) [] obs)) = true
  <-> exists e,
        In e (registered_edges params d (Session.graph_of 4) [] obs)
        /\ LC_min_nodeid_diff params
           < id_gap (nodeCount (ERDExternals := E) (Session.graph_of 4)) (fst e).
Proof.
  cbv zeta.
  apply (proj1 (proj2
    (justInsertedLoopClosure_after_update
       (L := spec_graph_laws _ _ _ _) (Session.params fone 0)
       (run (H := Session.externals Session.good) (Session.params fone 0)
          initCICPGoodnessERD_t [Session.step2D Session.good 3])
       (Session.graph_of 4) []
       (Some (Obs2DRangeScan Sample.empty_scan))))).
  vm_compute. reflexivity.
Defined.

(** C4 as stated fails: after a 3D scan has been observed, a 2D scan puts
    the decider back into 2D mode. In the third call both registries hold
    scans of earlier nodes; the edge is registered from the 2D registry and
    counted as ICP2D. *)
Lemma mode_is_not_latched_by_3D_scan :
  let E := Session.externals Session.good in
  let d :=
    run (H := E) (Session.params fone 10) initCICPGoodnessERD_t
      [Session.step3D Session.good 3 7; Session.step2D Session.good 4;
       Session.step2D Session.good 5] in
  m_is_using_3DScan d = false
  /\ count_ICP2D d = 1 /\ count_ICP3D d = 0
  /\ m_nodes_to_laser_scans3D d !! 3 = Some 7
  /\ m_nodes_to_laser_scans3D d !! 4 = Some 7.
Proof. vm_compute. repeat split; reflexivity. Qed.

(** C5 as stated fails: on a graph of one node that never grows,
    [last_total_nodes] is 2 after construction and after a call. *)
Lemma last_total_nodes_exceeds_small_graph :
  let E := Session.externals Session.good in
  let s := Session.step2D Session.good 1 in
  nondecreasing (H := E) [s]
  /\ nodeCount (ERDExternals := E) (step_graph s) = 1
  /\ m_last_total_num_of_nodes (initCICPGoodnessERD_t (H := E)) = 2
  /\ m_last_total_num_of_nodes
       (run (H := E) (Session.params fone 10) initCICPGoodnessERD_t [s]) = 2.
Proof.
  cbv zeta. split; [|vm_compute; repeat split; reflexivity].
  intros i j s t Hij Hi Hj.
  destruct i as [|i]; [|discriminate]. destruct j as [|j]; [|discriminate].
  cbn in Hi, Hj. injection Hi as <-. injection Hj as <-. lia.
Qed.

(** A graph that grows from 3 to 4 nodes. *)
Lemma last_total_nodes_bound_witness :
  let E := Session.externals Session.good in
  let s3 := Session.step2D Session.good 3 in
  let s4 := Session.step2D Session.good 4 in
  m_last_total_num_of_nodes
    (fst (updateDeciderState (H := E) (Session.params fone 10)
            (run (H := E) (Session.params fone 10) initCICPGoodnessERD_t [s3])
            (step_graph s4) (step_observations s4) (step_observation s4)))
  = Z.max 2 (nodeCount (ERDExternals := E)
               (snd (updateDeciderState (H := E) (Session.params fone 10)
                       (run (H := E) (Session.params fone 10)
                          initCICPGoodnessERD_t [s3])
                       (step_graph s4) (step_observations s4)
                       (step_observation s4)))).
Proof.
  cbv zeta.
  assert (Hmono : nondecreasing (H := Session.externals Session.good)
                    ([Session.step2D Session.good 3]
                     ++ [Session.step2D Session.good 4])).
  { intros i j s t Hij Hi Hj.
    destruct i as [|[|i]]; destruct j as [|[|j]]; cbn in Hi, Hj;
      try discriminate; try lia;
      injection Hi as <-; injection Hj as <-; vm_compute; discriminate. }
  exact (proj1 (proj2
    (last_total_nodes_bound (H := Session.externals Session.good)
       (L := spec_graph_laws _ _ _ _) (Session.params fone 10)
       [Session.step2D Session.good 3] (Session.step2D Session.good 4)
       Hmono))).
Defined.

(** The call that detects node 3, with [LC_min_nodeid_diff = 0]. With a
    solver that reports a goodness of 0.9, node 2 is the one candidate with
    a scan, and the edge from 2 to 3 is registered and counted as ICP2D and
    as a loop closure. With a solver that reports 0.7, no edge is
    registered and the map of counters is left as it was. *)
Lemma edge_registered_iff_goodness_above_threshold_witness :
  let params := Session.params fone 0 in
  let obs := Some (Obs2DRangeScan Sample.empty_scan) in
  (let E := Session.externals Session.good in
   let d := run (H := E) params initCICPGoodnessERD_t
              [Session.step2D Session.good 3] in
   let st := updateDeciderState (H := E) params d (Session.graph_of 4) []
               obs in
   SpecGraph.edges (snd st) = [(2, 3, tt)]
   /\ count_ICP2D (fst st) = 1 /\ count_ICP3D (fst st) = 0
   /\ count_LC (fst st) = 1)
  /\ (let E := Session.externals Session.poor in
      let d := run (H := E) params initCICPGoodnessERD_t
                 [Session.step2D Session.poor 3] in
      let st := updateDeciderState (H := E) params d (Session.graph_of 4) []
                  obs in
      SpecGraph.edges (snd st) = []
      /\ getEdgesStats (fst st) = getEdgesStats d).
Proof.
  cbv zeta. split.
  - destruct (edge_registered_iff_goodness_above_threshold
                (H := Session.externals Session.good)
                (L := spec_graph_laws _ _ _ _) (Session.params fone 0)
                (run (H := Session.externals Session.good)
                   (Session.params fone 0) initCICPGoodnessERD_t
                   [Session.step2D Session.good 3])
                (Session.graph_of 4) []
                (Some (Obs2DRangeScan Sample.empty_scan)) eq_refl)
      as (H2D & _).
    destruct (H2D eq_refl Sample.empty_scan eq_refl)
      as (G & C2 & C3 & _ & CL & _).
    rewrite G, C2, C3, CL. vm_compute. repeat split; reflexivity.
  - destruct (edge_registered_iff_goodness_above_threshold
                (H := Session.externals Session.poor)
                (L := spec_graph_laws _ _ _ _) (Session.params fone 0)
                (run (H := Session.externals Session.poor)
                   (Session.params fone 0) initCICPGoodnessERD_t
                   [Session.step2D Session.poor 3])
                (Session.graph_of 4) []
                (Some (Obs2DRangeScan Sample.empty_scan)) eq_refl)
      as (H2D & _).
    destruct (H2D eq_refl Sample.empty_scan eq_refl)
      as (G & _ & _ & _ & _ & _ & CS).
    split.
    + refine (eq_trans (f_equal SpecGraph.edges G) _). vm_compute.
      reflexivity.
    + apply CS. vm_compute. reflexivity.
Defined.

(** The same call with a solver that reports a goodness of 0.7, below the
    threshold of 0.75: no edge, no count. *)
Example below_threshold_registers_nothing :
  let E := Session.externals Session.poor in
  let params := Session.params fone 10 in
  let d := run (H := E) params initCICPGoodnessERD_t
             [Session.step2D Session.poor 3] in
  let st :=
    updateDeciderState (H := E) params d (Session.graph_of 4) []
      (Some (Obs2DRangeScan Sample.empty_scan)) in
  SpecGraph.edges (snd st) = []
  /\ count_ICP2D (fst st) = 0 /\ count_ICP3D (fst st) = 0
  /\ count_LC (fst st) = 0.
Proof. vm_compute. repeat split; reflexivity. Qed.

(** * Further properties of the ray simulator *)

Section MarchFacts.
Context `{SimExternals}.

(** One evaluation of the loop condition, when the march goes on over the
    point and when it does not. *)
Lemma ray_march_on g thr max_ray_len Arx Ary fuel rx ry x y hit fu len :
  sizes_fit_int g ->
  passes g thr (rx, ry) ->
  ray_march fuel g (p2l thr) max_ray_len Arx Ary rx ry x y hit fu len
  = if len <? max_ray_len
    then match fuel with
         | O => OutOfFuel
         | S fuel' =>
             ray_march fuel' g (p2l thr) max_ray_len Arx Ary
               (fadd64 rx Arx) (fadd64 ry Ary) (x2idx g rx) (y2idx g ry)
               (cell g (x2idx g rx) (y2idx g ry))
               (if Z.abs (cell g (x2idx g rx) (y2idx g ry)) <=? 1
                then Z.min fu len else fu)
               (to_unsigned (len + 1))
         end
    else Returns {| exit_x := x2idx g rx; exit_y := y2idx g ry;
                    exit_hitCellOcc_int := cell g (x2idx g rx) (y2idx g ry);
                    exit_firstUnknownCellDist := fu; exit_ray_len := len |}.
Proof.
  intros (Hsx & Hsy) ((Hx & Hy) & Hfree). cbn [fst snd] in *.
  destruct fuel; cbn [ray_march]; rewrite !to_int_small by lia.
  all: destruct (Z.leb_spec 0 (x2idx g rx)); [|lia].
  all: destruct (Z.leb_spec 0 (y2idx g ry)); [|lia].
  all: destruct (Z.ltb_spec (x2idx g rx) (size_x g)); [|lia].
  all: destruct (Z.ltb_spec (y2idx g ry) (size_y g)); [|lia].
  all: destruct (Z.ltb_spec (p2l thr) (cell g (x2idx g rx) (y2idx g ry)));
    [|lia].
  all: destruct (len <? max_ray_len); reflexivity.
Qed.

Lemma ray_march_off g thr max_ray_len Arx Ary fuel rx ry x y hit fu len :
  sizes_fit_int g ->
  ~ passes g thr (rx, ry) ->
  exists y' hit',
    ray_march fuel g (p2l thr) max_ray_len Arx Ary rx ry x y hit fu len
    = Returns {| exit_x := x2idx g rx; exit_y := y';
                 exit_hitCellOcc_int := hit';
                 exit_firstUnknownCellDist := fu; exit_ray_len := len |}
    /\ (0 <= x2idx g rx -> y' = y2idx g ry)
    /\ (inside g (rx, ry) -> hit' = cell g (x2idx g rx) (y2idx g ry))
    /\ (~ inside g (rx, ry) -> hit' = hit).
Proof.
  intros (Hsx & Hsy) Hoff. unfold passes, inside in *. cbn [fst snd] in *.
  destruct fuel; cbn [ray_march]; rewrite !to_int_small by lia.
  all: destruct (Z.leb_spec 0 (x2idx g rx)); cbn [negb];
    [|eexists _, _; split; [reflexivity|]; repeat split; intros; lia].
  all: destruct (Z.leb_spec 0 (y2idx g ry)); cbn [negb];
    [|eexists _, _; split; [reflexivity|]; repeat split; intros; lia].
  all: destruct (Z.ltb_spec (x2idx g rx) (size_x g)); cbn [negb];
    [|eexists _, _; split; [reflexivity|]; repeat split; intros; lia].
  all: destruct (Z.ltb_spec (y2idx g ry) (size_y g)); cbn [negb];
    [|eexists _, _; split; [reflexivity|]; repeat split; intros; lia].
  all: destruct (Z.ltb_spec (p2l thr) (cell g (x2idx g rx) (y2idx g ry)));
    cbn [negb];
    [exfalso; apply Hoff; lia
    |eexists _, _; split; [reflexivity|]; repeat split; intros; lia].
Qed.

Lemma passes_dec g thr p : {passes g thr p} + {~ passes g thr p}.
Proof.
  unfold passes, inside.
  destruct (Z_le_dec 0 (x2idx g (fst p))); [|right; lia].
  destruct (Z_lt_dec (x2idx g (fst p)) (size_x g)); [|right; lia].
  destruct (Z_le_dec 0 (y2idx g (snd p))); [|right; lia].
  destruct (Z_lt_dec (y2idx g (snd p)) (size_y g)); [|right; lia].
  destruct (Z_lt_dec (p2l thr)
              (cell g (x2idx g (fst p)) (y2idx g (snd p)))); [left|right]; lia.
Qed.

(** The march over [n] points it goes on over, to a point where it stops:
    what the loop leaves behind. *)
Lemma ray_march_run g thr max_ray_len A_ :
  sizes_fit_int g -> max_ray_len < two32 ->
  forall n fuel rx ry x y hit fu len,
    0 <= len -> len + Z.of_nat n <= max_ray_len ->
    (n <= fuel)%nat ->
    (forall k, (k < n)%nat ->
       passes g thr (Nat.iter k (ray_step g A_) (rx, ry))) ->
    let p := Nat.iter n (ray_step g A_) (rx, ry) in
    ~ passes g thr p \/ len + Z.of_nat n = max_ray_len ->
    exists x' y' hit',
      ray_march fuel g (p2l thr) max_ray_len
        (fmul64 (cos A_) (double_of_float (resolution g)))
        (fmul64 (sin A_) (double_of_float (resolution g)))
        rx ry x y hit fu len
      = Returns {| exit_x := x'; exit_y := y'; exit_hitCellOcc_int := hit';
                   exit_firstUnknownCellDist :=
                     unknown_dist g A_ n (rx, ry) len fu;
                   exit_ray_len := len + Z.of_nat n |}
      /\ x' = x2idx g (fst p)
      /\ (0 <= x2idx g (fst p) -> y' = y2idx g (snd p))
      /\ (inside g p -> hit' = cell g (x2idx g (fst p)) (y2idx g (snd p))).
Proof.
  intros Hg Hmax.
  induction n as [|n IH]; intros fuel rx ry x y hit fu len Hlen Hn Hfuel Hon p Hstop.
  - subst p. cbn [Nat.iter unknown_dist] in *. rewrite Z.add_0_r in *.
    destruct (passes_dec g thr (rx, ry)) as [Hp|Hp].
    + destruct Hstop as [Hs|Hs]; [contradiction|]. subst len.
      rewrite ray_march_on by assumption. rewrite Z.ltb_irrefl.
      eexists _, _, _. split; [reflexivity|]. auto.
    + destruct (ray_march_off g thr max_ray_len
                  (fmul64 (cos A_) (double_of_float (resolution g)))
                  (fmul64 (sin A_) (double_of_float (resolution g)))
                  fuel rx ry x y hit fu len Hg Hp)
        as (y' & hit' & -> & Hy & Hh & _).
      eexists _, _, _. split; [reflexivity|]. auto.
  - destruct fuel as [|fuel]; [lia|].
    rewrite ray_march_on by (try assumption; apply (Hon 0%nat); lia).
    destruct (Z.ltb_spec len max_ray_len); [|lia].
    rewrite (to_unsigned_small (len + 1)) by (unfold two32 in *; lia).
    subst p. rewrite Nat.iter_succ_r in *.
    replace (len + Z.of_nat (S n)) with (len + 1 + Z.of_nat n) in * by lia.
    cbn [unknown_dist fst snd].
    apply IH; try lia.
    + intros k Hk. specialize (Hon (S k) ltac:(lia)).
      rewrite Nat.iter_succ_r in Hon. exact Hon.
    + exact Hstop.
Qed.

(** The march always stops that way: after some [n] points it went on
    over, at a point where it does not go on or at the range limit. *)
Lemma ray_march_stops g thr max_ray_len A_ :
  sizes_fit_int g ->
  forall m rx ry len,
    0 <= len -> len + Z.of_nat m = max_ray_len ->
    exists n,
      (n <= m)%nat
      /\ (forall k, (k < n)%nat ->
            passes g thr (Nat.iter k (ray_step g A_) (rx, ry)))
      /\ (~ passes g thr (Nat.iter n (ray_step g A_) (rx, ry))
          \/ len + Z.of_nat n = max_ray_len).
Proof.
  intros Hg.
  induction m as [|m IH]; intros rx ry len Hlen Hm.
  - exists 0%nat. split; [lia|]. split; [intros k Hk; lia|]. right. lia.
  - destruct (passes_dec g thr (rx, ry)) as [Hp|Hp].
    + destruct (IH (fst (ray_step g A_ (rx, ry))) (snd (ray_step g A_ (rx, ry)))
                  (len + 1) ltac:(lia) ltac:(lia)) as (n & Hn & Hon & Hstop).
      rewrite <- surjective_pairing in Hon, Hstop.
      exists (S n). split; [lia|]. split.
      * intros k Hk. destruct k as [|k]; [exact Hp|].
        rewrite Nat.iter_succ_r. apply Hon. lia.
      * rewrite Nat.iter_succ_r. destruct Hstop as [Hs|Hs]; [left; exact Hs|].
        right. lia.
    + exists 0%nat. split; [lia|]. split; [intros k Hk; lia|]. left. exact Hp.
Qed.

(** Along known cells [firstUnknownCellDist] keeps its value. *)
Lemma unknown_dist_known g A_ n :
  forall p len fu,
    (forall k, (k < n)%nat ->
       let q := Nat.iter k (ray_step g A_) p in
       1 < Z.abs (cell g (x2idx g (fst q)) (y2idx g (snd q)))) ->
    unknown_dist g A_ n p len fu = fu.
Proof.
  induction n as [|n IH]; intros p len fu Hknown; [reflexivity|].
  cbn [unknown_dist].
  pose proof (Hknown 0%nat ltac:(lia)) as H0. cbn in H0.
  destruct (Z.leb_spec (Z.abs (cell g (x2idx g (fst p)) (y2idx g (snd p)))) 1);
    [lia|].
  apply IH. intros k Hk. specialize (Hknown (S k) ltac:(lia)).
  cbv zeta in *. rewrite Nat.iter_succ_r in Hknown. exact Hknown.
Qed.

(** [firstUnknownCellDist] never grows, and never falls below the smaller
    of its initial value and [ray_len]. *)
Lemma unknown_dist_bounds g A_ n :
  forall p len fu,
    Z.min fu len <= unknown_dist g A_ n p len fu <= fu.
Proof.
  induction n as [|n IH]; intros p len fu; cbn [unknown_dist]; [lia|].
  destruct (Z.abs _ <=? 1).
  - specialize (IH (ray_step g A_ p) (len + 1) (Z.min fu len)). lia.
  - specialize (IH (ray_step g A_ p) (len + 1) fu). lia.
Qed.

(** Once set to [ray_len] on an unknown cell, it stays. *)
Lemma unknown_dist_first g A_ n :
  forall p len fu j,
    (j < n)%nat ->
    len + Z.of_nat j < fu ->
    (forall k, (k < j)%nat ->
       let q := Nat.iter k (ray_step g A_) p in
       1 < Z.abs (cell g (x2idx g (fst q)) (y2idx g (snd q)))) ->
    (let q := Nat.iter j (ray_step g A_) p in
     Z.abs (cell g (x2idx g (fst q)) (y2idx g (snd q))) <= 1) ->
    unknown_dist g A_ n p len fu = len + Z.of_nat j.
Proof.
  induction n as [|n IH]; intros p len fu j Hj Hfu Hknown Hunknown; [lia|].
  cbn [unknown_dist]. destruct j as [|j].
  - cbn in Hunknown.
    destruct (Z.leb_spec (Z.abs (cell g (x2idx g (fst p)) (y2idx g (snd p)))) 1);
      [|lia].
    pose proof (unknown_dist_bounds g A_ n (ray_step g A_ p) (len + 1)
                  (Z.min fu len)). lia.
  - pose proof (Hknown 0%nat ltac:(lia)) as H0. cbn in H0.
    destruct (Z.leb_spec (Z.abs (cell g (x2idx g (fst p)) (y2idx g (snd p)))) 1);
      [lia|].
    rewrite (IH (ray_step g A_ p) (len + 1) fu j); try lia.
    + intros k Hk. specialize (Hknown (S k) ltac:(lia)).
      cbv zeta in *. rewrite Nat.iter_succ_r in Hknown. exact Hknown.
    + cbv zeta in *. rewrite Nat.iter_succ_r in Hunknown. exact Hunknown.
Qed.

End MarchFacts.

Section RayFacts.
Context `{SimExternals}.

Lemma simulateScanRay_report g start_x start_y angle_direction max_ray_len
    threshold_free noiseStd angleNoiseStd rng :
  fgt angleNoiseStd fzero = false ->
  simulateScanRay g start_x start_y angle_direction max_ray_len
    threshold_free noiseStd angleNoiseStd rng
  = (e ← ray_march (Z.to_nat max_ray_len) g (p2l threshold_free) max_ray_len
           (fmul64 (cos (fadd64 angle_direction fzero))
              (double_of_float (resolution g)))
           (fmul64 (sin (fadd64 angle_direction fzero))
              (double_of_float (resolution g)))
           start_x start_y 0 (y2idx g start_y) 0
           (to_unsigned (max_ray_len + 1)) 0;
     ray_report g max_ray_len noiseStd rng e).
Proof. intros Hangle. unfold simulateScanRay. rewrite Hangle. reflexivity. Qed.

(** [simulateScanRay] through the march: after [n] points the march goes
    on over, to a point where it stops. *)
Lemma simulateScanRay_run g start_x start_y angle_direction max_ray_len
    threshold_free noiseStd angleNoiseStd rng n :
  sizes_fit_int g -> 0 <= max_ray_len < two32 ->
  fgt angleNoiseStd fzero = false ->
  Z.of_nat n <= max_ray_len ->
  (forall k, (k < n)%nat ->
     passes g threshold_free
       (ray_point g start_x start_y (fadd64 angle_direction fzero) k)) ->
  let p := ray_point g start_x start_y (fadd64 angle_direction fzero) n in
  ~ passes g threshold_free p \/ Z.of_nat n = max_ray_len ->
  exists x' y' hit',
    simulateScanRay g start_x start_y angle_direction max_ray_len
      threshold_free noiseStd angleNoiseStd rng
    = ray_report g max_ray_len noiseStd rng
        {| exit_x := x'; exit_y := y'; exit_hitCellOcc_int := hit';
           exit_firstUnknownCellDist :=
             unknown_dist g (fadd64 angle_direction fzero) n
               (start_x, start_y) 0 (to_unsigned (max_ray_len + 1));
           exit_ray_len := Z.of_nat n |}
    /\ x' = x2idx g (fst p)
    /\ (0 <= x2idx g (fst p) -> y' = y2idx g (snd p))
    /\ (inside g p -> hit' = cell g (x2idx g (fst p)) (y2idx g (snd p))).
Proof.
  intros Hg Hmax Hangle Hn Hon p Hstop.
  rewrite simulateScanRay_report by exact Hangle.
  destruct (ray_march_run g threshold_free max_ray_len
              (fadd64 angle_direction fzero) Hg ltac:(lia)
              n (Z.to_nat max_ray_len) start_x start_y 0 (y2idx g start_y) 0
              (to_unsigned (max_ray_len + 1)) 0)
    as (x' & y' & hit' & -> & Hx & Hy & Hh); try lia; try assumption.
  exists x', y', hit'. cbn [mbind outcome_bind bind]. rewrite Z.add_0_l. auto.
Qed.

(** The [unsigned] tests after the loop, for [int] indices. *)
Lemma unsigned_inside g x y :
  sizes_fit_int g ->
  - 2 ^ 31 <= x < 2 ^ 31 -> - 2 ^ 31 <= y < 2 ^ 31 ->
  ((size_x g <=? to_unsigned x) || (size_y g <=? to_unsigned y) = false
   <-> 0 <= x < size_x g /\ 0 <= y < size_y g).
Proof.
  intros (Hsx & Hsy) Hx Hy.
  assert (Hu : forall v, - 2 ^ 31 <= v < 2 ^ 31 ->
            to_unsigned v = if v <? 0 then v + 2 ^ 32 else v).
  { intros v Hv. unfold to_unsigned, two32.
    destruct (Z.ltb_spec v 0).
    - symmetry. apply Z.mod_unique_pos with (q := -1); lia.
    - apply Z.mod_small. lia. }
  rewrite (Hu x Hx), (Hu y Hy). rewrite orb_false_iff.
  destruct (Z.ltb_spec x 0); destruct (Z.ltb_spec y 0);
    rewrite !Z.leb_gt; lia.
Qed.

(** X1. A ray that goes on over [n] cells and then meets an obstacle (a
    known cell of the grid that is not freer than the threshold), with
    [n < max_ray_len], is reported valid; with no noise its range is
    [n * resolution]. *)
Theorem simulateScanRay_hit
    g start_x start_y angle_direction max_ray_len threshold_free
    noiseStd angleNoiseStd rng n :
  sizes_fit_int g -> 0 <= max_ray_len < two32 ->
  fgt angleNoiseStd fzero = false -> fgt noiseStd fzero = false ->
  Z.of_nat n < max_ray_len ->
  (forall k, (k < n)%nat ->
     passes g threshold_free
       (ray_point g start_x start_y (fadd64 angle_direction fzero) k)) ->
  obstacle g threshold_free
    (ray_point g start_x start_y (fadd64 angle_direction fzero) n) ->
  simulateScanRay g start_x start_y angle_direction max_ray_len
    threshold_free noiseStd angleNoiseStd rng
  = Returns (fmul32 (float_of_Z (Z.of_nat n)) (resolution g), true, rng).
Proof.
  intros Hg Hmax Hangle Hnoise Hn Hon (Hin & Hocc & Hknown).
  destruct (simulateScanRay_run g start_x start_y angle_direction max_ray_len
              threshold_free noiseStd angleNoiseStd rng n Hg Hmax Hangle
              ltac:(lia) Hon)
    as (x' & y' & hit' & -> & -> & Hy & Hh).
  { left. unfold passes. lia. }
  destruct Hin as (Hx & Hy'). rewrite (Hy ltac:(lia)), (Hh (conj Hx Hy')).
  set (p := ray_point g start_x start_y (fadd64 angle_direction fzero) n) in *.
  unfold ray_report.
  cbn [exit_x exit_y exit_hitCellOcc_int exit_firstUnknownCellDist exit_ray_len].
  destruct Hg as (Hsx & Hsy).
  rewrite !to_unsigned_small by (unfold two32; lia).
  destruct (Z.leb_spec (Z.abs (cell g (x2idx g (fst p)) (y2idx g (snd p)))) 1);
    [lia|].
  destruct (Z.leb_spec (size_x g) (x2idx g (fst p))); [lia|].
  destruct (Z.leb_spec (size_y g) (y2idx g (snd p))); [lia|].
  cbn [orb]. rewrite Hnoise. cbn [andb].
  destruct (Z.ltb_spec (Z.of_nat n) max_ray_len); [reflexivity|lia].
Qed.

(** X2. A ray that runs over [n] free, known cells and then leaves the
    grid is reported invalid, with range [n * resolution], whatever the
    range noise. *)
Theorem simulateScanRay_leaves_grid
    g start_x start_y angle_direction max_ray_len threshold_free
    noiseStd angleNoiseStd rng n :
  sizes_fit_int g -> int_valued g -> 0 <= max_ray_len < two32 - 1 ->
  fgt angleNoiseStd fzero = false ->
  Z.of_nat n <= max_ray_len ->
  (forall k, (k < n)%nat ->
     free_known g threshold_free
       (ray_point g start_x start_y (fadd64 angle_direction fzero) k)) ->
  ~ inside g (ray_point g start_x start_y (fadd64 angle_direction fzero) n) ->
  simulateScanRay g start_x start_y angle_direction max_ray_len
    threshold_free noiseStd angleNoiseStd rng
  = Returns (fmul32 (float_of_Z (Z.of_nat n)) (resolution g), false, rng).
Proof.
  intros Hg Hint Hmax Hangle Hn Hfree Hout.
  destruct (simulateScanRay_run g start_x start_y angle_direction max_ray_len
              threshold_free noiseStd angleNoiseStd rng n Hg
              ltac:(unfold two32 in *; lia) Hangle Hn)
    as (x' & y' & hit' & -> & -> & Hy & _).
  { intros k Hk. destruct (Hfree k Hk) as (Hi & Hf & _). split; assumption. }
  { left. intros (Hi & _). contradiction. }
  unfold ray_report.
  cbn [exit_x exit_y exit_hitCellOcc_int exit_firstUnknownCellDist exit_ray_len].
  rewrite unknown_dist_known.
  2: { intros k Hk. destruct (Hfree k Hk) as (_ & _ & Hkn). exact Hkn. }
  rewrite (to_unsigned_small (max_ray_len + 1)) by (unfold two32 in *; lia).
  destruct (Z.ltb_spec (max_ray_len + 1) (Z.of_nat n)); [lia|].
  set (p := ray_point g start_x start_y (fadd64 angle_direction fzero) n) in *.
  assert (Hor : (size_x g <=? to_unsigned (x2idx g (fst p)))
                || (size_y g <=? to_unsigned y') = true).
  { destruct (Hint (fst p)) as (Hxr & _). destruct (Hint (snd p)) as (_ & Hyr).
    destruct (Z_le_dec 0 (x2idx g (fst p))) as [Hx0|Hx0].
    - rewrite (Hy Hx0).
      destruct ((size_x g <=? to_unsigned (x2idx g (fst p)))
                || (size_y g <=? to_unsigned (y2idx g (snd p)))) eqn:E;
        [reflexivity|].
      apply (unsigned_inside g _ _ Hg Hxr Hyr) in E. contradiction.
    - apply orb_true_iff. left. apply Z.leb_le.
      destruct Hg as (Hsx & _). unfold to_unsigned, two32.
      replace (x2idx g (fst p) mod 2 ^ 32) with (x2idx g (fst p) + 2 ^ 32);
        [lia|].
      apply Z.mod_unique_pos with (q := -1); lia. }
  rewrite <- orb_assoc, Hor, orb_true_r. reflexivity.
Qed.

(** X3. The report of a ray that met an unknown cell. The ray runs over
    free, known cells to a first unknown cell of the grid at step [j], and
    its march stops after [n >= j] steps, at the point [p]. The result is
    valid exactly when [p] is an obstacle below the range limit. An invalid
    result draws no random number and reports the range [j * resolution],
    the distance of the first unknown cell, however far the ray went on,
    with one exception: when the march ended at the range limit in a known
    cell of the grid, it reports [max_ray_len * resolution]. In particular
    a march that stops on the unknown cell itself is invalid with range
    [j * resolution]. *)
Theorem simulateScanRay_first_unknown_cell
    g start_x start_y angle_direction max_ray_len threshold_free
    noiseStd angleNoiseStd rng j n :
  sizes_fit_int g -> int_valued g -> 0 <= max_ray_len < two32 - 1 ->
  fgt angleNoiseStd fzero = false ->
  (j <= n)%nat -> Z.of_nat n <= max_ray_len ->
  (forall k, (k < j)%nat ->
     free_known g threshold_free
       (ray_point g start_x start_y (fadd64 angle_direction fzero) k)) ->
  let q := ray_point g start_x start_y (fadd64 angle_direction fzero) j in
  inside g q ->
  Z.abs (cell g (x2idx g (fst q)) (y2idx g (snd q))) <= 1 ->
  (forall k, (k < n)%nat ->
     passes g threshold_free
       (ray_point g start_x start_y (fadd64 angle_direction fzero) k)) ->
  let p := ray_point g start_x start_y (fadd64 angle_direction fzero) n in
  ~ passes g threshold_free p \/ Z.of_nat n = max_ray_len ->
  let known_at_limit :=
    Z.of_nat n = max_ray_len /\ inside g p
    /\ 1 < Z.abs (cell g (x2idx g (fst p)) (y2idx g (snd p))) in
  exists out_range out_valid rng',
    simulateScanRay g start_x start_y angle_direction max_ray_len
      threshold_free noiseStd angleNoiseStd rng
    = Returns (out_range, out_valid, rng')
    /\ (out_valid = true <->
        Z.of_nat n < max_ray_len /\ obstacle g threshold_free p)
    /\ (out_valid = false ->
        rng' = rng
        /\ (known_at_limit ->
            out_range = fmul32 (float_of_Z max_ray_len) (resolution g))
        /\ (~ known_at_limit ->
            out_range = fmul32 (float_of_Z (Z.of_nat j)) (resolution g)))
    /\ (n = j ->
        out_valid = false
        /\ out_range = fmul32 (float_of_Z (Z.of_nat j)) (resolution g)).
Proof.
  intros Hg Hint Hmax Hangle Hjn Hn Hfree q Hin Hunknown Hon p Hstop
    known_at_limit.
  assert (Hmax' : 0 <= max_ray_len < two32) by (unfold two32 in *; lia).
  set (A_ := fadd64 angle_direction fzero) in *.
  assert (Hknown : forall k, (k < j)%nat ->
            let r := Nat.iter k (ray_step g A_) (start_x, start_y) in
            1 < Z.abs (cell g (x2idx g (fst r)) (y2idx g (snd r)))).
  { intros k Hk. destruct (Hfree k Hk) as (_ & _ & Hkn). exact Hkn. }
  destruct (simulateScanRay_run g start_x start_y angle_direction max_ray_len
              threshold_free noiseStd angleNoiseStd rng n Hg Hmax' Hangle
              Hn Hon Hstop)
    as (x' & y' & hit' & Heq & Hx & Hy & Hh).
  fold A_ in Heq, Hx, Hy, Hh. fold p in Hx, Hy, Hh. rewrite Heq. clear Heq.
  (* the value of [firstUnknownCellDist] when the loop is left *)
  assert (Hfu : unknown_dist g A_ n (start_x, start_y) 0
                  (to_unsigned (max_ray_len + 1))
                = if Nat.eq_dec n j then max_ray_len + 1 else Z.of_nat j).
  { rewrite (to_unsigned_small (max_ray_len + 1))
      by (unfold two32 in *; lia).
    destruct (Nat.eq_dec n j) as [->|Hne].
    - apply unknown_dist_known. exact Hknown.
    - rewrite (unknown_dist_first g A_ n (start_x, start_y) 0
                 (max_ray_len + 1) j) by (try lia; assumption).
      lia. }
  (* the test on the indices after the loop *)
  assert (Hidx : (size_x g <=? to_unsigned x') || (size_y g <=? to_unsigned y')
                 = false <-> inside g p).
  { destruct (Hint (fst p)) as (Hxr & _). destruct (Hint (snd p)) as (_ & Hyr).
    subst x'. destruct (Z_le_dec 0 (x2idx g (fst p))) as [Hx0|Hx0].
    - rewrite (Hy Hx0). apply (unsigned_inside g _ _ Hg Hxr Hyr).
    - split.
      + intros Hf. apply orb_false_iff in Hf. destruct Hf as (Hf & _).
        apply Z.leb_gt in Hf. destruct Hg as (Hsx & _).
        unfold to_unsigned, two32 in Hf.
        replace (x2idx g (fst p) mod 2 ^ 32) with (x2idx g (fst p) + 2 ^ 32)
          in Hf; [lia|].
        apply Z.mod_unique_pos with (q := -1); lia.
      + intros ((Hc & _) & _). lia. }
  unfold ray_report.
  cbn [exit_x exit_y exit_hitCellOcc_int exit_firstUnknownCellDist exit_ray_len].
  rewrite Hfu. clear Hfu.
  destruct ((size_x g <=? to_unsigned x') || (size_y g <=? to_unsigned y'))
    eqn:Hout.
  - (* the ray has left the grid *)
    assert (Hnin : ~ inside g p).
    { intros Hi. apply Hidx in Hi. congruence. }
    assert (Hne : n <> j) by (intros ->; contradiction).
    rewrite <- orb_assoc, Hout, orb_true_r.
    destruct (Nat.eq_dec n j) as [|_]; [contradiction|].
    destruct (Z.ltb_spec (Z.of_nat j) (Z.of_nat n)); [|lia].
    eexists _, _, _. split; [reflexivity|]. split; [|split].
    + split; [discriminate|]. intros (_ & Hi & _). contradiction.
    + intros _. split; [reflexivity|]. split.
      * intros (_ & Hi & _). contradiction.
      * reflexivity.
    + intros ->. contradiction.
  - assert (Hi : inside g p) by (apply Hidx; reflexivity).
    rewrite <- orb_assoc, Hout, orb_false_r, (Hh Hi).
    destruct (Z.leb_spec (Z.abs (cell g (x2idx g (fst p)) (y2idx g (snd p)))) 1)
      as [Hunk|Hkn].
    + (* the march stopped on an unknown cell *)
      assert (Hrange :
                (if (if Nat.eq_dec n j then max_ray_len + 1 else Z.of_nat j)
                    <? Z.of_nat n
                 then fmul32 (float_of_Z
                                (if Nat.eq_dec n j then max_ray_len + 1
                                 else Z.of_nat j)) (resolution g)
                 else fmul32 (float_of_Z (Z.of_nat n)) (resolution g))
                = fmul32 (float_of_Z (Z.of_nat j)) (resolution g)).
      { destruct (Nat.eq_dec n j) as [->|Hne].
        - destruct (Z.ltb_spec (max_ray_len + 1) (Z.of_nat j)); [lia|].
          reflexivity.
        - destruct (Z.ltb_spec (Z.of_nat j) (Z.of_nat n)); [|lia].
          reflexivity. }
      rewrite Hrange.
      eexists _, _, _. split; [reflexivity|]. split; [|split].
      * split; [discriminate|]. intros (_ & _ & _ & Hk). lia.
      * intros _. split; [reflexivity|]. split.
        -- intros (_ & _ & Hk). lia.
        -- reflexivity.
      * intros _. split; reflexivity.
    + (* the march stopped on a known cell of the grid *)
      assert (Hne : n <> j).
      { intros ->. subst p q. lia. }
      destruct (Z.ltb_spec (Z.of_nat n) max_ray_len) as [Hlt|Hge].
      * (* an obstacle below the range limit: valid *)
        assert (Hobs : obstacle g threshold_free p).
        { split; [exact Hi|]. split; [|exact Hkn].
          destruct Hstop as [Hs|Hs]; [|lia].
          apply Z.nlt_ge. intros Hc. apply Hs. split; assumption. }
        destruct (fgt noiseStd fzero); cbn [andb].
        -- destruct (drawGaussian1D_normalized rng) as [r rng'].
           eexists _, _, _. split; [reflexivity|]. split; [|split].
           ++ split; [auto | reflexivity].
           ++ discriminate.
           ++ intros ->. contradiction.
        -- eexists _, _, _. split; [reflexivity|]. split; [|split].
           ++ split; [auto | reflexivity].
           ++ discriminate.
           ++ intros ->. contradiction.
      * (* a known cell at the range limit *)
        rewrite andb_false_r.
        eexists _, _, _. split; [reflexivity|]. split; [|split].
        -- split; [discriminate|]. intros (Hc & _). lia.
        -- intros _. split; [reflexivity|]. split.
           ++ intros _. replace max_ray_len with (Z.of_nat n) by lia.
              reflexivity.
           ++ intros Hnk. exfalso. apply Hnk.
              split; [lia|]. split; [exact Hi | exact Hkn].
        -- intros ->. contradiction.
Qed.

End RayFacts.

Section RayBounds.
Context `{SimExternals}.

(** [ray_len] never passes [max_ray_len], and [firstUnknownCellDist] never
    becomes negative. *)
Lemma ray_march_bounds g thr max_ray_len Arx Ary :
  max_ray_len < two32 ->
  forall fuel rx ry x y hit fu len e,
    0 <= len <= max_ray_len -> 0 <= fu ->
    ray_march fuel g thr max_ray_len Arx Ary rx ry x y hit fu len = Returns e ->
    len <= exit_ray_len e <= max_ray_len /\ 0 <= exit_firstUnknownCellDist e.
Proof.
  intros Hmax.
  induction fuel as [|fuel IH]; intros rx ry x y hit fu len e Hlen Hfu;
    cbn [ray_march].
  all: repeat match goal with
         | |- context [if negb ?c then _ else _] =>
             destruct c eqn:?; cbn [negb];
             [| intros [= <-]; cbn; lia]
         end.
  - discriminate.
  - match goal with Hlt : (len <? max_ray_len) = true |- _ =>
      apply Z.ltb_lt in Hlt end.
    rewrite (to_unsigned_small (len + 1)) by (unfold two32 in *; lia).
    intros Hm. apply IH in Hm; [lia | lia |].
    destruct (Z.abs _ <=? 1); lia.
Qed.

(** X4. Without range noise, the reported range is [k * resolution] for a
    number of cells [0 <= k <= max_ray_len], and [k < max_ray_len] when the
    ray is valid: no ray is reported beyond the range limit, and none as
    valid at the limit. This holds on every grid and for every direction,
    angular noise included. *)
Theorem simulateScanRay_range_within_limit
    g start_x start_y angle_direction max_ray_len threshold_free
    noiseStd angleNoiseStd rng :
  0 <= max_ray_len < two32 ->
  fgt noiseStd fzero = false ->
  exists k out_valid rng',
    simulateScanRay g start_x start_y angle_direction max_ray_len
      threshold_free noiseStd angleNoiseStd rng
    = Returns (fmul32 (float_of_Z k) (resolution g), out_valid, rng')
    /\ 0 <= k <= max_ray_len
    /\ (out_valid = true -> k < max_ray_len).
Proof.
  intros Hmax Hnoise. unfold simulateScanRay.
  destruct (if fgt angleNoiseStd fzero then _ else _) as [angle_noise rng1].
  match goal with
  | |- context [ray_march ?f ?g ?t ?m ?ax ?ay ?rx ?ry ?x ?y ?h ?fu ?l] =>
      destruct (ray_march_returns g t m ax ay ltac:(lia) f rx ry x y h fu l)
        as (e & He);
      [lia | rewrite Z.sub_0_r; apply Nat.le_refl |];
      pose proof (ray_march_bounds g t m ax ay ltac:(lia) f rx ry x y h fu l e
                    ltac:(lia) ltac:(apply to_unsigned_range) He) as (Hl & Hf);
      rewrite He
  end.
  cbn [mbind outcome_bind bind]. rewrite Hnoise. cbn [andb].
  destruct (_ || _ || _).
  - destruct (Z.ltb_spec (exit_firstUnknownCellDist e) (exit_ray_len e)).
    + exists (exit_firstUnknownCellDist e), false, rng1.
      split; [reflexivity|]. split; [lia | discriminate].
    + exists (exit_ray_len e), false, rng1.
      split; [reflexivity|]. split; [lia | discriminate].
  - exists (exit_ray_len e), (exit_ray_len e <? max_ray_len), rng1.
    split; [reflexivity|]. split; [lia|]. intros Hv. apply Z.ltb_lt. exact Hv.
Qed.

(** A ray that meets an obstacle below the range limit is valid, whatever
    the range noise. *)
Lemma simulateScanRay_valid_on_obstacle
    g start_x start_y angle_direction max_ray_len threshold_free
    noiseStd angleNoiseStd rng n :
  sizes_fit_int g -> 0 <= max_ray_len < two32 ->
  fgt angleNoiseStd fzero = false ->
  Z.of_nat n < max_ray_len ->
  (forall k, (k < n)%nat ->
     passes g threshold_free
       (ray_point g start_x start_y (fadd64 angle_direction fzero) k)) ->
  obstacle g threshold_free
    (ray_point g start_x start_y (fadd64 angle_direction fzero) n) ->
  exists out_range rng',
    simulateScanRay g start_x start_y angle_direction max_ray_len
      threshold_free noiseStd angleNoiseStd rng
    = Returns (out_range, true, rng').
Proof.
  intros Hg Hmax Hangle Hn Hon (Hin & Hocc & Hknown).
  destruct (simulateScanRay_run g start_x start_y angle_direction max_ray_len
              threshold_free noiseStd angleNoiseStd rng n Hg Hmax Hangle
              ltac:(lia) Hon)
    as (x' & y' & hit' & -> & -> & Hy & Hh).
  { left. unfold passes. lia. }
  destruct Hin as (Hx & Hy'). rewrite (Hy ltac:(lia)), (Hh (conj Hx Hy')).
  set (p := ray_point g start_x start_y (fadd64 angle_direction fzero) n) in *.
  unfold ray_report.
  cbn [exit_x exit_y exit_hitCellOcc_int exit_firstUnknownCellDist exit_ray_len].
  destruct Hg as (Hsx & Hsy).
  rewrite !to_unsigned_small by (unfold two32; lia).
  destruct (Z.leb_spec (Z.abs (cell g (x2idx g (fst p)) (y2idx g (snd p)))) 1);
    [lia|].
  destruct (Z.leb_spec (size_x g) (x2idx g (fst p))); [lia|].
  destruct (Z.leb_spec (size_y g) (y2idx g (snd p))); [lia|].
  cbn [orb].
  destruct (Z.ltb_spec (Z.of_nat n) max_ray_len); [|lia].
  destruct (fgt noiseStd fzero); cbn [andb]; [|eauto].
  destruct (drawGaussian1D_normalized rng). eauto.
Qed.

(** X5. A ray is reported valid exactly when its march goes on over some
    [n < max_ray_len] cells of the grid and then stops on an obstacle: a
    cell of the grid that is known and not freer than the threshold. A ray
    that leaves the grid, ends in an unknown cell or reaches the range
    limit is never valid. *)
Theorem simulateScanRay_valid_iff_obstacle
    g start_x start_y angle_direction max_ray_len threshold_free
    noiseStd angleNoiseStd rng :
  sizes_fit_int g -> int_valued g -> 0 <= max_ray_len < two32 ->
  fgt angleNoiseStd fzero = false ->
  exists out_range out_valid rng',
    simulateScanRay g start_x start_y angle_direction max_ray_len
      threshold_free noiseStd angleNoiseStd rng
    = Returns (out_range, out_valid, rng')
    /\ (out_valid = true <->
        exists n,
          Z.of_nat n < max_ray_len
          /\ (forall k, (k < n)%nat ->
                passes g threshold_free
                  (ray_point g start_x start_y
                     (fadd64 angle_direction fzero) k))
          /\ obstacle g threshold_free
               (ray_point g start_x start_y (fadd64 angle_direction fzero) n)).
Proof.
  intros Hg Hint Hmax Hangle.
  destruct (simulateScanRay_returns g start_x start_y angle_direction
              max_ray_len threshold_free noiseStd angleNoiseStd rng Hmax)
    as (out_range & out_valid & rng' & Hres).
  exists out_range, out_valid, rng'. split; [exact Hres|]. split.
  - intros ->.
    set (A_ := fadd64 angle_direction fzero) in *.
    destruct (ray_march_stops g threshold_free max_ray_len A_ Hg
                (Z.to_nat max_ray_len) start_x start_y 0 ltac:(lia) ltac:(lia))
      as (n & Hnm & Hon & Hstop).
    fold (ray_point g start_x start_y A_) in Hon.
    fold (ray_point g start_x start_y A_ n) in Hstop.
    destruct (simulateScanRay_run g start_x start_y angle_direction
                max_ray_len threshold_free noiseStd angleNoiseStd rng n Hg Hmax
                Hangle ltac:(lia) Hon)
      as (x' & y' & hit' & Heq & Hx & Hy & Hh).
    { destruct Hstop as [Hs|Hs]; [left; exact Hs | right; lia]. }
    fold A_ in Heq, Hx, Hy, Hh. rewrite Heq in Hres. clear Heq.
    set (p := ray_point g start_x start_y A_ n) in *.
    unfold ray_report in Hres.
    cbn [exit_x exit_y exit_hitCellOcc_int exit_firstUnknownCellDist
         exit_ray_len] in Hres.
    destruct (Z.leb_spec (Z.abs hit') 1) as [|Hknown];
      [cbn [orb] in Hres; discriminate|].
    cbn [orb] in Hres.
    destruct ((size_x g <=? to_unsigned x') || (size_y g <=? to_unsigned y'))
      eqn:Hin; [discriminate|].
    assert (Hlt : Z.of_nat n < max_ray_len).
    { destruct (Z.ltb_spec (Z.of_nat n) max_ray_len) as [Hl|Hl]; [exact Hl|].
      rewrite andb_false_r in Hres. discriminate. }
    destruct (Hint (fst p)) as (Hxr & _). destruct (Hint (snd p)) as (_ & Hyr).
    assert (Hx0 : 0 <= x2idx g (fst p)).
    { destruct (Z_le_dec 0 (x2idx g (fst p))) as [Hle|Hneg]; [exact Hle|].
      exfalso. apply orb_false_iff in Hin. destruct Hin as (Hin & _).
      apply Z.leb_gt in Hin. subst x'. destruct Hg as (Hsx & _).
      unfold to_unsigned, two32 in Hin.
      replace (x2idx g (fst p) mod 2 ^ 32) with (x2idx g (fst p) + 2 ^ 32)
        in Hin; [lia|].
      apply Z.mod_unique_pos with (q := -1); lia. }
    rewrite (Hy Hx0) in Hin. subst x'.
    apply (unsigned_inside g _ _ Hg Hxr Hyr) in Hin.
    assert (Hinside : inside g p) by exact Hin.
    rewrite (Hh Hinside) in Hknown.
    exists n. split; [exact Hlt|]. split; [exact Hon|].
    split; [exact Hinside|]. split; [|exact Hknown].
    destruct Hstop as [Hs|Hs]; [|lia].
    apply Z.nlt_ge. intros Hc. apply Hs. split; [exact Hinside | exact Hc].
  - intros (n & Hn & Hon & Hobs).
    destruct (simulateScanRay_valid_on_obstacle g start_x start_y
                angle_direction max_ray_len threshold_free noiseStd
                angleNoiseStd rng n Hg Hmax Hangle Hn Hon Hobs)
      as (r & rng2 & Heq).
    rewrite Heq in Hres. injection Hres as _ <- _. reflexivity.
Qed.

(** Without noise [simulateScanRay] does not depend on the random
    generator and hands it back as it was. *)
Lemma simulateScanRay_noise_free
    g start_x start_y angle_direction max_ray_len threshold_free
    noiseStd angleNoiseStd :
  0 <= max_ray_len < two32 ->
  fgt noiseStd fzero = false -> fgt angleNoiseStd fzero = false ->
  exists out_range out_valid,
    forall rng,
      simulateScanRay g start_x start_y angle_direction max_ray_len
        threshold_free noiseStd angleNoiseStd rng
      = Returns (out_range, out_valid, rng).
Proof.
  intros Hmax Hnoise Hangle. unfold simulateScanRay. rewrite Hangle, Hnoise.
  match goal with
  | |- context [ray_march ?f ?g ?t ?m ?ax ?ay ?rx ?ry ?x ?y ?h ?fu ?l] =>
      destruct (ray_march_returns g t m ax ay ltac:(lia) f rx ry x y h fu l)
        as (e & ->);
      [lia | rewrite Z.sub_0_r; apply Nat.le_refl |]
  end.
  cbn [mbind outcome_bind bind andb].
  destruct (_ || _ || _); eauto.
Qed.

End RayBounds.

(** * Further properties of the two scan simulators *)

(** The order [<] of the floating-point numbers is transitive and
    irreflexive (no number is below a NaN or above one). *)
Ltac cmp_cases :=
  repeat match goal with
    | H : context [Z.compare ?a ?b] |- _ => destruct (Z.compare_spec a b)
    | |- context [Z.compare ?a ?b] => destruct (Z.compare_spec a b)
    | H : context [PosDef.Pos.compare_cont Eq ?a ?b] |- _ =>
        change (PosDef.Pos.compare_cont Eq a b) with (Pos.compare a b) in *;
        destruct (Pos.compare_spec a b)
    | |- context [PosDef.Pos.compare_cont Eq ?a ?b] =>
        change (PosDef.Pos.compare_cont Eq a b) with (Pos.compare a b) in *;
        destruct (Pos.compare_spec a b)
    end.

Lemma flt_trans a b c : flt a b = true -> flt b c = true -> flt a c = true.
Proof.
  unfold flt, SFltb, SFcompare.
  destruct a as [sa|sa| |sa ma ea], b as [sb|sb| |sb mb eb],
           c as [sc|sc| |sc mc ec];
    try discriminate;
    try (destruct sa; try discriminate); try (destruct sb; try discriminate);
    try (destruct sc; try discriminate); try reflexivity; try discriminate.
  all: intros H1 H2; cmp_cases; cbn in *; try discriminate; try reflexivity;
    subst; try lia.
Qed.

Lemma flt_irrefl a : flt a a = false.
Proof.
  unfold flt, SFltb, SFcompare.
  destruct a as [s|s| |s m e]; try destruct s; try reflexivity;
    rewrite Z.compare_refl;
    change (PosDef.Pos.compare_cont Eq m m) with (Pos.compare m m);
    rewrite Pos.compare_refl; reflexivity.
Qed.

Lemma flt_asym a b : flt a b = true -> flt b a = false.
Proof.
  intros Hab. destruct (flt b a) eqn:Hba; [|reflexivity].
  rewrite <- (flt_irrefl a). symmetry. exact (flt_trans a b a Hab Hba).
Qed.

(** After its first iteration, the loop over the rays of a cone ends with a
    value that is the one it started from or a valid ray strictly below it,
    and no valid ray is below that value. *)
Lemma shortest_from_least rays :
  forall i m0, 0 < i ->
    let m := shortest_from i rays m0 in
    (m = m0 \/ flt m m0 = true)
    /\ (m = m0 \/ In (m, true) rays)
    /\ (forall r, In (r, true) rays -> flt r m = false).
Proof.
  induction rays as [|[r v] rest IH]; intros i m0 Hi; cbn [shortest_from].
  - split; [left; reflexivity|]. split; [left; reflexivity|].
    intros r' [].
  - destruct (IH (i + 1) (keep_shortest i v r m0) ltac:(lia))
      as (Hbelow & Hfrom & Hleast).
    set (m := shortest_from (i + 1) rest (keep_shortest i v r m0)) in *.
    unfold keep_shortest in Hbelow, Hfrom.
    destruct (Z.eqb_spec i 0) as [|_]; [lia|]. rewrite orb_false_r in *.
    destruct v; cbn [andb] in *.
    + destruct (flt r m0) eqn:Hr.
      * split; [|split].
        -- right. destruct Hbelow as [->|Hb]; [exact Hr|].
           exact (flt_trans _ _ _ Hb Hr).
        -- right. destruct Hfrom as [->|Hf]; [left; reflexivity | right; exact Hf].
        -- intros r' [[= ->]|Hin]; [|apply Hleast; exact Hin].
           destruct Hbelow as [->|Hb]; [apply flt_irrefl | apply flt_asym, Hb].
      * split; [exact Hbelow|]. split.
        -- destruct Hfrom as [Hf|Hf]; [left; exact Hf | right; right; exact Hf].
        -- intros r' [[= ->]|Hin]; [|apply Hleast; exact Hin].
           destruct Hbelow as [->|Hb]; [exact Hr|].
           destruct (flt r' m) eqn:Hrm; [|reflexivity].
           rewrite <- Hr. symmetry. exact (flt_trans _ _ _ Hrm Hb).
    + split; [exact Hbelow|]. split.
      * destruct Hfrom as [Hf|Hf]; [left; exact Hf | right; right; exact Hf].
      * intros r' [[=]|Hin]. apply Hleast; exact Hin.
Qed.

Lemma shortest_from_first_valid r rest :
  let m := shortest_from 0 ((r, true) :: rest) fzero in
  In (m, true) ((r, true) :: rest)
  /\ (forall r', In (r', true) ((r, true) :: rest) -> flt r' m = false).
Proof.
  assert (Hk : keep_shortest 0 true r fzero = r).
  { unfold keep_shortest. rewrite Z.eqb_refl, orb_true_r. reflexivity. }
  cbn [shortest_from]. rewrite Hk.
  destruct (shortest_from_least rest (0 + 1) r ltac:(lia))
    as (Hbelow & Hfrom & Hleast).
  split.
  - destruct Hfrom as [->|Hf]; [left; reflexivity | right; exact Hf].
  - intros r' [[= ->]|Hin]; [|apply Hleast; exact Hin].
    destruct Hbelow as [->|Hb]; [apply flt_irrefl | apply flt_asym, Hb].
Qed.

Section SonarFacts.
Context `{SimExternals}.

(** X9. When the first ray of a transducer's cone is valid, the distance
    recorded for the transducer is the range of one of the cone's valid
    rays, and no valid ray of the cone has a smaller range: the loop keeps
    the shortest valid range. The identifier and the pose of the transducer
    are kept. *)
Theorem sonar_cone_keeps_shortest_when_first_ray_valid
    g robotPose sensorConeApperture max_ray_len free_thres
    rangeNoiseStd angleNoiseStd m rng r rest :
  fgt sensorConeApperture fzero = true ->
  cone_ray_results (Z.to_nat (cone_nRays sensorConeApperture)) g
    (sensor_on_robot robotPose (sensorPose_ m)) max_ray_len free_thres
    rangeNoiseStd angleNoiseStd (cone_Adir sensorConeApperture)
    (cone_direction (sensor_on_robot robotPose (sensorPose_ m))
       sensorConeApperture) rng
  = Returns ((r, true) :: rest) ->
  exists m' rng',
    sonar_cone g robotPose sensorConeApperture max_ray_len free_thres
      rangeNoiseStd angleNoiseStd m rng = Returns (m', rng')
    /\ sensorID m' = sensorID m /\ sensorPose_ m' = sensorPose_ m
    /\ In (sensedDistance m', true) ((r, true) :: rest)
    /\ (forall r', In (r', true) ((r, true) :: rest) ->
          flt r' (sensedDistance m') = false).
Proof.
  intros Hap Hrays. unfold sonar_cone. rewrite Hap.
  cbn [ASSERT_ mbind outcome_bind bind].
  destruct (cone_rays_shortest g _ max_ray_len free_thres rangeNoiseStd
              angleNoiseStd _ _ 0 _ fzero rng _ Hrays) as (rng' & ->).
  cbn [mbind outcome_bind bind].
  eexists _, rng'. split; [reflexivity|]. cbn [sensorID sensorPose_ sensedDistance].
  split; [reflexivity|]. split; [reflexivity|].
  apply shortest_from_first_valid.
Qed.

End SonarFacts.

Lemma length_resize {A : Type} (n : Z) (d : A) (v : list A) :
  length (resize n d v) = Z.to_nat n.
Proof.
  unfold resize. rewrite length_app, length_take, repeat_length. lia.
Qed.

Section LaserFacts.
Context `{SimExternals}.

(** What the loop of [laserScanSimulator] leaves in the two vectors: their
    lengths, every entry that the counter does not visit, and a 0 or a 1 in
    every flag that it visits. *)
Lemma laser_rays_shape g pose N decimation max_ray_len thr noise anoise AA :
  1 <= decimation -> N + decimation <= two64 ->
  forall fuel i A scan valid rng scan' valid' rng',
    0 <= i ->
    length valid = Z.to_nat N ->
    laser_rays fuel g pose N decimation max_ray_len thr noise anoise AA
      i A scan valid rng = Returns (scan', valid', rng') ->
    length scan' = length scan /\ length valid' = length valid
    /\ (forall j : nat,
          Z.of_nat j < i \/ (Z.of_nat j - i) mod decimation <> 0 ->
          scan' !! j = scan !! j /\ valid' !! j = valid !! j)
    /\ (forall j : nat,
          i <= Z.of_nat j < N -> (Z.of_nat j - i) mod decimation = 0 ->
          valid' !! j = Some 0 \/ valid' !! j = Some 1).
Proof.
  intros Hd Hwrap.
  induction fuel as [|fuel IH];
    intros i A scan valid rng scan' valid' rng' Hi Hlen; cbn [laser_rays].
  - destruct (Z.ltb_spec i N); cbn [negb]; [discriminate|].
    intros [= <- <- <-]. repeat split; lia.
  - destruct (Z.ltb_spec i N) as [HiN|HiN]; cbn [negb];
      [| intros [= <- <- <-]; repeat split; lia].
    destruct (simulateScanRay _ _ _ _ _ _ _ _ _) as [[[r v] rng1]| |];
      cbn [mbind outcome_bind bind]; try discriminate.
    assert (Hsz : to_size_t (i + decimation) = i + decimation).
    { unfold to_size_t. apply Z.mod_small. lia. }
    rewrite Hsz. intros Hrec.
    apply IH in Hrec; [| lia | rewrite length_insert; exact Hlen].
    destruct Hrec as (Hls & Hlv & Hkeep & Hflag).
    rewrite length_insert in Hls. rewrite length_insert in Hlv.
    split; [exact Hls|]. split; [exact Hlv|]. split.
    + intros j Hj.
      assert (Hne : Z.to_nat i <> j).
      { intros <-. rewrite Z2Nat.id in Hj by lia.
        rewrite Z.sub_diag, Z.mod_0_l in Hj by lia. lia. }
      destruct (Hkeep j) as (Hs & Hv).
      { destruct Hj as [Hj|Hj]; [left; lia | right].
        replace (Z.of_nat j - (i + decimation))
          with (Z.of_nat j - i + (-1) * decimation) by lia.
        rewrite Z.mod_add by lia. exact Hj. }
      rewrite Hs, Hv, !list_lookup_insert_ne by exact Hne. split; reflexivity.
    + intros j Hj Hmod.
      destruct (Z.eq_dec (Z.of_nat j) i) as [Heq|Hne].
      * destruct (Hkeep j) as (_ & Hv); [left; lia|].
        rewrite Hv. replace j with (Z.to_nat i) by lia.
        rewrite list_lookup_insert_eq by lia.
        destruct v; [right | left]; reflexivity.
      * assert (Hge : i + decimation <= Z.of_nat j).
        { apply Z.mod_divide in Hmod; [|lia].
          destruct Hmod as (q & Hq).
          assert (1 <= q) by nia. nia. }
        apply Hflag; [lia|].
        replace (Z.of_nat j - (i + decimation))
          with (Z.of_nat j - i + (-1) * decimation) by lia.
        rewrite Z.mod_add by lia. exact Hmod.
Qed.

(** X7. [laserScanSimulator] returns, for every [N >= 2] and
    [decimation >= 1] whose sum fits a [size_t], a scan whose two vectors
    have [N] entries, with the sensor parameters as they were. The entries
    at the indices that are no multiple of [decimation] are not written:
    they are those of the vectors of the call resized to [N] (the old
    values, then 0). The validity flags at the multiples of [decimation]
    are 0 or 1. *)
Theorem laserScanSimulator_output_shape
    g inout_Scan robotPose threshold N noiseStd decimation angleNoiseStd rng :
  2 <= N -> 1 <= decimation -> N + decimation <= two64 ->
  exists out rng',
    laserScanSimulator g inout_Scan robotPose threshold N noiseStd
      decimation angleNoiseStd rng = Returns (out, rng')
    /\ length (scan out) = Z.to_nat N
    /\ length (validRange out) = Z.to_nat N
    /\ aperture out = aperture inout_Scan
    /\ rightToLeft out = rightToLeft inout_Scan
    /\ maxRange out = maxRange inout_Scan
    /\ sensorPose out = sensorPose inout_Scan
    /\ (forall j : nat,
          Z.of_nat j mod decimation <> 0 ->
          scan out !! j = resize N fzero (scan inout_Scan) !! j
          /\ validRange out !! j = resize N 0 (validRange inout_Scan) !! j)
    /\ (forall j : nat,
          Z.of_nat j < N -> Z.of_nat j mod decimation = 0 ->
          validRange out !! j = Some 0 \/ validRange out !! j = Some 1).
Proof.
  intros HN Hd Hwrap. unfold laserScanSimulator.
  destruct (Z.leb_spec 1 decimation); [|lia].
  destruct (Z.leb_spec 2 N); [|lia].
  cbn [ASSERT_ mbind outcome_bind bind].
  match goal with
  | |- context [laser_rays ?f ?g ?p ?n ?d ?m ?t ?ns ?an ?aa ?i ?a ?sc ?vr ?r] =>
      destruct (laser_rays_returns g p n d m t ns an aa Hd Hwrap
                  (to_unsigned_range _) f i a sc vr r)
        as (scan' & valid' & rng' & Hl);
      [lia | rewrite Z.sub_0_r; apply Nat.le_refl |];
      rewrite Hl;
      apply (laser_rays_shape g p n d m t ns an aa Hd Hwrap) in Hl;
      [| lia | apply length_resize]
  end.
  destruct Hl as (Hls & Hlv & Hkeep & Hflag).
  rewrite length_resize in Hls. rewrite length_resize in Hlv.
  cbn [mbind outcome_bind bind].
  eexists _, rng'. split; [reflexivity|].
  cbn [scan validRange aperture rightToLeft maxRange sensorPose].
  repeat (split; [first [exact Hls | exact Hlv | reflexivity]|]).
  split.
  - intros j Hj. apply Hkeep. right. rewrite Z.sub_0_r. exact Hj.
  - intros j Hj Hmod. apply Hflag; [lia|]. rewrite Z.sub_0_r. exact Hmod.
Qed.

End LaserFacts.

Section NoiseFree.
Context `{SimExternals}.

(** Without noise, the loop of [laserScanSimulator] hands the random
    generator back as it was, and the entry of its iteration number [m]
    holds the ray simulated in the direction [laser_angle A AA decimation m]. *)
Lemma laser_rays_noise_free g pose N decimation max_ray_len thr noise anoise AA :
  1 <= decimation -> N + decimation <= two64 ->
  0 <= max_ray_len < two32 ->
  fgt noise fzero = false -> fgt anoise fzero = false ->
  forall fuel i A scan valid,
    0 <= i ->
    (Z.to_nat (N - i) <= fuel)%nat ->
    length scan = Z.to_nat N -> length valid = Z.to_nat N ->
    exists scan' valid',
      (forall rng,
         laser_rays fuel g pose N decimation max_ray_len thr noise anoise AA
           i A scan valid rng = Returns (scan', valid', rng))
      /\ (forall j : nat, Z.of_nat j < i ->
            scan' !! j = scan !! j /\ valid' !! j = valid !! j)
      /\ (forall m : nat,
            i + Z.of_nat m * decimation < N ->
            exists r v,
              (forall rng,
                 simulateScanRay g (CPose2D.x pose) (CPose2D.y pose)
                   (laser_angle A AA decimation m) max_ray_len thr
                   noise anoise rng = Returns (r, v, rng))
              /\ scan' !! Z.to_nat (i + Z.of_nat m * decimation) = Some r
              /\ valid' !! Z.to_nat (i + Z.of_nat m * decimation)
                 = Some (if v then 1 else 0)).
Proof.
  intros Hd Hwrap Hmax Hnoise Hanoise.
  induction fuel as [|fuel IH]; intros i A scan valid Hi Hfuel Hls Hlv.
  - exists scan, valid. cbn [laser_rays].
    destruct (Z.ltb_spec i N); [lia|]. cbn [negb].
    split; [reflexivity|]. split; [intros; split; reflexivity|].
    intros m Hm. nia.
  - destruct (Z.ltb_spec i N) as [HiN|HiN].
    + destruct (simulateScanRay_noise_free g (CPose2D.x pose) (CPose2D.y pose)
                  A max_ray_len thr noise anoise Hmax Hnoise Hanoise)
        as (r & v & Hray).
      destruct (IH (i + decimation)
                  (fadd64 A (fmul64 AA (double_of_Z decimation)))
                  (<[Z.to_nat i := r]> scan)
                  (<[Z.to_nat i := (if v then 1 else 0)]> valid))
        as (scan' & valid' & Hrun & Hkeep & Hrays);
        [lia | lia | rewrite length_insert; exact Hls
         | rewrite length_insert; exact Hlv |].
      exists scan', valid'. split; [|split].
      * intros rng. cbn [laser_rays].
        destruct (Z.ltb_spec i N); [|lia]. cbn [negb].
        rewrite Hray. cbn [mbind outcome_bind bind].
        assert (Hsz : to_size_t (i + decimation) = i + decimation).
        { unfold to_size_t. apply Z.mod_small. lia. }
        rewrite Hsz. apply Hrun.
      * intros j Hj. destruct (Hkeep j ltac:(lia)) as (-> & ->).
        rewrite !list_lookup_insert_ne by lia. split; reflexivity.
      * intros [|m] Hm.
        -- exists r, v. split; [exact Hray|].
           replace (i + Z.of_nat 0 * decimation) with i by lia.
           destruct (Hkeep (Z.to_nat i) ltac:(lia)) as (-> & ->).
           rewrite !list_lookup_insert_eq by lia. split; reflexivity.
        -- destruct (Hrays m ltac:(lia)) as (r' & v' & Hray' & Hs & Hv).
           exists r', v'. unfold laser_angle in *.
           rewrite Nat.iter_succ_r.
           replace (i + Z.of_nat (S m) * decimation)
             with (i + decimation + Z.of_nat m * decimation) by lia.
           split; [exact Hray'|]. split; [exact Hs | exact Hv].
    + exists scan, valid. cbn [laser_rays].
      destruct (Z.ltb_spec i N); [lia|]. cbn [negb].
      split; [reflexivity|]. split; [intros; split; reflexivity|].
      intros m Hm. nia.
Qed.

Lemma cone_rays_noise_free g pose max_ray_len thr noise anoise Adir :
  0 <= max_ray_len < two32 ->
  fgt noise fzero = false -> fgt anoise fzero = false ->
  forall n i direction min_detected_obs,
    exists min',
      forall rng,
        cone_rays n g pose max_ray_len thr noise anoise Adir
          i direction min_detected_obs rng = Returns (min', rng).
Proof.
  intros Hmax Hnoise Hanoise.
  induction n as [|n IH]; intros i direction m; cbn [cone_rays]; [eauto|].
  destruct (simulateScanRay_noise_free g (CPose2D.x pose) (CPose2D.y pose)
              direction max_ray_len thr noise anoise Hmax Hnoise Hanoise)
    as (r & v & Hray).
  destruct (IH (i + 1) (fadd64 direction Adir) (keep_shortest i v r m))
    as (m' & Hrest).
  exists m'. intros rng. rewrite Hray. cbn [mbind outcome_bind bind].
  apply Hrest.
Qed.

Lemma sonar_cones_noise_free g robotPose sensorConeApperture max_ray_len thr
    noise anoise :
  0 <= max_ray_len < two32 ->
  fgt noise fzero = false -> fgt anoise fzero = false ->
  fgt sensorConeApperture fzero = true ->
  forall ms,
    exists ms',
      forall rng,
        sonar_cones g robotPose sensorConeApperture max_ray_len thr
          noise anoise ms rng = Returns (ms', rng).
Proof.
  intros Hmax Hnoise Hanoise Hap.
  induction ms as [|m ms IH]; cbn [sonar_cones]; [eauto|].
  destruct IH as (ms' & Hrest).
  destruct (cone_rays_noise_free g (sensor_on_robot robotPose (sensorPose_ m))
              max_ray_len thr noise anoise (cone_Adir sensorConeApperture)
              Hmax Hnoise Hanoise
              (Z.to_nat (cone_nRays sensorConeApperture)) 0
              (cone_direction (sensor_on_robot robotPose (sensorPose_ m))
                 sensorConeApperture) fzero)
    as (d & Hcone).
  eexists. intros rng. unfold sonar_cone. rewrite Hap.
  cbn [ASSERT_ mbind outcome_bind bind]. rewrite Hcone.
  cbn [mbind outcome_bind bind]. rewrite Hrest.
  cbn [mbind outcome_bind bind]. reflexivity.
Qed.

(** X6. With both noise deviations not above 0, the three simulation
    functions draw no random number: each returns the same result whatever
    the state of the random generator, and hands the generator back as it
    was. *)
Theorem noise_free_simulation_leaves_generator
    (g : COccupancyGridMap2D) (robotPose : CPose2D.t)
    (threshold noiseStd angleNoiseStd : float) :
  fgt (double_of_float noiseStd) fzero = false ->
  fgt (double_of_float angleNoiseStd) fzero = false ->
  (forall start_x start_y angle_direction max_ray_len threshold_free,
     0 <= max_ray_len < two32 ->
     exists out_range out_valid,
       forall rng,
         simulateScanRay g start_x start_y angle_direction max_ray_len
           threshold_free (double_of_float noiseStd)
           (double_of_float angleNoiseStd) rng
         = Returns (out_range, out_valid, rng))
  /\ (forall inout_Scan N decimation,
        2 <= N -> 1 <= decimation -> N + decimation <= two64 ->
        exists out,
          forall rng,
            laserScanSimulator g inout_Scan robotPose threshold N noiseStd
              decimation angleNoiseStd rng = Returns (out, rng))
  /\ (forall inout_observation,
        fgt (sensorConeApperture inout_observation) fzero = true ->
        exists out,
          forall rng,
            sonarSimulator g inout_observation robotPose threshold noiseStd
              angleNoiseStd rng = Returns (out, rng)).
Proof.
  intros Hnoise Hanoise. split; [|split].
  - intros start_x start_y angle_direction max_ray_len threshold_free Hmax.
    apply simulateScanRay_noise_free; assumption.
  - intros inout_Scan N decimation HN Hd Hwrap. unfold laserScanSimulator.
    destruct (Z.leb_spec 1 decimation); [|lia].
    destruct (Z.leb_spec 2 N); [|lia].
    cbn [ASSERT_ mbind outcome_bind bind].
    match goal with
    | |- context [laser_rays ?f ?g ?p ?n ?d ?m ?t ?ns ?an ?aa ?i ?a ?sc ?vr _] =>
        destruct (laser_rays_noise_free g p n d m t ns an aa Hd Hwrap
                    (to_unsigned_range _) Hnoise Hanoise f i a sc vr)
          as (scan' & valid' & Hrun & _);
        [lia | rewrite Z.sub_0_r; apply Nat.le_refl
         | apply length_resize | apply length_resize |]
    end.
    eexists. intros rng. rewrite Hrun. cbn [mbind outcome_bind bind].
    reflexivity.
  - intros inout_observation Hap. unfold sonarSimulator.
    match goal with
    | |- context [sonar_cones ?g ?p ?a ?m ?t ?ns ?an ?ms _] =>
        destruct (sonar_cones_noise_free g p a m t ns an
                    (to_unsigned_range _) Hnoise Hanoise Hap ms)
          as (ms' & Hrun)
    end.
    eexists. intros rng. rewrite Hrun. cbn [mbind outcome_bind bind].
    reflexivity.
Qed.

(** X8. A noise-free laser scan holds, at the index [m * decimation], the
    range and the validity of the ray simulated from the sensor's position
    in the direction that the loop has accumulated after [m] iterations:
    [A], then [m] times the addition of [AA * decimation], where [A] is the
    heading of the sensor plus or minus half the aperture and [AA] is
    [aperture / (N - 1)] with the sign of the scanning direction. *)
Theorem laserScanSimulator_noise_free_rays
    g inout_Scan robotPose threshold N noiseStd decimation angleNoiseStd :
  2 <= N -> 1 <= decimation -> N + decimation <= two64 ->
  fgt (double_of_float noiseStd) fzero = false ->
  fgt (double_of_float angleNoiseStd) fzero = false ->
  let pose := sensor_on_robot robotPose (sensorPose inout_Scan) in
  let A :=
    fadd64 (CPose2D.phi pose)
      (fmul64 (if rightToLeft inout_Scan then SFopp fhalf else fhalf)
              (double_of_float (aperture inout_Scan))) in
  let AA :=
    fmul64 (if rightToLeft inout_Scan then fone else SFopp fone)
      (double_of_float
         (fdiv32 (aperture inout_Scan) (float_of_Z (N - 1)))) in
  let max_ray_len :=
    to_unsigned (round (fdiv32 (maxRange inout_Scan) (resolution g))) in
  exists out,
    (forall rng,
       laserScanSimulator g inout_Scan robotPose threshold N noiseStd
         decimation angleNoiseStd rng = Returns (out, rng))
    /\ (forall m : nat,
          Z.of_nat m * decimation < N ->
          exists r v,
            (forall rng,
               simulateScanRay g (CPose2D.x pose) (CPose2D.y pose)
                 (laser_angle A AA decimation m) max_ray_len
                 (fsub32 fone threshold) (double_of_float noiseStd)
                 (double_of_float angleNoiseStd) rng = Returns (r, v, rng))
            /\ scan out !! Z.to_nat (Z.of_nat m * decimation) = Some r
            /\ validRange out !! Z.to_nat (Z.of_nat m * decimation)
               = Some (if v then 1 else 0)).
Proof.
  intros HN Hd Hwrap Hnoise Hanoise pose A AA max_ray_len.
  unfold laserScanSimulator.
  destruct (Z.leb_spec 1 decimation); [|lia].
  destruct (Z.leb_spec 2 N); [|lia].
  cbn [ASSERT_ mbind outcome_bind bind].
  assert (Hsz : to_size_t (N - 1) = N - 1).
  { unfold to_size_t. apply Z.mod_small. unfold two64 in *. lia. }
  rewrite Hsz. fold pose. fold A. fold AA. fold max_ray_len.
  destruct (laser_rays_noise_free g pose N decimation max_ray_len
              (fsub32 fone threshold) (double_of_float noiseStd)
              (double_of_float angleNoiseStd) AA Hd Hwrap
              (to_unsigned_range _) Hnoise Hanoise (Z.to_nat N) 0 A
              (resize N fzero (scan inout_Scan))
              (resize N 0 (validRange inout_Scan)))
    as (scan' & valid' & Hrun & _ & Hrays);
    [lia | rewrite Z.sub_0_r; apply Nat.le_refl
     | apply length_resize | apply length_resize |].
  eexists. split.
  - intros rng. rewrite Hrun. cbn [mbind outcome_bind bind]. reflexivity.
  - intros m Hm. cbn [scan validRange].
    destruct (Hrays m ltac:(lia)) as (r & v & Hray & Hs & Hv).
    exists r, v. split; [exact Hray|]. split; [exact Hs | exact Hv].
Qed.

End NoiseFree.

Section SonarFrame.
Context `{SimExternals}.

Lemma sonar_cones_keeps g robotPose sensorConeApperture max_ray_len thr
    noise anoise :
  0 <= max_ray_len < two32 ->
  fgt sensorConeApperture fzero = true ->
  forall ms rng,
    exists ms' rng',
      sonar_cones g robotPose sensorConeApperture max_ray_len thr
        noise anoise ms rng = Returns (ms', rng')
      /\ List.map sensorID ms' = List.map sensorID ms
      /\ List.map sensorPose_ ms' = List.map sensorPose_ ms.
Proof.
  intros Hmax Hap.
  induction ms as [|m ms IH]; intros rng; cbn [sonar_cones].
  - exists [], rng. repeat split.
  - unfold sonar_cone. rewrite Hap. cbn [ASSERT_ mbind outcome_bind bind].
    destruct (cone_rays_returns g (sensor_on_robot robotPose (sensorPose_ m))
                max_ray_len thr noise anoise (cone_Adir sensorConeApperture)
                Hmax (Z.to_nat (cone_nRays sensorConeApperture)) 0
                (cone_direction (sensor_on_robot robotPose (sensorPose_ m))
                   sensorConeApperture) fzero rng)
      as (d & rng1 & ->).
    cbn [mbind outcome_bind bind].
    destruct (IH rng1) as (ms' & rng' & -> & Hid & Hpose).
    cbn [mbind outcome_bind bind].
    eexists _, rng'. split; [reflexivity|].
    cbn [List.map sensorID sensorPose_]. rewrite Hid, Hpose.
    split; reflexivity.
Qed.

(** X10. With a strictly positive cone aperture, [sonarSimulator] returns
    an observation with the same maximum distance and aperture and with the
    same transducers in the same order: their number, identifiers and poses
    are those of the call; only the sensed distances are written. *)
Theorem sonarSimulator_keeps_transducers
    g inout_observation robotPose threshold rangeNoiseStd angleNoiseStd rng :
  fgt (sensorConeApperture inout_observation) fzero = true ->
  exists out rng',
    sonarSimulator g inout_observation robotPose threshold rangeNoiseStd
      angleNoiseStd rng = Returns (out, rng')
    /\ maxSensorDistance out = maxSensorDistance inout_observation
    /\ sensorConeApperture out = sensorConeApperture inout_observation
    /\ List.map sensorID (sensedData out)
       = List.map sensorID (sensedData inout_observation)
    /\ List.map sensorPose_ (sensedData out)
       = List.map sensorPose_ (sensedData inout_observation).
Proof.
  intros Hap. unfold sonarSimulator.
  match goal with
  | |- context [sonar_cones ?g ?p ?a ?m ?t ?ns ?an ?ms ?r] =>
      destruct (sonar_cones_keeps g p a m t ns an (to_unsigned_range _) Hap
                  ms r) as (ms' & rng' & -> & Hid & Hpose)
  end.
  cbn [mbind outcome_bind bind]. eexists _, rng'.
  split; [reflexivity|].
  cbn [maxSensorDistance sensorConeApperture sensedData].
  repeat split; assumption.
Qed.

End SonarFrame.

(** * Further properties of the decider *)

Section CandidateFacts.
Context `{ERDExternals}.

(** Inserting an id above all the ids of an ascending set appends it. *)
Lemma set_insert_above k s :
  Forall (fun x => x < k) s -> set_insert k s = s ++ [k].
Proof.
  induction s as [|h t IH]; intros Hlt; cbn [set_insert app]; [reflexivity|].
  apply Forall_cons in Hlt. destruct Hlt as (Hh & Ht).
  destruct (Z.ltb_spec k h); [lia|].
  destruct (Z.eqb_spec k h); [lia|].
  rewrite IH by exact Ht. reflexivity.
Qed.

Lemma nearby_nodes_filter g cur distance :
  forall n nodeID nodes_set,
    Forall (fun x => x < nodeID) nodes_set ->
    nearby_nodes n g cur distance nodeID nodes_set
    = nodes_set
      ++ List.filter (within_distance g cur distance)
           (seqZ nodeID (Z.of_nat n)).
Proof.
  induction n as [|n IH]; intros nodeID nodes_set Hlt; cbn [nearby_nodes].
  - cbn. rewrite app_nil_r. reflexivity.
  - rewrite seqZ_cons by lia. cbn [List.filter].
    replace (Z.pred (Z.of_nat (S n))) with (Z.of_nat n) by lia.
    fold (within_distance g cur distance nodeID).
    destruct (within_distance g cur distance nodeID).
    + rewrite set_insert_above by exact Hlt.
      rewrite IH.
      * rewrite <- app_assoc. reflexivity.
      * apply Forall_app. split.
        -- eapply Forall_impl; [exact Hlt|]. cbn. intros; lia.
        -- apply Forall_singleton. lia.
    + rewrite IH; [reflexivity|].
      eapply Forall_impl; [exact Hlt|]. cbn. intros; lia.
Qed.

(** X11. With a strictly positive distance, [getNearbyNodesOf] fills an
    empty set with exactly the ids [0 .. nodeCount()-2] of the nodes whose
    pose lies within the distance of the pose of [cur_nodeID], in ascending
    order; a node at a NaN distance is left out. *)
Theorem getNearbyNodesOf_within_distance g cur_nodeID distance :
  fgt distance fzero = true ->
  1 <= nodeCount g <= two64 ->
  getNearbyNodesOf g [] cur_nodeID distance
  = List.filter (within_distance g cur_nodeID distance)
      (seqZ 0 (nodeCount g - 1)).
Proof.
  intros Hpos Hn. unfold getNearbyNodesOf. rewrite Hpos.
  rewrite nearby_nodes_filter by constructor.
  unfold to_size_t. rewrite Z.mod_small by lia.
  rewrite Z2Nat.id by lia. reflexivity.
Qed.

End CandidateFacts.

Section RegistryFacts.
Context `{ERDExternals}.

(** Registering edges touches neither the last scans nor the dataset check. *)
Lemma register_edge_list_scans params label es :
  forall d g,
    let d' := fst (foldl (register_edge params label) (d, g) es) in
    m_last_laser_scan2D d' = m_last_laser_scan2D d
    /\ m_last_laser_scan3D d' = m_last_laser_scan3D d
    /\ m_checked_for_usuable_dataset d' = m_checked_for_usuable_dataset d
    /\ m_consecutive_invalid_format_instances d'
       = m_consecutive_invalid_format_instances d.
Proof.
  induction es as [|e es IH]; intros d g; cbn [foldl].
  - repeat split; reflexivity.
  - assert (F : let d1 := fst (register_edge params label (d, g) e) in
                m_last_laser_scan2D d1 = m_last_laser_scan2D d
                /\ m_last_laser_scan3D d1 = m_last_laser_scan3D d
                /\ m_checked_for_usuable_dataset d1
                   = m_checked_for_usuable_dataset d
                /\ m_consecutive_invalid_format_instances d1
                   = m_consecutive_invalid_format_instances d).
    { unfold register_edge. cbn. case_match; cbn; repeat split; reflexivity. }
    destruct (register_edge params label (d, g) e) as [d1 g1].
    cbn [fst] in F. destruct F as (F1 & F2 & F3 & F4).
    destruct (IH d1 g1) as (I1 & I2 & I3 & I4).
    cbv zeta. rewrite I1, I2, I3, I4. auto.
Qed.

(** The edge registration of a call touches neither the scans, nor the
    registries, nor the dataset check. *)
Lemma register_edges_scans params d g observations observation :
  let d1 := before_registration d g observations observation in
  let d2 := fst (register_edges params (new_node_detected d g) d1 g) in
  m_last_laser_scan2D d2 = m_last_laser_scan2D d1
  /\ m_last_laser_scan3D d2 = m_last_laser_scan3D d1
  /\ m_nodes_to_laser_scans2D d2 = m_nodes_to_laser_scans2D d1
  /\ m_nodes_to_laser_scans3D d2 = m_nodes_to_laser_scans3D d1
  /\ m_checked_for_usuable_dataset d2 = m_checked_for_usuable_dataset d1
  /\ m_consecutive_invalid_format_instances d2
     = m_consecutive_invalid_format_instances d1.
Proof.
  cbv zeta. rewrite register_edges_passing. cbv zeta.
  set (d1 := before_registration d g observations observation).
  destruct (new_node_detected d g); cbn [fst]; [|repeat split; reflexivity].
  destruct (register_edge_list_scans params (mode_label d1)
              (registered_edges params d g observations observation)
              (set_loop_closure false d1) g) as (S1 & S2 & S3 & S4).
  destruct (register_edge_list_fields params (mode_label d1)
              (registered_edges params d g observations observation)
              (set_loop_closure false d1) g) as (F1 & F2 & _).
  cbv zeta in *. rewrite S1, S2, S3, S4, F1, F2. repeat split; reflexivity.
Qed.

(** The scans and the registries as the edge registration finds them. *)
Lemma before_registration_scans d g observations observation :
  let d1 := before_registration d g observations observation in
  let key := to_size_t (nodeCount g - 1) in
  m_last_laser_scan2D d1
  = match observation with
    | Some (Obs2DRangeScan s) => Some s
    | Some _ => m_last_laser_scan2D d
    | None => getObservationByClass_2D observations
    end
  /\ m_last_laser_scan3D d1
     = match observation with
       | Some (Obs3DRangeScan s) => Some (load s)
       | _ => m_last_laser_scan3D d
       end
  /\ m_nodes_to_laser_scans2D d1
     = match new_node_detected d g, m_last_laser_scan2D d1 with
       | true, Some s => <[key := s]> (m_nodes_to_laser_scans2D d)
       | _, _ => m_nodes_to_laser_scans2D d
       end
  /\ m_nodes_to_laser_scans3D d1
     = match new_node_detected d g, observation, m_last_laser_scan3D d1 with
       | true, Some _, Some s => <[key := s]> (m_nodes_to_laser_scans3D d)
       | _, _, _ => m_nodes_to_laser_scans3D d
       end
  /\ m_checked_for_usuable_dataset d1 = m_checked_for_usuable_dataset d
  /\ m_consecutive_invalid_format_instances d1
     = m_consecutive_invalid_format_instances d.
Proof.
  unfold before_registration, new_node_detected, detect_new_node, ingest_scans.
  destruct d as [lc mode total counts checked invalid l2 l3 fake r2 r3].
  cbn [m_last_total_num_of_nodes].
  destruct (total <? nodeCount g); cbn [snd];
    destruct observation as [[s|s|]|]; destruct l2, l3;
    try destruct (getObservationByClass_2D observations);
    cbn; repeat split; reflexivity.
Qed.

(** The dataset check touches neither the scans nor the registries. *)
Lemma checkIfInvalidDataset_scans observation d :
  let d' := if m_checked_for_usuable_dataset d then d
            else checkIfInvalidDataset observation d in
  m_last_laser_scan2D d' = m_last_laser_scan2D d
  /\ m_last_laser_scan3D d' = m_last_laser_scan3D d
  /\ m_nodes_to_laser_scans2D d' = m_nodes_to_laser_scans2D d
  /\ m_nodes_to_laser_scans3D d' = m_nodes_to_laser_scans3D d.
Proof.
  unfold checkIfInvalidDataset.
  destruct (m_checked_for_usuable_dataset d); cbn;
    repeat case_match; cbn; repeat split; reflexivity.
Qed.

(** The scans and the registries after one call. *)
Lemma update_scans params d g observations observation :
  let d' := fst (updateDeciderState params d g observations observation) in
  let key := to_size_t (nodeCount g - 1) in
  m_last_laser_scan2D d'
  = match observation with
    | Some (Obs2DRangeScan s) => Some s
    | Some _ => m_last_laser_scan2D d
    | None => getObservationByClass_2D observations
    end
  /\ m_last_laser_scan3D d'
     = match observation with
       | Some (Obs3DRangeScan s) => Some (load s)
       | _ => m_last_laser_scan3D d
       end
  /\ m_nodes_to_laser_scans2D d'
     = match new_node_detected d g, m_last_laser_scan2D d' with
       | true, Some s => <[key := s]> (m_nodes_to_laser_scans2D d)
       | _, _ => m_nodes_to_laser_scans2D d
       end
  /\ m_nodes_to_laser_scans3D d'
     = match new_node_detected d g, observation, m_last_laser_scan3D d' with
       | true, Some _, Some s => <[key := s]> (m_nodes_to_laser_scans3D d)
       | _, _, _ => m_nodes_to_laser_scans3D d
       end.
Proof.
  rewrite updateDeciderState_unfold. cbv zeta. cbn [fst].
  destruct (checkIfInvalidDataset_scans observation
              (fst (register_edges params (new_node_detected d g)
                      (before_registration d g observations observation) g)))
    as (-> & -> & -> & ->).
  destruct (register_edges_scans params d g observations observation)
    as (-> & -> & -> & -> & _).
  destruct (before_registration_scans d g observations observation)
    as (B1 & B2 & B3 & B4 & _).
  cbv zeta in B1, B2, B3, B4.
  split; [exact B1|]. split; [exact B2|]. split; [exact B3 | exact B4].
Qed.

End RegistryFacts.

Section RegistryInvariants.
Context `{ERDExternals}.

(** X12. What a call of [updateDeciderState] leaves in the last scans and
    in the two registries, whatever edges it registers. The last 2D scan is
    the call's 2D scan observation, or the first 2D scan of its sensory
    frame (none when the frame has none), and is kept on any other single
    observation; the last 3D scan is only replaced by a 3D scan
    observation. When a new node is detected it is bound in the 2D registry
    to the last 2D scan, if there is one, and, in the single-observation
    format only, in the 3D registry to the last 3D scan, if there is one:
    both registries are written whatever the mode, also with a scan of an
    earlier call. Nothing else changes in the registries. *)
Theorem updateDeciderState_scans_and_registries
    params d g observations observation :
  let d' := fst (updateDeciderState params d g observations observation) in
  let key := to_size_t (nodeCount g - 1) in
  m_last_laser_scan2D d'
  = match observation with
    | Some (Obs2DRangeScan s) => Some s
    | Some _ => m_last_laser_scan2D d
    | None => getObservationByClass_2D observations
    end
  /\ m_last_laser_scan3D d'
     = match observation with
       | Some (Obs3DRangeScan s) => Some (load s)
       | _ => m_last_laser_scan3D d
       end
  /\ m_nodes_to_laser_scans2D d'
     = match new_node_detected d g, m_last_laser_scan2D d' with
       | true, Some s => <[key := s]> (m_nodes_to_laser_scans2D d)
       | _, _ => m_nodes_to_laser_scans2D d
       end
  /\ m_nodes_to_laser_scans3D d'
     = match new_node_detected d g, observation, m_last_laser_scan3D d' with
       | true, Some _, Some s => <[key := s]> (m_nodes_to_laser_scans3D d)
       | _, _, _ => m_nodes_to_laser_scans3D d
       end.
Proof. apply update_scans. Qed.

(** X13. A call that detects no new node registers nothing: the graph, the
    three counters, the two registries, the loop-closure flag and the
    remembered node count are left as they were. *)
Theorem update_without_new_node params d g observations observation :
  new_node_detected d g = false ->
  let st := updateDeciderState params d g observations observation in
  snd st = g
  /\ getEdgesStats (fst st) = getEdgesStats d
  /\ m_nodes_to_laser_scans2D (fst st) = m_nodes_to_laser_scans2D d
  /\ m_nodes_to_laser_scans3D (fst st) = m_nodes_to_laser_scans3D d
  /\ justInsertedLoopClosure (fst st) = justInsertedLoopClosure d
  /\ m_last_total_num_of_nodes (fst st) = m_last_total_num_of_nodes d.
Proof.
  intros Hnew.
  destruct (update_scans params d g observations observation)
    as (_ & _ & S3 & S4).
  cbv zeta in *. rewrite Hnew in S3, S4.
  split; [|split; [|split; [exact S3 | split; [exact S4|]]]].
  - rewrite updateDeciderState_unfold. cbv zeta. cbn [snd].
    rewrite Hnew. reflexivity.
  - rewrite updateDeciderState_unfold. cbv zeta. cbn [fst].
    unfold getEdgesStats.
    destruct (checkIfInvalidDataset_fields observation
                (fst (register_edges params (new_node_detected d g)
                        (before_registration d g observations observation) g)))
      as (-> & _).
    rewrite Hnew. cbn [register_edges fst].
    apply before_registration_fields.
  - rewrite updateDeciderState_unfold. cbv zeta. cbn [fst].
    unfold justInsertedLoopClosure.
    destruct (checkIfInvalidDataset_fields observation
                (fst (register_edges params (new_node_detected d g)
                        (before_registration d g observations observation) g)))
      as (_ & -> & -> & _).
    rewrite Hnew. cbn [register_edges fst].
    destruct (before_registration_fields d g observations observation)
      as (_ & B2 & B3 & _).
    cbv zeta in B2, B3. rewrite B2, B3.
    unfold new_node_detected in Hnew. apply Z.ltb_ge in Hnew.
    split; [reflexivity | lia].
Qed.

(** One call keeps the registries in range, and keeps every binding. *)
Lemma update_in_range params d g observations observation :
  registries_in_range d -> nodeCount g < two64 ->
  let d' := fst (updateDeciderState params d g observations observation) in
  registries_in_range d'
  /\ (forall k s, m_nodes_to_laser_scans2D d !! k = Some s ->
        m_nodes_to_laser_scans2D d' !! k = Some s)
  /\ (forall k s, m_nodes_to_laser_scans3D d !! k = Some s ->
        m_nodes_to_laser_scans3D d' !! k = Some s).
Proof.
  intros (Htotal & Hkeys) Hfit.
  destruct (update_scans params d g observations observation)
    as (_ & _ & S3 & S4).
  destruct (update_fields params d g observations observation) as (T & _).
  cbv zeta in *.
  set (d' := fst (updateDeciderState params d g observations observation)) in *.
  unfold new_node_detected in S3, S4.
  destruct (Z.ltb_spec (m_last_total_num_of_nodes d) (nodeCount g))
    as [Hnew|Hold].
  - assert (Hkey : to_size_t (nodeCount g - 1) = nodeCount g - 1).
    { unfold to_size_t. apply Z.mod_small. unfold two64 in *. lia. }
    rewrite Hkey in S3, S4.
    assert (H2 : forall k, is_Some (m_nodes_to_laser_scans2D d' !! k) ->
                 k = nodeCount g - 1
                 \/ is_Some (m_nodes_to_laser_scans2D d !! k)).
    { intros k Hk. rewrite S3 in Hk.
      destruct (m_last_laser_scan2D d'); [|auto].
      destruct (Z.eq_dec (nodeCount g - 1) k) as [<-|Hne]; [auto|].
      rewrite lookup_insert_ne in Hk by exact Hne. auto. }
    assert (H3 : forall k, is_Some (m_nodes_to_laser_scans3D d' !! k) ->
                 k = nodeCount g - 1
                 \/ is_Some (m_nodes_to_laser_scans3D d !! k)).
    { intros k Hk. rewrite S4 in Hk.
      destruct observation; [|auto].
      destruct (m_last_laser_scan3D d'); [|auto].
      destruct (Z.eq_dec (nodeCount g - 1) k) as [<-|Hne]; [auto|].
      rewrite lookup_insert_ne in Hk by exact Hne. auto. }
    split; [|split].
    + split; [lia|]. intros k [Hk|Hk].
      * destruct (H2 k Hk) as [->|Hin]; [lia|].
        specialize (Hkeys k (or_introl Hin)). lia.
      * destruct (H3 k Hk) as [->|Hin]; [lia|].
        specialize (Hkeys k (or_intror Hin)). lia.
    + intros k s Hk. rewrite S3.
      destruct (m_last_laser_scan2D d'); [|exact Hk].
      rewrite lookup_insert_ne; [exact Hk|].
      specialize (Hkeys k (or_introl (ex_intro _ s Hk))). lia.
    + intros k s Hk. rewrite S4.
      destruct observation; [|exact Hk].
      destruct (m_last_laser_scan3D d'); [|exact Hk].
      rewrite lookup_insert_ne; [exact Hk|].
      specialize (Hkeys k (or_intror (ex_intro _ s Hk))). lia.
  - unfold registries_in_range. rewrite S3, S4, T. split; [|split; auto].
    split; [lia|]. intros k Hk. specialize (Hkeys k Hk). lia.
Qed.

Lemma init_in_range : registries_in_range initCICPGoodnessERD_t.
Proof.
  split; [cbn; lia|]. intros k [Hk|Hk]; cbn in Hk;
    rewrite lookup_empty in Hk; destruct Hk as (x & Hx); discriminate.
Qed.

Lemma run_in_range params steps :
  forall d,
    registries_in_range d -> counts_fit steps ->
    registries_in_range (run params d steps).
Proof.
  induction steps as [|s steps IH]; intros d Hd Hfit; [exact Hd|].
  unfold run. cbn [foldl]. fold (run params (update params d s) steps).
  apply IH.
  - unfold update. apply update_in_range; [exact Hd|].
    apply Hfit. left. reflexivity.
  - intros t Ht. apply Hfit. right. exact Ht.
Qed.

(** X14. After every sequence of calls on a freshly constructed decider,
    the scans in the two registries are bound to node ids from 2 up to,
    and not including, the node count the decider remembers: the nodes 0
    and 1 never get a scan. *)
Theorem registries_stay_in_range params steps :
  counts_fit steps ->
  let d := run params initCICPGoodnessERD_t steps in
  forall k,
    is_Some (m_nodes_to_laser_scans2D d !! k)
    \/ is_Some (m_nodes_to_laser_scans3D d !! k) ->
    2 <= k < m_last_total_num_of_nodes d.
Proof.
  intros Hfit d. apply (run_in_range params steps _ init_in_range Hfit).
Qed.

(** X15. A scan bound to a node stays bound to it: in a session that
    starts from a freshly constructed decider, no later call replaces or
    removes a binding of either registry. *)
Theorem registered_scans_are_kept params steps more :
  counts_fit (steps ++ more) ->
  let d := run params initCICPGoodnessERD_t steps in
  let d' := run params initCICPGoodnessERD_t (steps ++ more) in
  (forall k s, m_nodes_to_laser_scans2D d !! k = Some s ->
     m_nodes_to_laser_scans2D d' !! k = Some s)
  /\ (forall k s, m_nodes_to_laser_scans3D d !! k = Some s ->
        m_nodes_to_laser_scans3D d' !! k = Some s).
Proof.
  intros Hfit. cbv zeta. unfold run at 2 4. rewrite foldl_app.
  fold (run params initCICPGoodnessERD_t steps).
  assert (Hd : registries_in_range (run params initCICPGoodnessERD_t steps)).
  { apply run_in_range; [apply init_in_range|].
    intros t Ht. apply Hfit, in_or_app. left. exact Ht. }
  assert (Hmore : counts_fit more).
  { intros t Ht. apply Hfit, in_or_app. right. exact Ht. }
  generalize dependent (run params initCICPGoodnessERD_t steps).
  clear Hfit. induction more as [|s more IH]; intros d Hd; cbn [foldl].
  - auto.
  - destruct (update_in_range params d (step_graph s) (step_observations s)
                (step_observation s) Hd (Hmore s (or_introl eq_refl)))
      as (Hd1 & K2 & K3).
    cbv zeta in Hd1, K2, K3. fold (update params d s) in Hd1, K2, K3.
    destruct (IH (fun t Ht => Hmore t (or_intror Ht)) (update params d s) Hd1)
      as (I2 & I3).
    split; intros k sc Hk; [apply I2, K2, Hk | apply I3, K3, Hk].
Qed.

End RegistryInvariants.

Section RegistrationFacts.
Context `{ERDExternals}.

(** A candidate that passes is in the candidate set and has a scan. *)
Lemma passing_in {Scan : Type} params (reg : gmap Z Scan)
    (icp : Scan -> Scan -> constraint_t * double) curr nodes_set e :
  In e (passing params reg icp curr nodes_set) ->
  In (fst e) nodes_set /\ is_Some (reg !! fst e).
Proof.
  unfold passing. intros Hin.
  apply list_elem_of_In, list_elem_of_omap in Hin.
  destruct Hin as (x & Hx & Hf).
  destruct (reg !! x) as [p|] eqn:Hp; [|discriminate].
  destruct (fgt (snd (icp p curr)) (ICP_goodness_thresh params));
    [|discriminate].
  injection Hf as <-. cbn [fst].
  split; [apply list_elem_of_In; exact Hx | rewrite Hp; eauto].
Qed.

(** The registries are complete before the edge registration starts. *)
Lemma update_registries_before params d g observations observation :
  let d' := fst (updateDeciderState params d g observations observation) in
  let d1 := before_registration d g observations observation in
  m_nodes_to_laser_scans2D d1 = m_nodes_to_laser_scans2D d'
  /\ m_nodes_to_laser_scans3D d1 = m_nodes_to_laser_scans3D d'.
Proof.
  rewrite updateDeciderState_unfold. cbv zeta. cbn [fst].
  destruct (checkIfInvalidDataset_scans observation
              (fst (register_edges params (new_node_detected d g)
                      (before_registration d g observations observation) g)))
    as (_ & _ & -> & ->).
  destruct (register_edges_scans params d g observations observation)
    as (_ & _ & -> & -> & _).
  split; reflexivity.
Qed.

(** X16. In a session that starts from a freshly constructed decider,
    every edge that a call registers starts at a node with an id from 2 to
    [nodeCount()-1]: no edge ever starts at node 0 or node 1, which have no
    scan. With a strictly positive [ICP_max_distance] it starts below
    [nodeCount()-1]: the new node is not linked to itself. *)
Theorem registered_edges_start_at_scanned_nodes params steps s e :
  counts_fit steps -> nodeCount (step_graph s) < two64 ->
  let d := run params initCICPGoodnessERD_t steps in
  In e (registered_edges params d (step_graph s) (step_observations s)
          (step_observation s)) ->
  2 <= fst e <= nodeCount (step_graph s) - 1
  /\ (fgt (ICP_max_distance params) fzero = true ->
      fst e < nodeCount (step_graph s) - 1).
Proof.
  intros Hfit Hs d Hin.
  assert (Hd : registries_in_range d).
  { apply run_in_range; [apply init_in_range | exact Hfit]. }
  destruct (update_in_range params d (step_graph s) (step_observations s)
              (step_observation s) Hd Hs) as ((_ & Hkeys) & _).
  destruct (update_fields params d (step_graph s) (step_observations s)
              (step_observation s)) as (T & _).
  destruct (update_registries_before params d (step_graph s)
              (step_observations s) (step_observation s)) as (R2 & R3).
  cbv zeta in Hkeys, T, R2, R3. rewrite T in Hkeys.
  rewrite <- R2, <- R3 in Hkeys.
  unfold registered_edges in Hin.
  destruct (new_node_detected d (step_graph s)) eqn:Hnew; [|destruct Hin].
  unfold new_node_detected in Hnew. apply Z.ltb_lt in Hnew.
  destruct Hd as (Htotal & _).
  set (d1 := before_registration d (step_graph s) (step_observations s)
               (step_observation s)) in *.
  assert (Hcand : In (fst e)
                    (getNearbyNodesOf (step_graph s) []
                       (to_size_t (nodeCount (step_graph s) - 1))
                       (ICP_max_distance params))
                  /\ (is_Some (m_nodes_to_laser_scans2D d1 !! fst e)
                      \/ is_Some (m_nodes_to_laser_scans3D d1 !! fst e))).
  { cbv zeta in Hin. destruct (m_is_using_3DScan d1).
    - destruct (m_nodes_to_laser_scans3D d1 !! _); [|destruct Hin].
      apply passing_in in Hin. destruct Hin; auto.
    - destruct (m_nodes_to_laser_scans2D d1 !! _); [|destruct Hin].
      apply passing_in in Hin. destruct Hin; auto. }
  destruct Hcand as (Hnear & Hscan).
  specialize (Hkeys (fst e) Hscan).
  split; [lia|]. intros Hpos.
  apply (getNearbyNodesOf_positive_excludes_new _ _ _ _ Hpos) in Hnear; lia.
Qed.

(** X17. On a graph that gains no node when an edge is inserted, a call
    adds to the loop-closure counter exactly the number of the edges it
    registers that span more than [LC_min_nodeid_diff] node ids. *)
Theorem LC_counter_counts_spanning_edges {L : GraphLaws}
    params d g observations observation :
  let d' := fst (updateDeciderState params d g observations observation) in
  let es := registered_edges params d g observations observation in
  count_LC d'
  = count_LC d
    + Z.of_nat (length (List.filter (is_loop_closure params g) es)).
Proof.
  rewrite updateDeciderState_unfold. cbv zeta. cbn [fst].
  unfold count_LC.
  destruct (checkIfInvalidDataset_fields observation
              (fst (register_edges params (new_node_detected d g)
                      (before_registration d g observations observation) g)))
    as (-> & _).
  rewrite register_edges_passing. cbv zeta.
  destruct (before_registration_fields d g observations observation)
    as (B1 & _). cbv zeta in B1.
  set (d1 := before_registration d g observations observation) in *.
  destruct (new_node_detected d g) eqn:Hnew; cbn [fst].
  - rewrite (register_edge_list_LC params (mode_label d1)
               (registered_edges params d g observations observation)
               (mode_label_not_LC d1) (set_loop_closure false d1) g).
    cbn [set_loop_closure m_edge_types_to_nums]. rewrite B1. reflexivity.
  - unfold registered_edges. rewrite Hnew, B1. cbn. lia.
Qed.

End RegistrationFacts.

Section DatasetCheck.
Context `{ERDExternals}.

(** The dataset check of one call. *)
Lemma update_dataset_check params d s :
  let d' := update params d s in
  let n := m_consecutive_invalid_format_instances d in
  if m_checked_for_usuable_dataset d then
    m_checked_for_usuable_dataset d' = true
    /\ m_consecutive_invalid_format_instances d' = n
  else if unrecognised s then
    m_checked_for_usuable_dataset d'
    = (m_consecutive_invalid_format_instances_thres <? n + 1)
    /\ m_consecutive_invalid_format_instances d' = n + 1
  else
    m_checked_for_usuable_dataset d' = true
    /\ m_consecutive_invalid_format_instances d' = n.
Proof.
  unfold update, unrecognised. rewrite updateDeciderState_unfold.
  cbv zeta. cbn [fst].
  destruct (register_edges_scans params d (step_graph s) (step_observations s)
              (step_observation s)) as (_ & _ & _ & _ & R5 & R6).
  destruct (before_registration_scans d (step_graph s) (step_observations s)
              (step_observation s)) as (_ & _ & _ & _ & B5 & B6).
  cbv zeta in R5, R6, B5, B6. rewrite B5 in R5. rewrite B6 in R6.
  set (d2 := fst (register_edges params _ _ _)) in *.
  rewrite R5. destruct (m_checked_for_usuable_dataset d) eqn:Hc.
  - split; [exact R5 | exact R6].
  - unfold checkIfInvalidDataset.
    destruct (step_observation s) as [[sc|sc|]|]; cbn; rewrite ?R6; auto.
    destruct (m_consecutive_invalid_format_instances_thres
              <? m_consecutive_invalid_format_instances d + 1); cbn; auto.
Qed.

Lemma run_dataset_checked params steps :
  forall d,
    m_checked_for_usuable_dataset d = true ->
    m_checked_for_usuable_dataset (run params d steps) = true
    /\ m_consecutive_invalid_format_instances (run params d steps)
       = m_consecutive_invalid_format_instances d.
Proof.
  induction steps as [|s steps IH]; intros d Hd; [auto|].
  unfold run. cbn [foldl]. fold (run params (update params d s) steps).
  pose proof (update_dataset_check params d s) as U. cbv zeta in U.
  rewrite Hd in U. destruct U as (U1 & U2).
  destruct (IH _ U1) as (I1 & I2). rewrite I1, I2, U2. auto.
Qed.

Lemma run_dataset_unchecked params steps :
  forall d,
    m_checked_for_usuable_dataset d = false ->
    0 <= m_consecutive_invalid_format_instances d <= 20 ->
    let l := Z.of_nat (leading_unrecognised steps) in
    let n := m_consecutive_invalid_format_instances d in
    m_checked_for_usuable_dataset (run params d steps)
    = (l <? Z.of_nat (length steps)) || (20 <? n + l)
    /\ m_consecutive_invalid_format_instances (run params d steps)
       = Z.min (n + l) 21.
Proof.
  induction steps as [|s steps IH]; intros d Hd Hn.
  - cbn. rewrite Hd. split.
    + symmetry. apply Z.ltb_ge. lia.
    + lia.
  - unfold run. cbn [foldl]. fold (run params (update params d s) steps).
    pose proof (update_dataset_check params d s) as U. cbv zeta in U.
    rewrite Hd in U. cbn [leading_unrecognised length].
    destruct (unrecognised s).
    + destruct U as (U1 & U2).
      unfold m_consecutive_invalid_format_instances_thres in U1.
      destruct (Z.ltb_spec 20 (m_consecutive_invalid_format_instances d + 1))
        as [Hfull|Hroom].
      * destruct (run_dataset_checked params steps _ U1) as (-> & ->).
        rewrite U2. split; [|lia].
        symmetry. apply orb_true_iff. right. apply Z.ltb_lt. lia.
      * destruct (IH _ U1 ltac:(lia)) as (I1 & I2). cbv zeta in I1, I2.
        rewrite I1, I2, U2. split.
        -- f_equal.
           ++ destruct (Z.ltb_spec
                          (Z.of_nat (leading_unrecognised steps))
                          (Z.of_nat (length steps)));
                symmetry; [apply Z.ltb_lt | apply Z.ltb_ge]; lia.
           ++ f_equal. lia.
        -- f_equal. lia.
    + destruct U as (U1 & U2).
      destruct (run_dataset_checked params steps _ U1) as (-> & ->).
      rewrite U2. cbn. split; [reflexivity | lia].
Qed.

(** X18. The check for a usable dataset, over a session that starts from
    a freshly constructed decider: with [l] the number of calls at the head
    of the session whose observation is unrecognised, the check has ended
    exactly when the session is longer than [l] (a call brought a range
    scan or a sensory frame) or [l] is more than 20, and the count of
    unrecognised observations is [l], or 21 when [l] is more: the count
    stops with the check. *)
Theorem dataset_check_ends params steps :
  let d := run params initCICPGoodnessERD_t steps in
  let l := Z.of_nat (leading_unrecognised steps) in
  m_checked_for_usuable_dataset d
  = (l <? Z.of_nat (length steps)) || (20 <? l)
  /\ m_consecutive_invalid_format_instances d = Z.min l 21.
Proof.
  destruct (run_dataset_unchecked params steps initCICPGoodnessERD_t
              eq_refl ltac:(cbn; lia)) as (R1 & R2).
  exact (conj R1 R2).
Qed.

(** The counters keep their keys and stay non-negative. *)
Lemma increment_stats key (m : gmap string Z) :
  is_Some (m !! key) ->
  (forall k v, m !! k = Some v -> 0 <= v) ->
  dom (increment key m) = dom m
  /\ (forall k v, increment key m !! k = Some v -> 0 <= v).
Proof.
  intros Hkey Hpos. unfold increment. split.
  - apply dom_insert_lookup_L. exact Hkey.
  - intros k v Hk. apply lookup_insert_Some in Hk.
    destruct Hk as [(<- & <-)|(_ & Hk)]; [|exact (Hpos k v Hk)].
    unfold counter. destruct Hkey as (x & Hx). rewrite Hx. cbn.
    specialize (Hpos key x Hx). lia.
Qed.

Lemma register_edge_list_stats params label es :
  forall d g,
    is_Some (m_edge_types_to_nums d !! label) ->
    is_Some (m_edge_types_to_nums d !! "LC") ->
    (forall k v, m_edge_types_to_nums d !! k = Some v -> 0 <= v) ->
    let d' := fst (foldl (register_edge params label) (d, g) es) in
    dom (m_edge_types_to_nums d') = dom (m_edge_types_to_nums d)
    /\ (forall k v, m_edge_types_to_nums d' !! k = Some v -> 0 <= v).
Proof.
  induction es as [|e es IH]; intros d g Hlabel HLC Hpos; cbn [foldl].
  - auto.
  - assert (F : let d1 := fst (register_edge params label (d, g) e) in
                dom (m_edge_types_to_nums d1) = dom (m_edge_types_to_nums d)
                /\ (forall k v, m_edge_types_to_nums d1 !! k = Some v ->
                      0 <= v)).
    { destruct (increment_stats label _ Hlabel Hpos) as (D1 & P1).
      assert (HLC1 : is_Some (increment label (m_edge_types_to_nums d)
                              !! "LC")).
      { apply elem_of_dom. rewrite D1. apply elem_of_dom. exact HLC. }
      destruct (increment_stats "LC" _ HLC1 P1) as (D2 & P2).
      unfold register_edge. cbn. case_match; cbn.
      - rewrite D2, D1. auto.
      - auto. }
    destruct (register_edge params label (d, g) e) as [d1 g1].
    cbn [fst] in F. destruct F as (D & P).
    destruct (IH d1 g1) as (I1 & I2).
    + apply elem_of_dom. rewrite D. apply elem_of_dom. exact Hlabel.
    + apply elem_of_dom. rewrite D. apply elem_of_dom. exact HLC.
    + exact P.
    + cbv zeta. rewrite I1, D. auto.
Qed.

(** X19. [getEdgesStats] reports, after every sequence of calls on a
    freshly constructed decider, exactly the three counters ICP2D, ICP3D
    and LC, and none of them is negative. *)
Theorem getEdgesStats_three_counters params steps :
  let stats := getEdgesStats (run params initCICPGoodnessERD_t steps) in
  dom stats = {[ "ICP2D"; "ICP3D"; "LC" ]}
  /\ (forall k v, stats !! k = Some v -> 0 <= v).
Proof.
  cbv zeta. unfold getEdgesStats.
  assert (Hinit : dom (m_edge_types_to_nums initCICPGoodnessERD_t)
                  = {[ "ICP2D"; "ICP3D"; "LC" ]}
                  /\ (forall k v,
                        m_edge_types_to_nums initCICPGoodnessERD_t !! k
                        = Some v -> 0 <= v)).
  { cbn [initCICPGoodnessERD_t m_edge_types_to_nums]. split.
    - rewrite !dom_insert_L, dom_empty_L. set_solver.
    - intros k v Hk.
      repeat (apply lookup_insert_Some in Hk;
              destruct Hk as [(_ & <-)|(_ & Hk)]; [lia|]).
      rewrite lookup_empty in Hk. discriminate. }
  generalize dependent initCICPGoodnessERD_t.
  induction steps as [|s steps IH]; intros d Hd; [exact Hd|].
  unfold run. cbn [foldl]. fold (run params (update params d s) steps).
  apply IH. clear IH. destruct Hd as (Hdom & Hpos).
  unfold update. rewrite updateDeciderState_unfold. cbv zeta. cbn [fst].
  destruct (checkIfInvalidDataset_fields (step_observation s)
              (fst (register_edges params
                      (new_node_detected d (step_graph s))
                      (before_registration d (step_graph s)
                         (step_observations s) (step_observation s))
                      (step_graph s)))) as (-> & _).
  rewrite register_edges_passing. cbv zeta.
  destruct (before_registration_fields d (step_graph s) (step_observations s)
              (step_observation s)) as (B1 & _). cbv zeta in B1.
  set (d1 := before_registration d (step_graph s) (step_observations s)
               (step_observation s)) in *.
  destruct (new_node_detected d (step_graph s)); cbn [fst];
    [|rewrite B1; auto].
  destruct (register_edge_list_stats params (mode_label d1)
              (registered_edges params d (step_graph s) (step_observations s)
                 (step_observation s))
              (set_loop_closure false d1) (step_graph s)) as (D & P).
  - cbn [set_loop_closure m_edge_types_to_nums]. rewrite B1.
    apply elem_of_dom. rewrite Hdom. unfold mode_label.
    destruct (m_is_using_3DScan d1); set_solver.
  - cbn [set_loop_closure m_edge_types_to_nums]. rewrite B1.
    apply elem_of_dom. rewrite Hdom. set_solver.
  - cbn [set_loop_closure m_edge_types_to_nums]. rewrite B1. exact Hpos.
  - cbv zeta in D, P.
    cbn [set_loop_closure m_edge_types_to_nums] in D. rewrite B1 in D.
    rewrite D. auto.
Qed.

End DatasetCheck.

Section Draws.
Context `{SimExternals}.

(** X20. [simulateScanRay] draws a random number for the direction exactly
    when [angleNoiseStd > 0], and then one for the range exactly when
    [noiseStd > 0] and the ray is valid: an invalid ray gets no range noise.
    The range is [k * resolution] for a number of cells
    [0 <= k <= max_ray_len], plus [noiseStd] times the number drawn when
    one is drawn for it. *)
Theorem simulateScanRay_draws
    g start_x start_y angle_direction max_ray_len threshold_free
    noiseStd angleNoiseStd rng :
  0 <= max_ray_len < two32 ->
  let rng1 :=
    if fgt angleNoiseStd fzero then snd (drawGaussian1D_normalized rng)
    else rng in
  exists k out_range out_valid rng',
    simulateScanRay g start_x start_y angle_direction max_ray_len
      threshold_free noiseStd angleNoiseStd rng
    = Returns (out_range, out_valid, rng')
    /\ 0 <= k <= max_ray_len
    /\ (if fgt noiseStd fzero && out_valid
        then rng' = snd (drawGaussian1D_normalized rng1)
             /\ out_range
                = float_of_double
                    (fadd64
                       (double_of_float
                          (fmul32 (float_of_Z k) (resolution g)))
                       (fmul64 noiseStd
                          (fst (drawGaussian1D_normalized rng1))))
        else rng' = rng1
             /\ out_range = fmul32 (float_of_Z k) (resolution g)).
Proof.
  intros Hmax rng1. subst rng1. unfold simulateScanRay.
  destruct (fgt angleNoiseStd fzero).
  all: try destruct (drawGaussian1D_normalized rng) as [a rng1]; cbn [snd].
  all: match goal with
       | |- context [ray_march ?f ?g ?t ?m ?ax ?ay ?rx ?ry ?x ?y ?h ?fu ?l] =>
           destruct (ray_march_returns g t m ax ay ltac:(lia) f rx ry x y h fu l)
             as (e & He);
           [lia | rewrite Z.sub_0_r; apply Nat.le_refl |];
           pose proof (ray_march_bounds g t m ax ay ltac:(lia) f rx ry x y h
                         fu l e ltac:(lia) ltac:(apply to_unsigned_range) He)
             as (Hl & Hf);
           rewrite He
       end.
  all: cbn [mbind outcome_bind bind].
  all: destruct (_ || _ || _).
  all: try (destruct (Z.ltb_spec (exit_firstUnknownCellDist e)
                        (exit_ray_len e));
            [exists (exit_firstUnknownCellDist e)
            |exists (exit_ray_len e)];
            eexists _, false, _; rewrite andb_false_r;
            (split; [reflexivity|]); (split; [lia|]); split; reflexivity).
  all: exists (exit_ray_len e).
  all: destruct (fgt noiseStd fzero && (exit_ray_len e <? max_ray_len))
         eqn:Hdraw.
  all: try (destruct (drawGaussian1D_normalized _) as [r rng2];
            apply andb_true_iff in Hdraw; destruct Hdraw as (Hn & Hv);
            eexists _, _, _; (split; [reflexivity|]); (split; [lia|]);
            rewrite Hn, Hv; cbn [andb fst snd]; split; reflexivity).
  all: eexists _, _, _; (split; [reflexivity|]); (split; [lia|]);
       rewrite Hdraw; split; reflexivity.
Qed.

End Draws.

Section NoScan3D.
Context `{ERDExternals}.

(** X21. A session, from a freshly constructed decider, in which no call
    brings a 3D range scan as its observation never works in 3D: the mode
    stays 2D, no 3D scan is kept or bound to a node, and no ICP3D edge is
    counted. *)
Theorem sessions_without_3D_scans_stay_2D params steps :
  (forall s, In s steps -> brings_3D_scan s = false) ->
  let d := run params initCICPGoodnessERD_t steps in
  m_is_using_3DScan d = false
  /\ m_last_laser_scan3D d = None
  /\ m_nodes_to_laser_scans3D d = ∅
  /\ count_ICP3D d = 0.
Proof.
  intros Hno. cbv zeta.
  assert (Hinit : m_is_using_3DScan initCICPGoodnessERD_t = false
                  /\ m_last_laser_scan3D initCICPGoodnessERD_t = None
                  /\ m_nodes_to_laser_scans3D initCICPGoodnessERD_t = ∅
                  /\ count_ICP3D initCICPGoodnessERD_t = 0).
  { repeat split; reflexivity. }
  generalize dependent initCICPGoodnessERD_t.
  induction steps as [|s steps IH]; intros d Hd; [exact Hd|].
  unfold run. cbn [foldl]. fold (run params (update params d s) steps).
  apply IH; [intros t Ht; apply Hno; right; exact Ht|]. clear IH.
  destruct Hd as (Hmode & Hlast & Hreg & Hcount).
  specialize (Hno s (or_introl eq_refl)). unfold brings_3D_scan in Hno.
  unfold update.
  destruct (update_fields params d (step_graph s) (step_observations s)
              (step_observation s)) as (_ & M).
  destruct (update_scans params d (step_graph s) (step_observations s)
              (step_observation s)) as (_ & S2 & _ & S4).
  destruct (update_counts_exact params d (step_graph s) (step_observations s)
              (step_observation s)) as (_ & C).
  destruct (before_registration_fields d (step_graph s) (step_observations s)
              (step_observation s)) as (_ & _ & _ & B).
  cbv zeta in M, S2, S4, C, B.
  assert (Hm : m_is_using_3DScan
                 (fst (updateDeciderState params d (step_graph s)
                         (step_observations s) (step_observation s))) = false).
  { rewrite M. destruct (step_observation s) as [[sc|sc|]|];
      try reflexivity; try exact Hmode; discriminate. }
  assert (Hl : m_last_laser_scan3D
                 (fst (updateDeciderState params d (step_graph s)
                         (step_observations s) (step_observation s))) = None).
  { rewrite S2. destruct (step_observation s) as [[sc|sc|]|];
      try exact Hlast; discriminate. }
  split; [exact Hm|]. split; [exact Hl|]. split.
  - rewrite S4, Hl. destruct (new_node_detected d (step_graph s));
      destruct (step_observation s); exact Hreg.
  - unfold count_ICP3D in *. rewrite C; [exact Hcount | | discriminate].
    unfold mode_label. rewrite B.
    destruct (step_observation s) as [[sc|sc|]|];
      try rewrite Hmode; discriminate.
Qed.

End NoScan3D.

(** * The further properties on concrete grids and sessions *)

Lemma to_int_range z : - 2 ^ 31 <= to_int z < 2 ^ 31.
Proof.
  unfold to_int, two32.
  pose proof (Z.mod_pos_bound z (2 ^ 32) ltac:(lia)).
  destruct (Z.ltb_spec (z mod 2 ^ 32) (2 ^ 31)); lia.
Qed.

(** The coordinate transforms of the sample interface return [int]s. *)
Lemma sample_int_valued g : int_valued (H := Sample.externals) g.
Proof.
  intros r. cbn [x2idx y2idx Sample.externals].
  unfold Sample.to_index, Sample.trunc.
  split.
  - destruct (fdiv64 _ _); try lia; apply to_int_range.
  - destruct (fdiv64 _ _); try lia; apply to_int_range.
Qed.

(** A ray along a strip of ten cells with a wall at column 3. *)
Lemma simulateScanRay_hit_witness :
  simulateScanRay (H := Sample.externals) (Sample.strip 10 [3%nat])
    fzero fzero fzero 5 fhalf fzero fzero []
  = Returns (fmul32 (float_of_Z 3) (resolution (Sample.strip 10 [3%nat])),
             true, []).
Proof.
  apply (simulateScanRay_hit (H := Sample.externals)
           (Sample.strip 10 [3%nat]) fzero fzero fzero 5 fhalf fzero fzero []
           3%nat).
  - unfold sizes_fit_int; simpl; lia.
  - unfold two32. lia.
  - reflexivity.
  - reflexivity.
  - lia.
  - intros k Hk.
    assert (Hcases : (k = 0 \/ k = 1 \/ k = 2)%nat) by lia.
    destruct Hcases as [->|[->| ->]];
      vm_compute; repeat split; try reflexivity; intro; discriminate.
  - vm_compute. repeat split; try reflexivity; intro; discriminate.
Defined.

(** A ray along a free strip of four cells, which it leaves after four
    steps. *)
Lemma simulateScanRay_leaves_grid_witness :
  simulateScanRay (H := Sample.externals) (Sample.strip 4 [])
    fzero fzero fzero 10 fhalf fzero fzero []
  = Returns (fmul32 (float_of_Z 4) (resolution (Sample.strip 4 [])),
             false, []).
Proof.
  apply (simulateScanRay_leaves_grid (H := Sample.externals)
           (Sample.strip 4 []) fzero fzero fzero 10 fhalf fzero fzero []
           4%nat).
  - unfold sizes_fit_int; simpl; lia.
  - apply sample_int_valued.
  - unfold two32. lia.
  - reflexivity.
  - lia.
  - intros k Hk.
    assert (Hcases : (k = 0 \/ k = 1 \/ k = 2 \/ k = 3)%nat) by lia.
    destruct Hcases as [->|[->|[->| ->]]];
      vm_compute; repeat split; try reflexivity; intro; discriminate.
  - intros (Hx & _). vm_compute in Hx. destruct Hx as (_ & Hx). discriminate.
Defined.

(** A ray along a strip of three cells whose second cell is unknown but
    freer than the threshold: the ray goes on over it, leaves the strip
    after three steps, and is reported invalid at 0.1 m, the distance of
    the unknown cell. *)
Lemma simulateScanRay_first_unknown_cell_witness :
  let g := Sample.row [100; 1; 100] in
  simulateScanRay (H := Sample.externals) g
    fzero fzero fzero 10 fhalf fzero fzero []
  = Returns (fmul32 (float_of_Z 1) (resolution g), false, []).
Proof.
  cbv zeta.
  destruct (simulateScanRay_first_unknown_cell (H := Sample.externals)
              (Sample.row [100; 1; 100]) fzero fzero fzero 10 fhalf
              fzero fzero [] 1%nat 3%nat)
    as (r & v & rng' & Heq & Hvalid & Hinvalid & _).
  - unfold sizes_fit_int; simpl; lia.
  - apply sample_int_valued.
  - unfold two32. lia.
  - reflexivity.
  - lia.
  - lia.
  - intros k Hk. assert (k = 0%nat) as -> by lia.
    vm_compute; repeat split; try reflexivity; intro; discriminate.
  - vm_compute. repeat split; try reflexivity; intro; discriminate.
  - vm_compute. intro; discriminate.
  - intros k Hk.
    assert (Hcases : (k = 0 \/ k = 1 \/ k = 2)%nat) by lia.
    destruct Hcases as [->|[->| ->]];
      vm_compute; repeat split; try reflexivity; intro; discriminate.
  - left. intros ((Hx & _) & _). vm_compute in Hx. destruct Hx as (_ & Hx).
    discriminate.
  - assert (Hv : v = false).
    { destruct v; [|reflexivity].
      destruct (proj1 Hvalid eq_refl) as (_ & ((Hx & _) & _)).
      vm_compute in Hx. destruct Hx as (_ & Hx). discriminate. }
    subst v. destruct (Hinvalid eq_refl) as (-> & _ & Hr).
    rewrite Heq, Hr; [reflexivity|].
    intros (Hlim & _). lia.
Defined.

(** The range of a ray with a limit of five cells. *)
Lemma simulateScanRay_range_within_limit_witness :
  let g := Sample.strip 10 [3%nat] in
  exists k out_valid rng',
    simulateScanRay (H := Sample.externals) g
      fzero fzero fzero 5 fhalf fzero fzero []
    = Returns (fmul32 (float_of_Z k) (resolution g), out_valid, rng')
    /\ 0 <= k <= 5
    /\ (out_valid = true -> k < 5).
Proof.
  apply (simulateScanRay_range_within_limit (H := Sample.externals)
           (Sample.strip 10 [3%nat]) fzero fzero fzero 5 fhalf fzero fzero []).
  - unfold two32. lia.
  - reflexivity.
Defined.

(** The ray that meets the wall at column 3 is valid. *)
Lemma simulateScanRay_valid_iff_obstacle_witness :
  exists out_range rng',
    simulateScanRay (H := Sample.externals) (Sample.strip 10 [3%nat])
      fzero fzero fzero 5 fhalf fzero fzero []
    = Returns (out_range, true, rng').
Proof.
  destruct (simulateScanRay_valid_iff_obstacle (H := Sample.externals)
              (Sample.strip 10 [3%nat]) fzero fzero fzero 5 fhalf fzero fzero
              [])
    as (r & v & rng' & Heq & Hiff).
  - unfold sizes_fit_int; simpl; lia.
  - apply sample_int_valued.
  - unfold two32. lia.
  - reflexivity.
  - assert (Hv : v = true).
    { apply Hiff. exists 3%nat. split; [lia|]. split.
      - intros k Hk.
        assert (Hcases : (k = 0 \/ k = 1 \/ k = 2)%nat) by lia.
        destruct Hcases as [->|[->| ->]];
          vm_compute; repeat split; try reflexivity; intro; discriminate.
      - vm_compute. repeat split; try reflexivity; intro; discriminate. }
    subst v. exists r, rng'. exact Heq.
Defined.

(** The three functions without noise, on a strip with a wall. *)
Lemma noise_free_simulation_leaves_generator_witness :
  let g := Sample.strip 10 [3%nat] in
  (exists out_range out_valid,
     forall rng,
       simulateScanRay (H := Sample.externals) g fzero fzero fzero 5 fhalf
         (double_of_float fzero) (double_of_float fzero) rng
       = Returns (out_range, out_valid, rng))
  /\ (exists out,
        forall rng,
          laserScanSimulator (H := Sample.externals) g Sample.empty_scan
            Sample.robot_at_origin fhalf 3 fzero 2 fzero rng
          = Returns (out, rng))
  /\ (exists out,
        forall rng,
          sonarSimulator (H := Sample.externals) g
            (Sample.sonar (Sample.dec32 2 10) [Sample.transducer fone])
            Sample.robot_at_origin fhalf fzero fzero rng
          = Returns (out, rng)).
Proof.
  cbv zeta.
  destruct (noise_free_simulation_leaves_generator (H := Sample.externals)
              (Sample.strip 10 [3%nat]) Sample.robot_at_origin fhalf fzero
              fzero eq_refl eq_refl) as (Hray & Hlaser & Hsonar).
  split; [|split].
  - apply Hray. unfold two32. lia.
  - apply Hlaser; unfold two64; lia.
  - apply Hsonar. reflexivity.
Defined.

(** A scan of three rays of which every second one is simulated. *)
Lemma laserScanSimulator_output_shape_witness :
  let g := Sample.strip 10 [3%nat] in
  let inout_Scan := Sample.empty_scan in
  exists out rng',
    laserScanSimulator (H := Sample.externals) g inout_Scan
      Sample.robot_at_origin fhalf 3 fzero 2 fzero [] = Returns (out, rng')
    /\ length (scan out) = Z.to_nat 3
    /\ length (validRange out) = Z.to_nat 3
    /\ aperture out = aperture inout_Scan
    /\ rightToLeft out = rightToLeft inout_Scan
    /\ maxRange out = maxRange inout_Scan
    /\ sensorPose out = sensorPose inout_Scan
    /\ (forall j : nat,
          Z.of_nat j mod 2 <> 0 ->
          scan out !! j = resize 3 fzero (scan inout_Scan) !! j
          /\ validRange out !! j = resize 3 0 (validRange inout_Scan) !! j)
    /\ (forall j : nat,
          Z.of_nat j < 3 -> Z.of_nat j mod 2 = 0 ->
          validRange out !! j = Some 0 \/ validRange out !! j = Some 1).
Proof.
  apply (laserScanSimulator_output_shape (H := Sample.externals)
           (Sample.strip 10 [3%nat]) Sample.empty_scan Sample.robot_at_origin
           fhalf 3 fzero 2 fzero []); unfold two64; lia.
Defined.

(** The entry at index 2 of that scan is the ray of the second iteration. *)
Lemma laserScanSimulator_noise_free_rays_witness :
  exists out r v,
    (forall rng,
       laserScanSimulator (H := Sample.externals) (Sample.strip 10 [3%nat])
         Sample.empty_scan Sample.robot_at_origin fhalf 3 fzero 2 fzero rng
       = Returns (out, rng))
    /\ scan out !! 2%nat = Some r
    /\ validRange out !! 2%nat = Some (if v : bool then 1 else 0).
Proof.
  destruct (laserScanSimulator_noise_free_rays (H := Sample.externals)
              (Sample.strip 10 [3%nat]) Sample.empty_scan
              Sample.robot_at_origin fhalf 3 fzero 2 fzero)
    as (out & Hrun & Hrays); [lia | lia | unfold two64; lia
                              | reflexivity | reflexivity |].
  destruct (Hrays 1%nat ltac:(lia)) as (r & v & _ & Hs & Hv).
  exists out, r, v. split; [exact Hrun|]. split; [exact Hs | exact Hv].
Defined.

(** A sonar in a room of 30 by 11 cells with a wall at column 20, looking
    at the wall from the middle of the left edge: the twelve rays of the
    cone all reach the wall, the first one after 2.1 m, the shortest after
    2.0 m. *)
Lemma sonar_cone_keeps_shortest_when_first_ray_valid_witness :
  let g := Sample.room 30 11 20 in
  let robotPose := CPose2D.mk fzero (Sample.dec64 55 100) fzero in
  let far := S754_finite false 8808039 (-22) in
  let near := S754_finite false 8388608 (-22) in
  let rays :=
    [ (far, true); (far, true); (far, true); (far, true); (far, true);
      (far, true); (near, true); (far, true); (far, true); (far, true);
      (far, true); (far, true) ] in
  exists m' rng',
    sonar_cone (H := Sample.externals) g robotPose (Sample.dec32 2 10) 50
      (fsub32 fone fhalf) fzero fzero (Sample.transducer fone) []
    = Returns (m', rng')
    /\ sensorID m' = sensorID (Sample.transducer fone)
    /\ sensorPose_ m' = sensorPose_ (Sample.transducer fone)
    /\ In (sensedDistance m', true) rays
    /\ (forall r', In (r', true) rays -> flt r' (sensedDistance m') = false).
Proof.
  cbv zeta.
  apply (sonar_cone_keeps_shortest_when_first_ray_valid
           (H := Sample.externals) (Sample.room 30 11 20)
           (CPose2D.mk fzero (Sample.dec64 55 100) fzero) (Sample.dec32 2 10)
           50 (fsub32 fone fhalf) fzero fzero (Sample.transducer fone) []).
  - reflexivity.
  - vm_compute. reflexivity.
Defined.

(** A sonar with two transducers. *)
Lemma sonarSimulator_keeps_transducers_witness :
  let obs :=
    Sample.sonar (Sample.dec32 2 10)
      [Sample.transducer fone; Sample.transducer fzero] in
  exists out rng',
    sonarSimulator (H := Sample.externals) (Sample.strip 10 [3%nat]) obs
      Sample.robot_at_origin fhalf fzero fzero [] = Returns (out, rng')
    /\ maxSensorDistance out = maxSensorDistance obs
    /\ sensorConeApperture out = sensorConeApperture obs
    /\ List.map sensorID (sensedData out) = List.map sensorID (sensedData obs)
    /\ List.map sensorPose_ (sensedData out)
       = List.map sensorPose_ (sensedData obs).
Proof.
  apply (sonarSimulator_keeps_transducers (H := Sample.externals)
           (Sample.strip 10 [3%nat])
           (Sample.sonar (Sample.dec32 2 10)
              [Sample.transducer fone; Sample.transducer fzero])
           Sample.robot_at_origin fhalf fzero fzero []).
  reflexivity.
Defined.

(** The candidates of node 3 in a graph of four nodes, within 1 m. *)
Lemma getNearbyNodesOf_within_distance_witness :
  let E := Session.externals Session.good in
  let g := Session.graph_of 4 in
  getNearbyNodesOf (H := E) g [] 3 fone
  = List.filter (within_distance (H := E) g 3 fone)
      (seqZ 0 (nodeCount (ERDExternals := E) g - 1)).
Proof.
  cbv zeta.
  apply (getNearbyNodesOf_within_distance (H := Session.externals Session.good)
           (Session.graph_of 4) 3 fone).
  - reflexivity.
  - split; vm_compute; intro; discriminate.
Defined.

(** A call on a graph of two nodes, which a fresh decider takes as known. *)
Lemma update_without_new_node_witness :
  let E := Session.externals Session.good in
  let d := initCICPGoodnessERD_t (H := E) in
  let g := Session.graph_of 2 in
  let st :=
    updateDeciderState (H := E) (Session.params fone 10) d g []
      (Some (Obs2DRangeScan Sample.empty_scan)) in
  snd st = g
  /\ getEdgesStats (fst st) = getEdgesStats d
  /\ m_nodes_to_laser_scans2D (fst st) = m_nodes_to_laser_scans2D d
  /\ m_nodes_to_laser_scans3D (fst st) = m_nodes_to_laser_scans3D d
  /\ justInsertedLoopClosure (fst st) = justInsertedLoopClosure d
  /\ m_last_total_num_of_nodes (fst st) = m_last_total_num_of_nodes d.
Proof.
  cbv zeta.
  apply (update_without_new_node (H := Session.externals Session.good)
           (Session.params fone 10) initCICPGoodnessERD_t (Session.graph_of 2)
           [] (Some (Obs2DRangeScan Sample.empty_scan))).
  vm_compute. reflexivity.
Defined.

(** After the call that adds node 2, that node has a scan. *)
Lemma registries_stay_in_range_witness :
  let E := Session.externals Session.good in
  2 <= 2 < m_last_total_num_of_nodes
             (run (H := E) (Session.params fone 10) initCICPGoodnessERD_t
                [Session.step2D Session.good 3]).
Proof.
  cbv zeta.
  apply (registries_stay_in_range (H := Session.externals Session.good)
           (Session.params fone 10) [Session.step2D Session.good 3]).
  - intros s [<-|[]]. vm_compute. reflexivity.
  - left. exists Sample.empty_scan. vm_compute. reflexivity.
Defined.

(** The scan of node 2 is still bound to it after the call that adds
    node 3. *)
Lemma registered_scans_are_kept_witness :
  let E := Session.externals Session.good in
  m_nodes_to_laser_scans2D
    (run (H := E) (Session.params fone 10) initCICPGoodnessERD_t
       ([Session.step2D Session.good 3] ++ [Session.step2D Session.good 4]))
  !! 2 = Some Sample.empty_scan.
Proof.
  cbv zeta.
  apply (proj1 (registered_scans_are_kept
                  (H := Session.externals Session.good)
                  (Session.params fone 10) [Session.step2D Session.good 3]
                  [Session.step2D Session.good 4]
                  ltac:(intros s [<-|[<-|[]]]; vm_compute; reflexivity))).
  vm_compute. reflexivity.
Defined.

(** The call that adds node 3 registers the edge from node 2. *)
Lemma registered_edges_start_at_scanned_nodes_witness :
  let E := Session.externals Session.good in
  let g := Session.graph_of 4 in
  2 <= 2 <= nodeCount (ERDExternals := E) g - 1
  /\ (fgt (ICP_max_distance (Session.params fone 10)) fzero = true ->
      2 < nodeCount (ERDExternals := E) g - 1).
Proof.
  cbv zeta.
  apply (registered_edges_start_at_scanned_nodes
           (H := Session.externals Session.good) (Session.params fone 10)
           [Session.step2D Session.good 3] (Session.step2D Session.good 4)
           (2, tt)).
  - intros s [<-|[]]. vm_compute. reflexivity.
  - vm_compute. reflexivity.
  - vm_compute. left. reflexivity.
Defined.

(** With [LC_min_nodeid_diff = 0] that edge, which spans one id, is
    counted as a loop closure. *)
Lemma LC_counter_counts_spanning_edges_witness :
  let E := Session.externals Session.good in
  let params := Session.params fone 0 in
  let d := run (H := E) params initCICPGoodnessERD_t
             [Session.step2D Session.good 3] in
  let g := Session.graph_of 4 in
  let obs := Some (Obs2DRangeScan Sample.empty_scan) in
  count_LC (fst (updateDeciderState params d g [] obs))
  = count_LC d
    + Z.of_nat (length (List.filter (is_loop_closure params g)
                          (registered_edges params d g [] obs))).
Proof.
  cbv zeta.
  apply (LC_counter_counts_spanning_edges
           (L := spec_graph_laws _ _ _ _) (Session.params fone 0)
           (run (H := Session.externals Session.good) (Session.params fone 0)
              initCICPGoodnessERD_t [Session.step2D Session.good 3])
           (Session.graph_of 4) []
           (Some (Obs2DRangeScan Sample.empty_scan))).
Defined.

(** A ray with range noise of deviation 1 and the draw 0.01 at hand: the
    ray is valid, and the draw is used for its range. *)
Lemma simulateScanRay_draws_witness :
  let g := Sample.strip 10 [3%nat] in
  let rng := [Sample.dec64 1 100] in
  exists k out_range out_valid rng',
    simulateScanRay (H := Sample.externals) g fzero fzero fzero 5 fhalf
      fone fzero rng
    = Returns (out_range, out_valid, rng')
    /\ 0 <= k <= 5
    /\ (if fgt fone fzero && out_valid
        then rng' = snd (drawGaussian1D_normalized
                           (SimExternals := Sample.externals) rng)
             /\ out_range
                = float_of_double
                    (fadd64
                       (double_of_float
                          (fmul32 (float_of_Z k) (resolution g)))
                       (fmul64 fone
                          (fst (drawGaussian1D_normalized
                                  (SimExternals := Sample.externals) rng))))
        else rng' = rng
             /\ out_range = fmul32 (float_of_Z k) (resolution g)).
Proof.
  cbv zeta.
  apply (simulateScanRay_draws (H := Sample.externals)
           (Sample.strip 10 [3%nat]) fzero fzero fzero 5 fhalf fone fzero
           [Sample.dec64 1 100]).
  unfold two32. lia.
Defined.

(** A session of two 2D scans. *)
Lemma sessions_without_3D_scans_stay_2D_witness :
  let E := Session.externals Session.good in
  let d :=
    run (H := E) (Session.params fone 10) initCICPGoodnessERD_t
      [Session.step2D Session.good 3; Session.step2D Session.good 4] in
  m_is_using_3DScan d = false
  /\ m_last_laser_scan3D d = None
  /\ m_nodes_to_laser_scans3D d = ∅
  /\ count_ICP3D d = 0.
Proof.
  cbv zeta.
  apply (sessions_without_3D_scans_stay_2D
           (H := Session.externals Session.good) (Session.params fone 10)
           [Session.step2D Session.good 3; Session.step2D Session.good 4]).
  intros s [<-|[<-|[]]]; reflexivity.
Defined.

(** A node detected on a call whose observation is no range scan is bound
    to the scan of the call before: node 3 gets the 2D scan received with
    node 2, and the edge from 2 to 3 is registered on it. *)
Example node_bound_to_earlier_scan :
  let E := Session.externals Session.good in
  let d :=
    run (H := E) (Session.params fone 10) initCICPGoodnessERD_t
      [Session.step2D Session.good 3; Session.stepOther Session.good 4] in
  m_nodes_to_laser_scans2D d !! 3 = Some Sample.empty_scan
  /\ count_ICP2D d = 1.
Proof. vm_compute. split; reflexivity. Qed.

(** Twenty unrecognised observations leave the dataset check running, the
    twenty-first ends it. *)
Example dataset_check_on_unrecognised_observations :
  let E := Session.externals Session.good in
  let session n :=
    run (H := E) (Session.params fone 10) initCICPGoodnessERD_t
      (repeat (Session.stepOther Session.good 2) n) in
  m_checked_for_usuable_dataset (session 20%nat) = false
  /\ m_checked_for_usuable_dataset (session 21%nat) = true
  /\ m_consecutive_invalid_format_instances (session 30%nat) = 21.
Proof. vm_compute. repeat split; reflexivity. Qed.
